(** * The concurrent job controller of the WebP batch converter (app.py)

    A shallow embedding of [safe_remove], [ConvertTask.run],
    [JobController] and [ImageConverter] of [src/app.py], the properties
    the specification states about them, and further properties that the
    code has.

    Layout of the development:
    - Part I   the Python runtime the code relies on (exceptions, [float],
               [time.gmtime], [os.path]);
    - Part II  the embedded program: [safe_remove], [JobController],
               [ConvertTask.run], the threads of a job, the workflow filter
               of [save_with_metadata], the window [ImageConverter], and
               the notions and scenarios that the statements use;
    - Part III properties of the functions;
    - Part IV  properties of the job under any schedule of its threads;
    - Part V   the job when the calls of [task_finished] are serialized;
    - Part VI  calls of [task_finished] that overlap;
    - Part VII further properties: deletion of the source, output names,
               pausing, counters and error reports under any schedule, the
               workflow filter, the window, the text of the ETA.

    Conventions.  Python [int] is [Z]; Python [float] is an IEEE-754
    binary64 value, represented by [spec_float] with [prec = 53] and
    [emax = 1024]; [str] is [string] (a byte string, UTF-8 encoded).
    The collaborators (file system, codec, clock) are not part of the
    program: their answers are supplied by an environment record, so every
    statement quantifies over all collaborator behaviours. *)

From stdpp Require Import gmap strings list pretty.
From Stdlib Require Import Ascii ZArith SpecFloat Lia.

Local Open Scope Z_scope.

(* ===================================================================== *)
(** * Part I.  Python runtime                                            *)
(* ===================================================================== *)

(** ** Exceptions *)

(** The classes that matter to the code.  All of them derive from
    [Exception]; [OtherError] stands for any further subclass of
    [Exception] that is not a [PermissionError] (codec errors of PIL,
    [json] errors, ...). *)
Inductive exn_class :=
  | PermissionError
  | FileNotFoundError
  | OSError
  | RuntimeError
  | ValueError
  | ZeroDivisionError
  | OverflowError
  | OtherError (name : string).

(** An exception object: its class and the text [str(e)] yields. *)
Record exn := Exn { exn_cls : exn_class; exn_str : string }.

Definition is_PermissionError (e : exn) : bool :=
  match exn_cls e with PermissionError => true | _ => false end.

(** The outcome of evaluating a Python expression or call. *)
Inductive result (A : Type) :=
  | Ok (a : A)
  | Raise (e : exn).
Arguments Ok {A} a.
Arguments Raise {A} e.

Definition result_bind {A B} (f : A -> result B) (r : result A) : result B :=
  match r with Ok a => f a | Raise e => Raise e end.

#[global] Instance result_ret : MRet result := fun _ a => Ok a.
#[global] Instance result_mbind : MBind result := fun _ _ f r => result_bind f r.
#[global] Instance result_fmap : FMap result :=
  fun _ _ f r => match r with Ok a => Ok (f a) | Raise e => Raise e end.

(** ** Floating point: binary64 *)

Module PyFloat.

Definition prec : Z := 53.
Definition emax : Z := 1024.

Definition float := spec_float.

Definition is_nan (x : float) : bool :=
  match x with S754_nan => true | _ => false end.
Definition is_finite (x : float) : bool :=
  match x with S754_zero _ | S754_finite _ _ _ => true | _ => false end.

(** [float(z)]: the nearest double, ties to even; an [int] beyond the
    range of a double raises [OverflowError]. *)
Definition of_int (z : Z) : result float :=
  match binary_normalize prec emax z 0 false with
  | S754_infinity _ =>
      Raise (Exn OverflowError "int too large to convert to float")
  | x => Ok x
  end.

(** An integer as an unrounded binary value [m * 2^0]. *)
Definition exact_int (z : Z) : float :=
  match z with
  | Z0 => S754_zero false
  | Zpos m => S754_finite false m 0
  | Zneg m => S754_finite true m 0
  end.

(** [a / b] on two [int]s (true division): the correctly rounded
    quotient of the exact integers. *)
Definition int_truediv (a b : Z) : result float :=
  if b =? 0 then Raise (Exn ZeroDivisionError "division by zero")
  else if a =? 0 then Ok (S754_zero (b <? 0))
  else match SFdiv prec emax (exact_int a) (exact_int b) with
       | S754_infinity _ =>
           Raise (Exn OverflowError
                      "integer division result too large for a float")
       | q => Ok q
       end.

Definition is_zero (x : float) : bool :=
  match x with S754_zero _ => true | _ => false end.

(** [x / y] on two [float]s: only a zero divisor raises. *)
Definition truediv (x y : float) : result float :=
  if is_zero y then Raise (Exn ZeroDivisionError "float division by zero")
  else Ok (SFdiv prec emax x y).

Definition mul (x y : float) : float := SFmul prec emax x y.
Definition sub (x y : float) : float := SFsub prec emax x y.

(** [bool(x)]: every float except the two zeros is true (NaN included). *)
Definition truth (x : float) : bool := negb (is_zero x).

(** The integer part of a finite value, rounded down ([floor]) or towards
    zero ([trunc]). *)
Definition floor_finite (s : bool) (m : positive) (e : Z) : Z :=
  let v := if s then Zneg m else Zpos m in
  if 0 <=? e then v * 2 ^ e else v / 2 ^ (- e).

Definition trunc_finite (s : bool) (m : positive) (e : Z) : Z :=
  let v := if s then Zneg m else Zpos m in
  if 0 <=? e then v * 2 ^ e else Z.quot v (2 ^ (- e)).

(** [int(x)] *)
Definition to_int (x : float) : result Z :=
  match x with
  | S754_nan => Raise (Exn ValueError "cannot convert float NaN to integer")
  | S754_infinity _ =>
      Raise (Exn OverflowError "cannot convert float infinity to integer")
  | S754_zero _ => Ok 0
  | S754_finite s m e => Ok (trunc_finite s m e)
  end.

(** The literal [0.1]: the double nearest to one tenth. *)
Definition tenth : float := S754_finite false 7205759403792794 (-56).

End PyFloat.

Abbreviation float := PyFloat.float.

(** ** Numbers that are an [int] or a [float]

    [rate] and [eta] of [task_finished] are a [float] on one branch of
    their conditional expression and the [int] 0 on the other. *)
Inductive pynum :=
  | PyInt (z : Z)
  | PyFloat (x : float).

Definition pynum_truth (v : pynum) : bool :=
  match v with
  | PyInt z => negb (z =? 0)
  | PyFloat x => PyFloat.truth x
  end.

(** [n / v] for an [int] [n]. *)
Definition int_div_pynum (n : Z) (v : pynum) : result float :=
  match v with
  | PyInt z => PyFloat.int_truediv n z
  | PyFloat y => x ← PyFloat.of_int n; PyFloat.truediv x y
  end.

(** ** [time.gmtime] and [time.strftime("%H:%M:%S", ...)] *)

(** The fields of [struct_time] that the format string reads. *)
Record struct_time := { tm_hour : Z; tm_min : Z; tm_sec : Z }.

Definition time_t_min : Z := - 2 ^ 63.
Definition time_t_max : Z := 2 ^ 63 - 1.

(** Seconds since the epoch, as [gmtime] takes them from its argument:
    a float is rounded down; NaN and values outside a 64-bit [time_t] raise.
    (The C library refuses a few more values, those whose calendar year
    does not fit an [int], beyond 6 * 10^16 seconds; the format used here
    does not read the year and the model leaves that check out.) *)
Definition time_t_of (v : pynum) : result Z :=
  let checked (secs : Z) : result Z :=
    if (time_t_min <=? secs) && (secs <=? time_t_max) then Ok secs
    else Raise (Exn OverflowError "timestamp out of range for platform time_t")
  in
  match v with
  | PyInt z => checked z
  | PyFloat S754_nan => Raise (Exn ValueError "Invalid value NaN (not a number)")
  | PyFloat (S754_infinity _) =>
      Raise (Exn OverflowError "timestamp out of range for platform time_t")
  | PyFloat (S754_zero _) => checked 0
  | PyFloat (S754_finite s m e) => checked (PyFloat.floor_finite s m e)
  end.

Definition gmtime (v : pynum) : result struct_time :=
  secs ← time_t_of v;
  let day := secs mod 86400 in
  Ok {| tm_hour := day / 3600; tm_min := (day mod 3600) / 60; tm_sec := day mod 60 |}.

(** A field printed with [%H], [%M] or [%S]: two digits, zero padded. *)
Definition two_digits (n : Z) : string :=
  if n <? 10 then "0" +:+ pretty n else pretty n.

Definition strftime_HMS (t : struct_time) : string :=
  two_digits (tm_hour t) +:+ ":" +:+ two_digits (tm_min t) +:+ ":" +:+
  two_digits (tm_sec t).

(** ** Strings and [os.path] (the POSIX flavour, [posixpath]) *)

Definition is_sep (c : ascii) : bool := bool_decide (c = "/"%char).
Definition is_dot (c : ascii) : bool := bool_decide (c = "."%char).

Fixpoint has_sep (p : string) : bool :=
  match p with
  | EmptyString => false
  | String c r => is_sep c || has_sep r
  end.

(** [os.path.basename(p)]: what follows the last separator. *)
Fixpoint basename (p : string) : string :=
  match p with
  | EmptyString => EmptyString
  | String c r =>
      if has_sep r then basename r
      else if is_sep c then r else p
  end.

Fixpoint ends_with_sep (p : string) : bool :=
  match p with
  | EmptyString => false
  | String c EmptyString => is_sep c
  | String _ r => ends_with_sep r
  end.

Definition starts_with_sep (p : string) : bool :=
  match p with
  | String c _ => is_sep c
  | EmptyString => false
  end.

(** [os.path.join(a, b)] *)
Definition path_join (a b : string) : string :=
  if starts_with_sep b then b
  else if bool_decide (a = "") || ends_with_sep a then a +:+ b
  else a +:+ "/" +:+ b.

(** [os.path.splitext(name)[0]] for a name without separator: the part
    before the last dot, unless only dots precede that dot. *)
Fixpoint last_dot (l : list ascii) : option nat :=
  match l with
  | [] => None
  | c :: r =>
      match last_dot r with
      | Some k => Some (S k)
      | None => if is_dot c then Some 0%nat else None
      end
  end.

Definition splitext_root (name : string) : string :=
  let l := String.list_ascii_of_string name in
  match last_dot l with
  | None => name
  | Some k =>
      if forallb is_dot (take k l) then name
      else String.string_of_list_ascii (take k l)
  end.

(** [s.lower()] on the ASCII letters, and [s.endswith(suffix)]. *)
Definition ascii_lower (c : ascii) : ascii :=
  let n := Ascii.nat_of_ascii c in
  if (65 <=? n)%nat && (n <=? 90)%nat then Ascii.ascii_of_nat (n + 32) else c.

Fixpoint lower (s : string) : string :=
  match s with
  | EmptyString => EmptyString
  | String c r => String (ascii_lower c) (lower r)
  end.

Definition endswith (s suffix : string) : bool :=
  let n := String.length s in
  let k := String.length suffix in
  (k <=? n)%nat && bool_decide (String.substring (n - k) k s = suffix).

(* ===================================================================== *)
(** * Part II.  The program                                              *)
(* ===================================================================== *)

(** ** [safe_remove] (app.py, lines 17-24) *)

(** What [safe_remove] does to the outside world, in order. *)
Inductive io_event :=
  | OsRemove (path : string)
  | TimeSleep (seconds : float).

Section SafeRemove.

(** [os_remove k path] is what the call of [os.remove(path)] does when [k]
    calls have been made before it during this invocation. *)
Variable os_remove : nat -> string -> result unit.

(** The [for _ in range(retries)] loop with [n] iterations left, [k] calls
    made so far.  [Some r]: the function has left the loop with [r] (the
    [return], or an exception that [except PermissionError] does not
    catch); [None]: the loop has run to its end. *)
Fixpoint safe_remove_loop (path : string) (n k : nat)
  : list io_event * option (result unit) :=
  match n with
  | O => ([], None)
  | S n' =>
      match os_remove k path with
      | Ok _ => ([OsRemove path], Some (Ok tt))
      | Raise e =>
          if is_PermissionError e then
            let '(tr, r) := safe_remove_loop path n' (S k) in
            (OsRemove path :: TimeSleep PyFloat.tenth :: tr, r)
          else ([OsRemove path], Some (Raise e))
      end
  end.

Definition safe_remove (path : string) (retries : Z)
  : list io_event * result unit :=
  let n := Z.to_nat retries in
  match safe_remove_loop path n 0 with
  | (tr, Some r) => (tr, r)
  | (tr, None) => (tr ++ [OsRemove path], os_remove n path)
  end.

End SafeRemove.

(** The default of the [retries] parameter. *)
Definition default_retries : Z := 3.

(** ** [JobController] (app.py, lines 82-189) *)

(** The four signals, with what they carry. *)
Inductive signal :=
  | Progress (percent : Z)
  | Eta (text : string)
  | Finished (converted saved_bytes : Z)
  | Error (msg : string).

(** The attributes of a controller.  [emitted] is not an attribute: it
    records the signals emitted so far, oldest first. *)
Record JobController := mkJobController {
  files : list string;
  output_dir : string;
  quality : Z;
  keep_metadata : bool;
  delete_originals : bool;
  total : Z;
  completed : Z;
  orig_bytes : Z;
  webp_bytes : Z;
  start_time : float;
  cancelled : bool;
  paused : bool;
  emitted : list signal
}.

(** A method: it may change the controller, and returns or raises. *)
Definition Method (A : Type) : Type :=
  JobController -> result A * JobController.

#[global] Instance Method_ret : MRet Method := fun _ a self => (Ok a, self).
#[global] Instance Method_bind : MBind Method := fun _ _ f m self =>
  match m self with
  | (Ok a, self') => f a self'
  | (Raise e, self') => (Raise e, self')
  end.

Definition get_self : Method JobController := fun self => (Ok self, self).

Definition lift {A} (r : result A) : Method A := fun self => (r, self).

Definition raise {A} (e : exn) : Method A := lift (Raise e).

Definition emit (s : signal) : Method unit := fun self =>
  (Ok tt,
   mkJobController (files self) (output_dir self) (quality self)
     (keep_metadata self) (delete_originals self) (total self)
     (completed self) (orig_bytes self) (webp_bytes self) (start_time self)
     (cancelled self) (paused self) (emitted self ++ [s])).

(** [try: body / except Exception as e: handler(e)] *)
Definition try_except {A} (body : Method A) (handler : exn -> Method A)
  : Method A := fun self =>
  match body self with
  | (Ok a, self') => (Ok a, self')
  | (Raise e, self') => handler e self'
  end.

(** The three [+=] at the head of [task_finished]. *)
Definition count_task (orig webp : Z) : Method unit := fun self =>
  (Ok tt,
   mkJobController (files self) (output_dir self) (quality self)
     (keep_metadata self) (delete_originals self) (total self)
     (completed self + 1) (orig_bytes self + orig) (webp_bytes self + webp)
     (start_time self) (cancelled self) (paused self) (emitted self)).

Definition set_paused (b : bool) : Method unit := fun self =>
  (Ok tt,
   mkJobController (files self) (output_dir self) (quality self)
     (keep_metadata self) (delete_originals self) (total self)
     (completed self) (orig_bytes self) (webp_bytes self) (start_time self)
     (cancelled self) b (emitted self)).

Definition set_cancelled (b : bool) : Method unit := fun self =>
  (Ok tt,
   mkJobController (files self) (output_dir self) (quality self)
     (keep_metadata self) (delete_originals self) (total self)
     (completed self) (orig_bytes self) (webp_bytes self) (start_time self)
     b (paused self) (emitted self)).

(** [int((self.completed / self.total) * 100)] *)
Definition percent_of (done all : Z) : result Z :=
  ratio ← PyFloat.int_truediv done all;
  hundred ← PyFloat.of_int 100;
  PyFloat.to_int (PyFloat.mul ratio hundred).

(** [rate], [remaining] and [eta] of [task_finished], from the counters and
    the elapsed time. *)
Definition rate_of (done : Z) (elapsed : float) : result pynum :=
  if PyFloat.truth elapsed
  then PyFloat <$> int_div_pynum done (PyFloat elapsed)
  else Ok (PyInt 0).

(** [remaining / rate if rate else 0] *)
Definition eta_value (remaining : Z) (rate : pynum) : result pynum :=
  if pynum_truth rate
  then PyFloat <$> int_div_pynum remaining rate
  else Ok (PyInt 0).

Definition eta_of (all done : Z) (elapsed : float) : result pynum :=
  rate ← rate_of done elapsed;
  eta_value (all - done) rate.

(** [time.strftime("%H:%M:%S", time.gmtime(eta))] *)
Definition format_eta (v : pynum) : result string :=
  strftime_HMS <$> gmtime v.

(** [task_finished(self, orig, webp)], when no other thread runs during the
    call; [now] is the value that [time.monotonic()] returns inside it.  An
    exception leaves the changes made before it in place. *)
Definition task_finished (now : float) (orig webp : Z) : Method unit :=
  count_task orig webp;;
  self ← get_self;
  percent ← lift (percent_of (completed self) (total self));
  emit (Progress percent);;
  let elapsed := PyFloat.sub now (start_time self) in
  eta_v ← lift (eta_of (total self) (completed self) elapsed);
  text ← lift (format_eta eta_v);
  emit (Eta text);;
  if completed self =? total self
  then emit (Finished (completed self) (orig_bytes self - webp_bytes self))
  else mret tt.

Definition task_error (msg : string) : Method unit := emit (Error msg).

Definition pause : Method unit := set_paused true.
Definition resume : Method unit := set_paused false.
Definition cancel : Method unit := set_cancelled true.

(** *** [resolve_name] (lines 130-136) *)

(** The names that the loop tries: [base.webp], then [base_1.webp],
    [base_2.webp], ... *)
Definition candidate_name (base : string) (j : nat) : string :=
  match j with
  | O => base +:+ ".webp"
  | S _ => base +:+ "_" +:+ pretty j +:+ ".webp"
  end.

Definition candidate (dir base : string) (j : nat) : string :=
  path_join dir (candidate_name base j).

(** [os.path.exists], where [fs] is the set of paths that exist. *)
Definition os_path_exists (fs : gset string) (path : string) : bool :=
  bool_decide (path ∈ fs).

(** The [while] loop, with the current [path] and counter [i], run for at
    most [fuel] tests of its condition; [None] when they do not suffice. *)
Fixpoint resolve_name_loop (fuel : nat) (fs : gset string)
    (dir base path : string) (i : nat) : option string :=
  match fuel with
  | O => None
  | S fuel' =>
      if os_path_exists fs path
      then resolve_name_loop fuel' fs dir base
             (path_join dir (base +:+ "_" +:+ pretty i +:+ ".webp")) (S i)
      else Some path
  end.

(** One more test than there are existing paths always suffices
    ([resolve_name_fuel_enough] below). *)
Definition resolve_name_fuel (fs : gset string) : nat := S (size fs).

Definition resolve_name_opt (fs : gset string) (self : JobController)
    (base : string) : option string :=
  resolve_name_loop (resolve_name_fuel fs) fs (output_dir self) base
    (path_join (output_dir self) (base +:+ ".webp")) 1.

(** The path returned.  The loop always ends ([resolve_name_first_free]
    below), so the default is never used. *)
Definition resolve_name (fs : gset string) (self : JobController)
    (base : string) : string :=
  default (path_join (output_dir self) (base +:+ ".webp"))
          (resolve_name_opt fs self base).

(** *** [save_with_metadata] (lines 138-165)

    [save] is the outcome of everything after the PNG check: reading the
    workflow, filtering it (failures of which are swallowed), and writing
    the file with its EXIF tag. *)
Definition save_with_metadata (save : result unit) (img_path : string)
  : result unit :=
  if negb (endswith (lower img_path) ".png")
  then Raise (Exn ValueError "Workflow requires PNG")
  else save.

(** ** [ConvertTask] (lines 29-76) *)

(** What the collaborators answer during one execution of the [try] block
    of [run]. *)
Record Env := mkEnv {
  (** [os.path.getsize(self.img_path)] *)
  src_size : result Z;
  (** [Image.open(self.img_path)] followed by [img.load()] *)
  image_open : result unit;
  (** the paths for which [os.path.exists] answers [True] while
      [resolve_name] runs *)
  existing : gset string;
  (** writing the WebP file at a path: [img.save(...)], or what
      [save_with_metadata] does after its PNG check *)
  image_save : string -> result unit;
  (** [os.path.getsize(output_path)], once the image is closed *)
  out_size : string -> result Z;
  (** the calls of [os.remove] made by [safe_remove], in order *)
  os_remove : nat -> string -> result unit;
  (** [time.monotonic()] inside [task_finished] *)
  monotonic : float
}.

(** The [try] block up to the call of [task_finished]: the sizes it passes
    on. *)
Definition convert (env : Env) (img_path : string) : Method (Z * Z) :=
  self ← get_self;
  orig_size ← lift (src_size env);
  lift (image_open env);;
  let base := splitext_root (basename img_path) in
  let output_path := resolve_name (existing env) self base in
  lift (if keep_metadata self
        then save_with_metadata (image_save env output_path) img_path
        else image_save env output_path);;
  webp_size ← lift (out_size env output_path);
  if webp_size <=? 0 then raise (Exn RuntimeError "Empty WEBP")
  else
    (if delete_originals self
     then lift (snd (safe_remove (os_remove env) img_path default_retries))
     else mret tt);;
    mret (orig_size, webp_size).

Definition try_block (env : Env) (img_path : string) : Method unit :=
  sizes ← convert env img_path;
  task_finished (monotonic env) sizes.1 sizes.2.

(** The [try ... except Exception as e] statement of [run]. *)
Definition run_try (env : Env) (img_path : string) : Method unit :=
  try_except (try_block env img_path)
    (fun e => task_error (basename img_path +:+ " → " +:+ exn_str e)).

(** ** Threads

    [run] is executed by the threads of the pool, and [task_finished] is
    called from [run], on the thread of the task: several calls can be in
    progress at once.  The code takes no lock around them, and Python does
    not make a statement atomic: another thread may run between any two
    accesses to an attribute, in particular between the load and the store
    of [self.completed += 1].  The job is therefore described by moves, each
    of which makes at most one access to a mutable attribute of the
    controller or emits one signal, and a schedule may interleave the moves
    of the caller and of the workers in any order.

    The functions above ([task_finished], [run_try]) say what one call does
    when nothing else runs in between; [finish_run_serial] below shows that
    they are the moves of one task run in a row. *)

(** How an execution of [run] ended. *)
Inductive exit_kind :=
  | Aborted                  (** [return] at the cancel check *)
  | Completed                (** [task_finished] was called and returned *)
  | Failed (counted : bool). (** the handler ran; [counted]: the exception
                                 came out of [task_finished] itself *)

(** The program points inside [task_finished], with the locals alive at
    each. *)
Inductive tf_pc :=
  | ReadCompleted              (** line 168, the load of [self.completed] *)
  | WriteCompleted (v : Z)     (** line 168, the store of [v + 1] *)
  | ReadOrig                   (** line 169, the load *)
  | WriteOrig (v : Z)          (** line 169, the store *)
  | ReadWebp                   (** line 170, the load *)
  | WriteWebp (v : Z)          (** line 170, the store *)
  | Percent                    (** line 172 *)
  | EmitProgress (percent : Z) (** line 173 *)
  | Rate                       (** lines 175 and 176 *)
  | Remaining (rate : pynum)   (** lines 177 and 178, and the argument of
                                   line 180 *)
  | EmitEta (text : string)    (** line 180, the emission *)
  | Test                       (** line 182 *)
  | ReadConverted              (** line 184, [self.completed] *)
  | ReadSavedOrig (c : Z)      (** line 185, [self.orig_bytes] *)
  | ReadSavedWebp (c ob : Z).  (** line 185, [self.webp_bytes]; line 183,
                                   the emission *)

(** The program point of a task. *)
Inductive task_pc :=
  | Queued                   (** handed to the pool, [run] not yet entered *)
  | PauseWait                (** in [while ctrl.paused: ctrl.pause_cond.wait()] *)
  | CancelCheck              (** at [if ctrl.cancelled] *)
  | TryBlock                 (** at [try:] *)
  | InFinished (orig webp : Z) (at_pc : tf_pc)
                             (** in [ctrl.task_finished(orig, webp)] *)
  | Exited (k : exit_kind).

Record ConvertTask := mkTask { img_path : string; pc : task_pc }.

Definition set_completed (v : Z) : Method unit := fun self =>
  (Ok tt,
   mkJobController (files self) (output_dir self) (quality self)
     (keep_metadata self) (delete_originals self) (total self)
     v (orig_bytes self) (webp_bytes self)
     (start_time self) (cancelled self) (paused self) (emitted self)).

Definition set_orig_bytes (v : Z) : Method unit := fun self =>
  (Ok tt,
   mkJobController (files self) (output_dir self) (quality self)
     (keep_metadata self) (delete_originals self) (total self)
     (completed self) v (webp_bytes self)
     (start_time self) (cancelled self) (paused self) (emitted self)).

Definition set_webp_bytes (v : Z) : Method unit := fun self =>
  (Ok tt,
   mkJobController (files self) (output_dir self) (quality self)
     (keep_metadata self) (delete_originals self) (total self)
     (completed self) (orig_bytes self) v
     (start_time self) (cancelled self) (paused self) (emitted self)).

(** One move inside [task_finished(orig, webp)]: the next program point,
    or [None] when the call returns. *)
Definition tf_step (now : float) (orig webp : Z) (at_pc : tf_pc)
  : Method (option tf_pc) :=
  match at_pc with
  | ReadCompleted =>
      self ← get_self; mret (Some (WriteCompleted (completed self)))
  | WriteCompleted v => set_completed (v + 1);; mret (Some ReadOrig)
  | ReadOrig =>
      self ← get_self; mret (Some (WriteOrig (orig_bytes self)))
  | WriteOrig v => set_orig_bytes (v + orig);; mret (Some ReadWebp)
  | ReadWebp =>
      self ← get_self; mret (Some (WriteWebp (webp_bytes self)))
  | WriteWebp v => set_webp_bytes (v + webp);; mret (Some Percent)
  | Percent =>
      self ← get_self;
      percent ← lift (percent_of (completed self) (total self));
      mret (Some (EmitProgress percent))
  | EmitProgress percent => emit (Progress percent);; mret (Some Rate)
  | Rate =>
      self ← get_self;
      let elapsed := PyFloat.sub now (start_time self) in
      rate ← lift (rate_of (completed self) elapsed);
      mret (Some (Remaining rate))
  | Remaining rate =>
      self ← get_self;
      let remaining := total self - completed self in
      eta_v ← lift (eta_value remaining rate);
      text ← lift (format_eta eta_v);
      mret (Some (EmitEta text))
  | EmitEta text => emit (Eta text);; mret (Some Test)
  | Test =>
      self ← get_self;
      mret (if completed self =? total self then Some ReadConverted else None)
  | ReadConverted =>
      self ← get_self; mret (Some (ReadSavedOrig (completed self)))
  | ReadSavedOrig c =>
      self ← get_self; mret (Some (ReadSavedWebp c (orig_bytes self)))
  | ReadSavedWebp c ob =>
      self ← get_self;
      emit (Finished c (ob - webp_bytes self));;
      mret None
  end.

(** [os.path.getsize] never answers a negative size. *)
Definition env_ok (env : Env) : bool :=
  match src_size env with Ok n => 0 <=? n | Raise _ => true end.

(** The message of the [except] handler of [run]. *)
Definition error_message (img_path : string) (e : exn) : string :=
  basename img_path +:+ " → " +:+ exn_str e.

(** One move of the worker that runs task [t], from its program point to
    the next.  [None]: the worker cannot move (it is blocked in [wait()],
    or [run] has returned).  The stages before [task_finished] are one
    move: they read only attributes that never change. *)
Definition run_step (env : Env) (t : ConvertTask) (self : JobController)
  : option (ConvertTask * JobController) :=
  match pc t with
  | Queued => Some (mkTask (img_path t) PauseWait, self)
  | PauseWait =>
      if paused self then None
      else Some (mkTask (img_path t) CancelCheck, self)
  | CancelCheck =>
      if cancelled self then Some (mkTask (img_path t) (Exited Aborted), self)
      else Some (mkTask (img_path t) TryBlock, self)
  | TryBlock =>
      if env_ok env then
        match convert env (img_path t) self with
        | (Ok sizes, self') =>
            Some (mkTask (img_path t) (InFinished sizes.1 sizes.2 ReadCompleted),
                  self')
        | (Raise e, self') =>
            Some (mkTask (img_path t) (Exited (Failed false)),
                  (task_error (error_message (img_path t) e) self').2)
        end
      else None
  | InFinished orig webp at_pc =>
      match tf_step (monotonic env) orig webp at_pc self with
      | (Ok (Some next), self') =>
          Some (mkTask (img_path t) (InFinished orig webp next), self')
      | (Ok None, self') =>
          Some (mkTask (img_path t) (Exited Completed), self')
      | (Raise e, self') =>
          Some (mkTask (img_path t) (Exited (Failed true)),
                (task_error (error_message (img_path t) e) self').2)
      end
  | Exited _ => None
  end.

(** The moves of one task run in a row until [run] returns, [fuel] moves
    at most. *)
Fixpoint finish_run (fuel : nat) (env : Env) (t : ConvertTask)
    (self : JobController) : option (ConvertTask * JobController) :=
  match fuel with
  | O => None
  | S fuel' =>
      '(t', self') ← run_step env t self;
      match pc t' with
      | Exited _ => Some (t', self')
      | _ => finish_run fuel' env t' self'
      end
  end.

(** *** Calls that do not overlap

    What a task does from [try:] on when no other thread runs meanwhile,
    in one move, by the functions [run_try] and [task_finished]. *)
Definition exit_of (env : Env) (p : string) (self : JobController) : exit_kind :=
  match convert env p self with
  | (Raise _, _) => Failed false
  | (Ok sizes, self') =>
      match task_finished (monotonic env) sizes.1 sizes.2 self' with
      | (Ok _, _) => Completed
      | (Raise _, _) => Failed true
      end
  end.

Definition serial_run_step (env : Env) (t : ConvertTask) (self : JobController)
  : option (ConvertTask * JobController) :=
  match pc t with
  | TryBlock =>
      if env_ok env then
        Some (mkTask (img_path t) (Exited (exit_of env (img_path t) self)),
              (run_try env (img_path t) self).2)
      else None
  | InFinished _ _ _ => None
  | _ => run_step env t self
  end.

(** ** The job: controller, pool and caller *)

(** The global [QThreadPool]: the limit given to [setMaxThreadCount] and
    the tasks given to [start], in that order.  The limit does not restrict
    the schedules considered: one with fewer threads is one of them. *)
Record QThreadPool := mkPool {
  maxThreadCount : Z;
  tasks : list ConvertTask
}.

Definition pool_start (pool : QThreadPool) (t : ConvertTask) : QThreadPool :=
  mkPool (maxThreadCount pool) (tasks pool ++ [t]).

(** Where the caller is in [JobController.start]. *)
Inductive start_pc :=
  | NotStarted
  | Dispatching (rest : list string)   (** in the [for] loop, [rest] to go *)
  | Dispatched.

Record World := mkWorld {
  ctrl : JobController;
  pool : QThreadPool;
  start_at : start_pc
}.

(** [JobController.__init__]; [now] is the value of [time.monotonic()]. *)
Definition init (files : list string) (output_dir : string) (quality : Z)
    (keep_metadata delete_originals : bool) (max_workers : Z) (now : float)
  : result World :=
  Ok (mkWorld
        (mkJobController files output_dir quality keep_metadata
           delete_originals (Z.of_nat (length files)) 0 0 0 now false false [])
        (mkPool max_workers [])
        NotStarted).

(** One round of the [for f in self.files] loop of [start]: the test of
    [self.cancelled] and, unless it breaks, the submission of the task. *)
Definition start_iter (w : World) : option World :=
  match start_at w with
  | Dispatching [] => Some (mkWorld (ctrl w) (pool w) Dispatched)
  | Dispatching (f :: rest) =>
      if cancelled (ctrl w)
      then Some (mkWorld (ctrl w) (pool w) Dispatched)
      else Some (mkWorld (ctrl w) (pool_start (pool w) (mkTask f Queued))
                         (Dispatching rest))
  | _ => None
  end.

(** [start()] run without anything happening in between. *)
Fixpoint start_loop (fs : list string) (self : JobController)
    (pool : QThreadPool) : QThreadPool :=
  match fs with
  | [] => pool
  | f :: rest =>
      if cancelled self then pool
      else start_loop rest self (pool_start pool (mkTask f Queued))
  end.

Definition start (w : World) : World :=
  mkWorld (ctrl w) (start_loop (files (ctrl w)) (ctrl w) (pool w)) Dispatched.

(** What can happen next in a job.  [start()] is called once on a
    controller, as [ImageConverter.start] does (lines 324-347), which builds
    a new controller for every job. *)
Inductive action :=
  | CallStart                    (** the caller enters [start()] *)
  | StartIter                    (** one round of the loop of [start()] *)
  | CallPause
  | CallResume
  | CallCancel
  | TaskStep (i : nat) (env : Env).  (** the worker of task [i] moves *)

Definition with_ctrl (w : World) (self : JobController) : World :=
  mkWorld self (pool w) (start_at w).

Definition step (a : action) (w : World) : option World :=
  match a with
  | CallStart =>
      match start_at w with
      | NotStarted => Some (mkWorld (ctrl w) (pool w) (Dispatching (files (ctrl w))))
      | _ => None
      end
  | StartIter => start_iter w
  | CallPause => Some (with_ctrl w (pause (ctrl w)).2)
  | CallResume => Some (with_ctrl w (resume (ctrl w)).2)
  | CallCancel => Some (with_ctrl w (cancel (ctrl w)).2)
  | TaskStep i env =>
      t ← tasks (pool w) !! i;
      '(t', self') ← run_step env t (ctrl w);
      Some (mkWorld self' (mkPool (maxThreadCount (pool w))
                                  (<[i := t']> (tasks (pool w))))
                    (start_at w))
  end.

Fixpoint run_actions (acts : list action) (w : World) : option World :=
  match acts with
  | [] => Some w
  | a :: rest => w' ← step a w; run_actions rest w'
  end.

(** The states a job can be in: those that some schedule reaches from a
    freshly constructed controller. *)
Definition initial (w0 : World) : Prop :=
  exists fl dir q km del mw now, init fl dir q km del mw now = Ok w0.

Definition reachable (w : World) : Prop :=
  exists w0 acts, initial w0 /\ run_actions acts w0 = Some w.

(** The same job when the calls of [task_finished] are serialized: a task
    goes through its [try] statement in one move. *)
Definition serial_step (a : action) (w : World) : option World :=
  match a with
  | CallStart =>
      match start_at w with
      | NotStarted => Some (mkWorld (ctrl w) (pool w) (Dispatching (files (ctrl w))))
      | _ => None
      end
  | StartIter => start_iter w
  | CallPause => Some (with_ctrl w (pause (ctrl w)).2)
  | CallResume => Some (with_ctrl w (resume (ctrl w)).2)
  | CallCancel => Some (with_ctrl w (cancel (ctrl w)).2)
  | TaskStep i env =>
      t ← tasks (pool w) !! i;
      '(t', self') ← serial_run_step env t (ctrl w);
      Some (mkWorld self' (mkPool (maxThreadCount (pool w))
                                  (<[i := t']> (tasks (pool w))))
                    (start_at w))
  end.

Fixpoint serial_run (acts : list action) (w : World) : option World :=
  match acts with
  | [] => Some w
  | a :: rest => w' ← serial_step a w; serial_run rest w'
  end.

Definition serial_reachable (w : World) : Prop :=
  exists w0 acts, initial w0 /\ serial_run acts w0 = Some w.

(** ** Notions used in the statements *)

(** [k] guarded attempts that failed with a [PermissionError], each
    followed by its delay. *)
Definition failed_attempts (path : string) (k : nat) : list io_event :=
  concat (replicate k [OsRemove path; TimeSleep PyFloat.tenth]).

(** The call raises a [PermissionError]. *)
Definition transient (r : result unit) : Prop :=
  exists e, r = Raise e /\ is_PermissionError e = true.

(** The controller after the three [+=] of [task_finished] and the
    emission of [sigs]. *)
Definition counted_with (self : JobController) (orig webp : Z)
    (sigs : list signal) : JobController :=
  mkJobController (files self) (output_dir self) (quality self)
    (keep_metadata self) (delete_originals self) (total self)
    (completed self + 1) (orig_bytes self + orig) (webp_bytes self + webp)
    (start_time self) (cancelled self) (paused self) (emitted self ++ sigs).

(** The controller after the emission of [sigs] and nothing else. *)
Definition emitted_with (self : JobController) (sigs : list signal)
  : JobController :=
  mkJobController (files self) (output_dir self) (quality self)
    (keep_metadata self) (delete_originals self) (total self)
    (completed self) (orig_bytes self) (webp_bytes self)
    (start_time self) (cancelled self) (paused self) (emitted self ++ sigs).

Definition is_finished (s : signal) : bool :=
  match s with Finished _ _ => true | _ => false end.

Definition finished_signals (l : list signal) : list signal :=
  List.filter is_finished l.

(** The signals that a move from [w] to [w'] has added. *)
Definition new_signals (w w' : World) : list signal :=
  drop (length (emitted (ctrl w))) (emitted (ctrl w')).

Definition task_paths (w : World) : list string :=
  img_path <$> tasks (pool w).

(** The tasks in the pool are those that [start] has submitted so far: one
    per input path, in input order. *)
Definition dispatch_ok (w : World) : Prop :=
  match start_at w with
  | NotStarted => tasks (pool w) = []
  | Dispatching rest => files (ctrl w) = task_paths w ++ rest
  | Dispatched => task_paths w `prefix_of` files (ctrl w)
  end.

(** The path that the [try] block writes to. *)
Definition output_path_of (env : Env) (self : JobController) (p : string)
  : string :=
  resolve_name (existing env) self (splitext_root (basename p)).

(** The outcome of the save statement of the [try] block. *)
Definition save_outcome (env : Env) (self : JobController) (p : string)
  : result unit :=
  if keep_metadata self
  then save_with_metadata (image_save env (output_path_of env self p)) p
  else image_save env (output_path_of env self p).

(** *** Dispatch and cancellation *)

(** The task has not yet passed its cancel check. *)
Definition before_checkpoint (k : task_pc) : bool :=
  match k with
  | Queued | PauseWait | CancelCheck => true
  | _ => false
  end.

(** The [try] statement of the task has not been entered and never was:
    nothing was converted and [task_finished] was not called. *)
Definition never_ran (k : task_pc) : bool :=
  match k with
  | Queued | PauseWait | CancelCheck | Exited Aborted => true
  | _ => false
  end.

(** World [w] with task [i] moved to program point [k], nothing else
    touched. *)
Definition move_task (w : World) (i : nat) (t : ConvertTask) (k : task_pc)
  : World :=
  mkWorld (ctrl w)
          (mkPool (maxThreadCount (pool w))
                  (<[i := mkTask (img_path t) k]> (tasks (pool w))))
          (start_at w).

(** The reading of [start()] in which the flag is tested once, before the
    first submission: a job whose flag was clear when [start()] was entered
    ends its dispatch with every input submitted. *)
Definition checked_once_before_dispatch : Prop :=
  forall (w0 w1 w : World) (pre post : list action),
    initial w0 ->
    run_actions pre w0 = Some w1 ->
    cancelled (ctrl w1) = false ->
    run_actions (CallStart :: post) w1 = Some w ->
    start_at w = Dispatched ->
    task_paths w = files (ctrl w).

(** The reading of the specification in which a configuration without
    workers or without inputs is refused when the controller is built. *)
Definition config_error_surfaced : Prop :=
  forall (fl : list string) (dir : string) (q : Z) (km del : bool) (mw : Z)
         (now : float),
    fl = [] \/ mw <= 0 ->
    exists e, init fl dir q km del mw now = Raise e.

(** *** Serialized calls *)

(** A task whose [run] has called [task_finished]. *)
Definition counted (t : ConvertTask) : bool :=
  match pc t with
  | Exited Completed | Exited (Failed true) => true
  | _ => false
  end.

Definition n_counted (l : list ConvertTask) : nat :=
  sum_list_with (fun t => if counted t then 1%nat else 0%nat) l.

(** The [finished] signal that the move of a task into exit kind [k] emits,
    given the controller after the move. *)
Definition finished_by (k : task_pc) (self' : JobController) : list signal :=
  match k with
  | Exited Completed =>
      if completed self' =? total self'
      then [Finished (completed self') (orig_bytes self' - webp_bytes self')]
      else []
  | _ => []
  end.

(** What holds at all times of a job whose calls of [task_finished] are
    serialized. *)
Record serial_inv (w : World) : Prop := mk_serial_inv {
  inv_total : total (ctrl w) = Z.of_nat (length (files (ctrl w)));
  inv_dispatch : dispatch_ok w;
  inv_completed : completed (ctrl w) = Z.of_nat (n_counted (tasks (pool w)));
  inv_finished :
    finished_signals (emitted (ctrl w)) = []
    \/ (finished_signals (emitted (ctrl w))
        = [Finished (completed (ctrl w))
                    (orig_bytes (ctrl w) - webp_bytes (ctrl w))]
        /\ completed (ctrl w) = total (ctrl w))
}.

(** The move [a] is the end of a task whose [task_finished] call runs to
    its end. *)
Definition completes (a : action) (w : World) : bool :=
  match a with
  | TaskStep i env =>
      match tasks (pool w) !! i with
      | Some t =>
          match pc t with
          | TryBlock =>
              env_ok env &&
              match exit_of env (img_path t) (ctrl w) with
              | Completed => true
              | _ => false
              end
          | _ => false
          end
      | None => false
      end
  | _ => false
  end.

(** *** The percentage, as the specification words it *)

(** [floor(completed / total * 100)] on the exact quotient. *)
Definition percent_exact (done all : Z) : Z := (done * 100) / all.

(** ** Scenarios *)

(** Two file systems for [safe_remove]: a file that stays locked, and a
    file that is locked once and then turns out to be missing. *)
Definition always_locked : nat -> string -> result unit :=
  fun _ _ => Raise (Exn PermissionError "[WinError 32] file in use").

Definition locked_then_missing : nat -> string -> result unit :=
  fun k _ =>
    match k with
    | O => Raise (Exn PermissionError "[WinError 32] file in use")
    | _ => Raise (Exn FileNotFoundError "[Errno 2] No such file or directory")
    end.

(** A controller with one input and output directory [out]. *)
Definition demo_ctrl : JobController :=
  mkJobController ["in/photo.png"] "out" 87 false false 1 0 0 0
    (S754_zero false) false false [].

(** A whole number of seconds, as a float. *)
Definition secs (n : Z) : float :=
  binary_normalize PyFloat.prec PyFloat.emax n 0 false.

(** Collaborators that succeed: a source of [orig] bytes, an output of
    [webp] bytes, nothing in the way in the output directory, and the clock
    at [now]. *)
Definition ok_env (orig webp : Z) (now : float) : Env :=
  mkEnv (Ok orig) (Ok tt) ∅ (fun _ => Ok tt) (fun _ => Ok webp)
        (fun _ _ => Ok tt) now.

(** The encoder leaves an empty file. *)
Definition empty_output_env (orig : Z) (now : float) : Env :=
  mkEnv (Ok orig) (Ok tt) ∅ (fun _ => Ok tt) (fun _ => Ok 0)
        (fun _ _ => Ok tt) now.

(** [n] moves in a row of the worker of task [i]. *)
Definition moves (n : nat) (i : nat) (env : Env) : list action :=
  replicate n (TaskStep i env).

(** The moves of a task from the pool to the end of [run], when its
    conversion succeeds and nothing raises: three to reach [try:], one for
    the stages of the conversion, twelve in [task_finished], and three more
    when [finished] is emitted. *)
Definition whole_run (i : nat) (env : Env) : list action := moves 16 i env.
Definition whole_last_run (i : nat) (env : Env) : list action := moves 19 i env.

(** The world that a schedule leads to ([w0] itself when the schedule
    cannot be run). *)
Definition world_after (w0 : World) (acts : list action) : World :=
  default w0 (run_actions acts w0).

Definition serial_world_after (w0 : World) (acts : list action) : World :=
  default w0 (serial_run acts w0).

(** A job of four inputs, two workers, no metadata, no deletion, created
    when the clock shows 100 s. *)
Definition four_files : list string :=
  ["in/a.png"; "in/b.png"; "in/c.png"; "in/d.png"].

Definition four_w0 : World :=
  mkWorld
    (mkJobController four_files "out" 87 false false 4 0 0 0 (secs 100)
       false false [])
    (mkPool 2 [])
    NotStarted.

Definition four_dispatch : list action :=
  CallStart :: replicate 5 StartIter.

(** The collaborators of the four tasks: the sizes of the specification,
    the clock one second further for each. *)
Definition env_a : Env := ok_env 100 50 (secs 101).
Definition env_b : Env := ok_env 200 80 (secs 102).
Definition env_c : Env := ok_env 150 60 (secs 103).
Definition env_d : Env := ok_env 300 100 (secs 104).

(** The four tasks run one after the other. *)
Definition four_in_turn : list action :=
  four_dispatch
  ++ whole_run 0 env_a ++ whole_run 1 env_b ++ whole_run 2 env_c
  ++ whole_last_run 3 env_d.

(** The same, with serialized calls: four moves per task. *)
Definition four_serial : list action :=
  four_dispatch
  ++ moves 4 0 env_a ++ moves 4 1 env_b ++ moves 4 2 env_c ++ moves 4 3 env_d.

Definition four_serial_before_last : list action :=
  four_dispatch
  ++ moves 4 0 env_a ++ moves 4 1 env_b ++ moves 4 2 env_c ++ moves 3 3 env_d.

(** The last two calls of [task_finished] overlap.  Tasks 0 and 1 run in
    turn.  Task 2 executes lines 168 to 170; task 3 executes line 168; task
    2 runs on to the end of its call; task 3 then does the same. *)
Definition four_overlap_head : list action :=
  four_dispatch
  ++ whole_run 0 env_a ++ whole_run 1 env_b
  ++ moves 10 2 env_c        (* to [try:], the conversion, lines 168-170 *)
  ++ moves 6 3 env_d.        (* to [try:], the conversion, line 168 *)

Definition four_overlap : list action :=
  four_overlap_head
  ++ moves 9 2 env_c         (* lines 172-186 *)
  ++ moves 13 3 env_d.       (* lines 169-186 *)

(** Three calls overlap inside line 168.  Task 0 loads [self.completed];
    tasks 1 and 2 each execute line 168; task 0 then stores. *)
Definition lost_update_head : list action :=
  four_dispatch
  ++ moves 5 0 env_a         (* to [try:], the conversion, the load *)
  ++ moves 6 1 env_b         (* ...and the store *)
  ++ moves 6 2 env_c.

Definition lost_update_move : action := TaskStep 0 env_a.

(** ...and the four tasks then run to the end of [run]. *)
Definition lost_update_all : list action :=
  lost_update_head ++ [lost_update_move]
  ++ moves 10 0 env_a ++ moves 10 1 env_b ++ moves 10 2 env_c
  ++ whole_run 3 env_d.

(** The four-input job, paused before its first task starts, cancelled
    while that task waits, then resumed: the task is at its cancel check. *)
Definition cancelled_during_pause : World :=
  world_after four_w0
    (four_dispatch
     ++ [CallPause; TaskStep 0 env_a; CallCancel; CallResume; TaskStep 0 env_a]).

(** The four-input job, cancelled after the first round of the loop of
    [start()]. *)
Definition cancelled_in_dispatch : World :=
  world_after four_w0 [CallStart; StartIter; CallCancel].

(** A job that is given no worker. *)
Definition zero_workers_w0 : World :=
  mkWorld
    (mkJobController ["in/a.png"] "out" 87 false false 1 0 0 0 (secs 100)
       false false [])
    (mkPool 0 [])
    NotStarted.

(** A job of one hundred inputs, and the schedule in which its first [k]
    tasks run in turn, one second apart. *)
Definition hundred_files : list string :=
  (fun i : nat => "in/" +:+ pretty i +:+ ".png") <$> seq 0 100.

Definition hundred_w0 : World :=
  mkWorld
    (mkJobController hundred_files "out" 87 false false 100 0 0 0 (secs 100)
       false false [])
    (mkPool 4 [])
    NotStarted.

Definition hundred_schedule (k : nat) : list action :=
  CallStart :: replicate 101 StartIter
  ++ flat_map (fun i : nat => whole_run i (ok_env 1000 400 (secs (101 + Z.of_nat i))))
              (seq 0 k).

(** What holds at all times of the dispatch of a job. *)
Definition job_inv (w : World) : Prop :=
  total (ctrl w) = Z.of_nat (length (files (ctrl w))) /\ dispatch_ok w.

(* ===================================================================== *)
(** * Part II (continued).  More of the program                          *)
(* ===================================================================== *)

(** ** The deletions of the [try] block

    [convert] with what it does to the source file made visible: the calls
    of [os.remove] and the delays of [safe_remove], in order. *)
Definition convert_io (env : Env) (img_path : string) (self : JobController)
  : list io_event * result (Z * Z) :=
  match src_size env with
  | Raise e => ([], Raise e)
  | Ok orig_size =>
      match image_open env with
      | Raise e => ([], Raise e)
      | Ok _ =>
          let base := splitext_root (basename img_path) in
          let output_path := resolve_name (existing env) self base in
          match (if keep_metadata self
                 then save_with_metadata (image_save env output_path) img_path
                 else image_save env output_path) with
          | Raise e => ([], Raise e)
          | Ok _ =>
              match out_size env output_path with
              | Raise e => ([], Raise e)
              | Ok webp_size =>
                  if webp_size <=? 0
                  then ([], Raise (Exn RuntimeError "Empty WEBP"))
                  else if delete_originals self
                  then
                    let '(tr, r) :=
                      safe_remove (os_remove env) img_path default_retries in
                    (tr, match r with
                         | Ok _ => Ok (orig_size, webp_size)
                         | Raise e => Raise e
                         end)
                  else ([], Ok (orig_size, webp_size))
              end
          end
      end
  end.

Definition is_remove_of (path : string) (ev : io_event) : bool :=
  match ev with
  | OsRemove p => bool_decide (p = path)
  | TimeSleep _ => false
  end.

(** Scenarios: a job that deletes its sources, and one that keeps the
    workflow metadata. *)
Definition deleting_ctrl : JobController :=
  mkJobController ["in/photo.png"] "out" 87 false true 1 0 0 0
    (S754_zero false) false false [].

Definition metadata_ctrl : JobController :=
  mkJobController ["in/scan.JPG"] "out" 87 true true 1 0 0 0
    (S754_zero false) false false [].

(** A source that is not an image. *)
Definition undecodable_env : Env :=
  mkEnv (Ok 12) (Raise (Exn (OtherError "UnidentifiedImageError")
                            "cannot identify image file 'in/notes.txt'"))
        ∅ (fun _ => Ok tt) (fun _ => Ok 400) (fun _ _ => Ok tt)
        (S754_zero false).

Definition locked_once_env : Env :=
  mkEnv (Ok 1000) (Ok tt) ∅ (fun _ => Ok tt) (fun _ => Ok 400)
        (fun k _ => match k with
                    | O => Raise (Exn PermissionError "[WinError 32] file in use")
                    | _ => Ok tt
                    end)
        (S754_zero false).

(** ** Pausing *)

(** A task that has not got past the wait of [run] (lines 40-42). *)
Definition held (t : ConvertTask) : bool :=
  match pc t with
  | Queued | PauseWait => true
  | _ => false
  end.

Definition is_resume (a : action) : bool :=
  match a with CallResume => true | _ => false end.

(** Every task of [w'] that was held in [w], or was not in the pool yet,
    is held in [w']. *)
Definition still_held (w w' : World) : Prop :=
  forall i t', tasks (pool w') !! i = Some t' ->
    (forall t, tasks (pool w) !! i = Some t -> held t = true) ->
    held t' = true.

(** The four-input job, paused when its first task has entered [run]. *)
Definition paused_job : World :=
  world_after four_w0 (CallStart :: StartIter :: StartIter
                       :: [TaskStep 0 env_a; CallPause]).

(** ** The counters when calls of [task_finished] overlap *)

(** The task has executed the store of line 168. *)
Definition stored (t : ConvertTask) : bool :=
  match pc t with
  | InFinished _ _ ReadCompleted | InFinished _ _ (WriteCompleted _) => false
  | InFinished _ _ _ => true
  | Exited Completed | Exited (Failed true) => true
  | _ => false
  end.

Definition n_stored (l : list ConvertTask) : nat :=
  sum_list_with (fun t => if stored t then 1%nat else 0%nat) l.

(** The values that a call in progress holds in its locals: the sizes it
    was given, and what it has loaded and is about to store. *)
Definition pending_ok (n : nat) (t : ConvertTask) : Prop :=
  match pc t with
  | InFinished o wz at_pc =>
      0 <= o /\ 0 < wz
      /\ match at_pc with
         | WriteCompleted v => 0 <= v <= Z.of_nat n
         | WriteOrig v | WriteWebp v => 0 <= v
         | _ => True
         end
  | _ => True
  end.

Definition race_inv (w : World) : Prop :=
  let n := n_stored (tasks (pool w)) in
  0 <= completed (ctrl w) <= Z.of_nat n
  /\ 0 <= orig_bytes (ctrl w)
  /\ 0 <= webp_bytes (ctrl w)
  /\ Forall (pending_ok n) (tasks (pool w)).

(** ** The workflow filter of [save_with_metadata] (lines 142-158) *)

(** What [json.loads] returns: [None], [bool], [int], [float], [str],
    [list], and [dict] with string keys, in insertion order. *)
#[warnings="-register-all"] Inductive json :=
  | JNull
  | JBool (b : bool)
  | JInt (z : Z)
  | JFloat (x : float)
  | JStr (s : string)
  | JList (items : list json)
  | JDict (members : list (string * json)).

Definition type_name (v : json) : string :=
  match v with
  | JNull => "NoneType"
  | JBool _ => "bool"
  | JInt _ => "int"
  | JFloat _ => "float"
  | JStr _ => "str"
  | JList _ => "list"
  | JDict _ => "dict"
  end.

Definition is_dict (v : json) : bool :=
  match v with JDict _ => true | _ => false end.

(** [d[key]] lookup and [d[key] = v] on the members of a [dict]: an
    assignment to a key that is present keeps its place, a new key goes to
    the end. *)
Fixpoint dict_get (members : list (string * json)) (key : string)
  : option json :=
  match members with
  | [] => None
  | (k, v) :: rest => if String.eqb k key then Some v else dict_get rest key
  end.

Fixpoint dict_set (members : list (string * json)) (key : string) (v : json)
  : list (string * json) :=
  match members with
  | [] => [(key, v)]
  | (k, old) :: rest =>
      if String.eqb k key then (k, v) :: rest
      else (k, old) :: dict_set rest key v
  end.

Definition AttributeError (v : json) : exn :=
  Exn (OtherError "AttributeError")
      ("'" +:+ type_name v +:+ "' object has no attribute 'get'").

Definition TypeError (msg : string) : exn := Exn (OtherError "TypeError") msg.

(** [v.get(key, dflt)] *)
Definition py_get (v : json) (key : string) (dflt : json) : result json :=
  match v with
  | JDict members => Ok (default dflt (dict_get members key))
  | _ => Raise (AttributeError v)
  end.

(** The elements that [for n in v] goes through: those of a list, the keys
    of a [dict], the characters of a [str]. *)
Definition py_iter (v : json) : result (list json) :=
  match v with
  | JList items => Ok items
  | JDict members => Ok (JStr <$> members.*1)
  | JStr s =>
      Ok ((fun c => JStr (String c EmptyString))
            <$> String.list_ascii_of_string s)
  | _ => Raise (TypeError ("'" +:+ type_name v +:+ "' object is not iterable"))
  end.

(** [data[key] = v] *)
Definition py_setitem (data : json) (key : string) (v : json) : result json :=
  match data with
  | JDict members => Ok (JDict (dict_set members key v))
  | JList _ =>
      Raise (TypeError "list indices must be integers or slices, not str")
  | _ =>
      Raise (TypeError ("'" +:+ type_name data
                        +:+ "' object does not support item assignment"))
  end.

(** [x == "LoraInfo"] *)
Definition is_LoraInfo (x : json) : bool :=
  match x with
  | JStr s => String.eqb s "LoraInfo"
  | _ => false
  end.

(** [[n for n in items if n.get("type") != "LoraInfo"]], element by
    element: the first element without a [get] ends it. *)
Fixpoint keep_nodes (items : list json) : result (list json) :=
  match items with
  | [] => Ok []
  | n :: rest =>
      ty ← py_get n "type" JNull;
      kept ← keep_nodes rest;
      Ok (if negb (is_LoraInfo ty) then n :: kept else kept)
  end.

(** Lines 148-151: the right-hand side first, then the assignment. *)
Definition strip_lora (data : json) : result json :=
  nodes ← py_get data "nodes" (JList []);
  items ← py_iter nodes;
  kept ← keep_nodes items;
  py_setitem data "nodes" (JList kept).

(** A node that the filter drops. *)
Definition lora_node (n : json) : bool :=
  match n with
  | JDict members => is_LoraInfo (default JNull (dict_get members "type"))
  | _ => false
  end.

(** Tag [0x010e] of EXIF. *)
Definition ImageDescription : Z := 270.

Section Workflow.

(** [json.loads] and [json.dumps]. *)
Variable loads : string -> result json.
Variable dumps : json -> result string.

(** Lines 146-154: [workflow] after the [try] statement, whose handler
    swallows every exception. *)
Definition filter_workflow (workflow : string) : string :=
  match (data ← loads workflow; data' ← strip_lora data; dumps data') with
  | Ok s => s
  | Raise _ => workflow
  end.

(** The EXIF data of the source, [img.getexif()]: tags and their values,
    of which the code writes one, with a [str]. *)
Variable tag_value : Type.
Variable str_value : string -> tag_value.

(** Lines 156-158: the EXIF data handed to the encoder, given those of the
    source and [img.info.get("workflow")]. *)
Definition exif_after (exif : gmap Z tag_value) (info_workflow : option string)
  : gmap Z tag_value :=
  match info_workflow with
  | Some workflow =>
      if negb (String.eqb workflow "") then
        let workflow' := filter_workflow workflow in
        if negb (String.eqb workflow' "")
        then <[ImageDescription := str_value ("Workflow:" +:+ workflow')]> exif
        else exif
      else exif
  | None => exif
  end.

End Workflow.

(** A workflow with two nodes, one of them a [LoraInfo], and a serializer
    that names the types of the nodes it is given. *)
Definition demo_workflow : json :=
  JDict [("version", JInt 1);
         ("nodes", JList [JDict [("id", JInt 1); ("type", JStr "KSampler")];
                          JDict [("id", JInt 2); ("type", JStr "LoraInfo")]])].

Definition broken_workflow : json :=
  JDict [("nodes", JList [JDict [("id", JInt 2); ("type", JStr "LoraInfo")];
                          JInt 7])].

Definition demo_loads (s : string) : result json :=
  if String.eqb s "good" then Ok demo_workflow
  else if String.eqb s "broken" then Ok broken_workflow
  else Raise (Exn ValueError "Expecting value: line 1 column 1 (char 0)").

(** The EXIF data of a source that has a description and names its
    software (tag [0x0131]). *)
Definition demo_exif : gmap Z string :=
  {[ 270 := "a caption"; 305 := "ComfyUI" ]}.

Definition demo_dumps (v : json) : result string :=
  match py_get v "nodes" JNull with
  | Ok (JList items) =>
      Ok (String.concat ","
            ((fun n => match py_get n "type" JNull with
                       | Ok (JStr s) => s
                       | _ => "?"
                       end) <$> items))
  | _ => Ok "?"
  end.

(** ** [ImageConverter] (lines 196-383)

    The window, as far as its slots read and write it: the two attributes
    that [select_files] and [select_output] create, the enabled state of
    the six buttons, the values of the option widgets, and the controllers
    that [start] has created, [self.ctrl] being the last one.  A controller
    that the window no longer refers to is still shared with its tasks in
    the pool, so it is kept.

    Slots run on the thread of the window, one after the other.  A slot
    that opens a dialog ([select_files], [select_output], [done]) writes
    nothing before the dialog is closed, so that a slot run while the
    dialog is open is a slot run before.  The workers move in between. *)

(** [os.path.dirname(p)] *)
Fixpoint rstrip_sep (p : list ascii) : list ascii :=
  match p with
  | [] => []
  | c :: r =>
      match rstrip_sep r with
      | [] => if is_sep c then [] else [c]
      | r' => c :: r'
      end
  end.

(** The part of [p] up to and including its last separator. *)
Fixpoint head_of (p : list ascii) : list ascii :=
  match p with
  | [] => []
  | c :: r =>
      match head_of r with
      | [] => if is_sep c then [c] else []
      | h => c :: h
      end
  end.

Definition dirname (p : string) : string :=
  let head := head_of (String.list_ascii_of_string p) in
  String.string_of_list_ascii
    (if forallb is_sep head then head else rstrip_sep head).

Record ImageConverter := mkUi {
  ui_files : option (list string);     (** [self.files], once it exists *)
  ui_output_dir : option string;       (** [self.output_dir], once it exists *)
  btn_files : bool;
  btn_output : bool;
  btn_start : bool;
  btn_pause : bool;
  btn_resume : bool;
  btn_cancel : bool;
  quality_slider : Z;
  workers : Z;
  ui_keep_metadata : bool;
  ui_delete_originals : bool;
  ctrls : list World;                  (** the last one is [self.ctrl] *)
  (** how many more times than once [pause], [resume] and [cancel] are
      connected to their buttons (lines 320-322) *)
  extra_connections : nat
}.

Definition with_buttons (u : ImageConverter)
    (bf bo bs bp br bc : bool) : ImageConverter :=
  mkUi (ui_files u) (ui_output_dir u) bf bo bs bp br bc
       (quality_slider u) (workers u) (ui_keep_metadata u)
       (ui_delete_originals u) (ctrls u) (extra_connections u).

Definition with_ctrls (u : ImageConverter) (l : list World) : ImageConverter :=
  mkUi (ui_files u) (ui_output_dir u) (btn_files u) (btn_output u)
       (btn_start u) (btn_pause u) (btn_resume u) (btn_cancel u)
       (quality_slider u) (workers u) (ui_keep_metadata u)
       (ui_delete_originals u) l (extra_connections u).

(** [__init__]: [_build_ui], then [_load_settings] with the stored values. *)
Definition ui_init (q wk : Z) (km del : bool) : ImageConverter :=
  mkUi None None true true false false false false q wk km del [] 0.

Definition ready (u : ImageConverter) : bool :=
  match ui_files u, ui_output_dir u with
  | Some (_ :: _), Some d => negb (String.eqb d "")
  | _, _ => false
  end.

Definition update_start_state (u : ImageConverter) : ImageConverter :=
  with_buttons u (btn_files u) (btn_output u) (ready u)
               (btn_pause u) (btn_resume u) (btn_cancel u).

(** [select_files], the dialog having returned [picked]. *)
Definition select_files (picked : list string) (u : ImageConverter)
  : ImageConverter :=
  update_start_state
    (mkUi (Some picked)
          (match picked with
           | first :: _ => Some (dirname first)
           | [] => ui_output_dir u
           end)
          (btn_files u) (btn_output u) (btn_start u) (btn_pause u)
          (btn_resume u) (btn_cancel u) (quality_slider u) (workers u)
          (ui_keep_metadata u) (ui_delete_originals u) (ctrls u)
          (extra_connections u)).

(** [select_output], the dialog having returned [picked] (the empty string
    when it was dismissed). *)
Definition select_output (picked : string) (u : ImageConverter)
  : ImageConverter :=
  let u1 :=
    update_start_state
      (mkUi (ui_files u) (Some picked)
            (btn_files u) (btn_output u) (btn_start u) (btn_pause u)
            (btn_resume u) (btn_cancel u) (quality_slider u) (workers u)
            (ui_keep_metadata u) (ui_delete_originals u) (ctrls u)
            (extra_connections u)) in
  mkUi (ui_files u1) (ui_output_dir u1) (btn_files u1) (btn_output u1)
       (btn_start u1) (btn_pause u1) (btn_resume u1) (btn_cancel u1)
       (quality_slider u1) (workers u1) (ui_keep_metadata u1)
       (ui_delete_originals u1) (ctrls u1) (S (extra_connections u1)).

Definition missing_attribute (name : string) : exn :=
  Exn (OtherError "AttributeError")
      ("'ImageConverter' object has no attribute '" +:+ name +:+ "'").

(** [ImageConverter.start]; [now] is what [time.monotonic()] returns in
    the constructor of the controller. *)
Definition start_slot (now : float) (u : ImageConverter)
  : result ImageConverter :=
  match ui_files u with
  | None => Raise (missing_attribute "files")
  | Some fl =>
      match ui_output_dir u with
      | None => Raise (missing_attribute "output_dir")
      | Some dir =>
          w ← init fl dir (quality_slider u) (ui_keep_metadata u)
                   (ui_delete_originals u) (workers u) now;
          Ok (with_buttons (with_ctrls u (ctrls u ++ [start w]))
                false false false true false true)
      end
  end.

(** A call on [self.ctrl], guarded by [hasattr(self, "ctrl")]. *)
Definition on_ctrl (a : action) (l : list World) : list World :=
  match last l with
  | Some w => <[pred (length l) := default w (step a w)]> l
  | None => l
  end.

Definition cancel_slot (u : ImageConverter) : ImageConverter :=
  match last (ctrls u) with
  | Some _ =>
      update_start_state
        (with_buttons (with_ctrls u (on_ctrl CallCancel (ctrls u)))
           true true (btn_start u) false false false)
  | None => u
  end.

Definition pause_slot (u : ImageConverter) : ImageConverter :=
  match last (ctrls u) with
  | Some _ =>
      with_buttons (with_ctrls u (on_ctrl CallPause (ctrls u)))
        (btn_files u) (btn_output u) (btn_start u) false true (btn_cancel u)
  | None => u
  end.

Definition resume_slot (u : ImageConverter) : ImageConverter :=
  match last (ctrls u) with
  | Some _ =>
      with_buttons (with_ctrls u (on_ctrl CallResume (ctrls u)))
        (btn_files u) (btn_output u) (btn_start u) true false (btn_cancel u)
  | None => u
  end.

(** [done], after its message box. *)
Definition done_slot (u : ImageConverter) : ImageConverter :=
  let u1 := update_start_state
              (with_buttons u (btn_files u) (btn_output u) (btn_start u)
                            false false false) in
  with_buttons u1 true true (btn_start u1) (btn_pause u1) (btn_resume u1)
               (btn_cancel u1).

(** A click runs every connection of the button, in turn. *)
Definition clicked (slot : ImageConverter -> ImageConverter)
    (u : ImageConverter) : ImageConverter :=
  Nat.iter (S (extra_connections u)) slot u.

(** What can happen to the window.  A disabled button is not clicked. *)
Inductive ui_event :=
  | ClickFiles (picked : list string)
  | ClickOutput (picked : string)
  | ClickStart (now : float)
  | ClickPause
  | ClickResume
  | ClickCancel
  | FinishedSignal (k : nat)       (** [finished] of controller [k] reaches [done] *)
  | SetOptions (q wk : Z) (km del : bool)
  | WorkerMove (k i : nat) (env : Env). (** task [i] of controller [k] moves *)

Definition ui_step (ev : ui_event) (u : ImageConverter)
  : option ImageConverter :=
  match ev with
  | ClickFiles picked =>
      if btn_files u then Some (select_files picked u) else None
  | ClickOutput picked =>
      if btn_output u then Some (select_output picked u) else None
  | ClickStart now =>
      if btn_start u then
        match start_slot now u with
        | Ok u' => Some u'
        | Raise _ => None
        end
      else None
  | ClickPause => if btn_pause u then Some (clicked pause_slot u) else None
  | ClickResume => if btn_resume u then Some (clicked resume_slot u) else None
  | ClickCancel => if btn_cancel u then Some (clicked cancel_slot u) else None
  | FinishedSignal k =>
      w ← ctrls u !! k;
      match finished_signals (emitted (ctrl w)) with
      | [] => None
      | _ => Some (done_slot u)
      end
  | SetOptions q wk km del =>
      Some (mkUi (ui_files u) (ui_output_dir u) (btn_files u) (btn_output u)
                 (btn_start u) (btn_pause u) (btn_resume u) (btn_cancel u)
                 q wk km del (ctrls u) (extra_connections u))
  | WorkerMove k i env =>
      w ← ctrls u !! k;
      w' ← step (TaskStep i env) w;
      Some (with_ctrls u (<[k := w']> (ctrls u)))
  end.

Fixpoint ui_run (evs : list ui_event) (u : ImageConverter)
  : option ImageConverter :=
  match evs with
  | [] => Some u
  | ev :: rest => u' ← ui_step ev u; ui_run rest u'
  end.

Definition ui_reachable (u : ImageConverter) : Prop :=
  exists q wk km del evs, ui_run evs (ui_init q wk km del) = Some u.

(** A controller as [ImageConverter.start] leaves it: never without input
    or output directory, with every input submitted. *)
Definition started_ok (w : World) : Prop :=
  files (ctrl w) <> []
  /\ output_dir (ctrl w) <> ""
  /\ total (ctrl w) = Z.of_nat (length (files (ctrl w)))
  /\ task_paths w = files (ctrl w)
  /\ start_at w = Dispatched.

Record ui_inv (u : ImageConverter) : Prop := mk_ui_inv {
  inv_start_ready : btn_start u = true -> ready u = true;
  inv_pause_resume : btn_pause u && btn_resume u = false;
  inv_cancel_on : btn_pause u || btn_resume u = true -> btn_cancel u = true;
  inv_running :
    btn_cancel u = true ->
    btn_files u = false /\ btn_output u = false /\ btn_start u = false
    /\ exists w, last (ctrls u) = Some w
         /\ cancelled (ctrl w) = false
         /\ paused (ctrl w) = btn_resume u;
  inv_started : Forall started_ok (ctrls u)
}.

(** Controller [k] is out of reach of [resume]: the window refers to a
    later one, or to this one with both [Pause] and [Resume] disabled. *)
Definition out_of_reach (u : ImageConverter) (k : nat) : Prop :=
  (S k < length (ctrls u))%nat
  \/ (btn_pause u = false /\ btn_resume u = false).

(** A session: two images picked, the job started, paused when its first
    task has entered [run], then cancelled. *)
Definition demo_session : list ui_event :=
  [ClickFiles ["/in/a.png"; "/in/b.png"]; ClickOutput "/out";
   ClickStart (secs 100); WorkerMove 0 0 env_a; ClickPause; ClickCancel].

(** The same session stopped before the click on [Cancel]: the job runs
    and is paused. *)
Definition paused_session : list ui_event :=
  [ClickFiles ["/in/a.png"; "/in/b.png"]; ClickOutput "/out";
   ClickStart (secs 100); WorkerMove 0 0 env_a; ClickPause].

Definition paused_window : ImageConverter :=
  default (ui_init 87 2 false false)
          (ui_run paused_session (ui_init 87 2 false false)).

Definition demo_window : ImageConverter :=
  default (ui_init 87 2 false false)
          (ui_run demo_session (ui_init 87 2 false false)).

(** ** The flags and a task past its cancel check *)

(** [self] with its two flags set to [c] and [p]. *)
Definition with_flags (self : JobController) (c p : bool) : JobController :=
  mkJobController (files self) (output_dir self) (quality self)
    (keep_metadata self) (delete_originals self) (total self)
    (completed self) (orig_bytes self) (webp_bytes self)
    (start_time self) c p (emitted self).

(** ** Error reports *)

Definition is_error (s : signal) : bool :=
  match s with Error _ => true | _ => false end.

Definition error_signals (l : list signal) : list signal :=
  List.filter is_error l.

(** [run] ended in its [except] handler. *)
Definition failed (t : ConvertTask) : bool :=
  match pc t with
  | Exited (Failed _) => true
  | _ => false
  end.

Definition n_failed (l : list ConvertTask) : nat :=
  sum_list_with (fun t => if failed t then 1%nat else 0%nat) l.

(** Every [error] signal is the report of a task that failed. *)
Definition reported_by_failed (w : World) : Prop :=
  Forall (fun s => forall msg, s = Error msg ->
            exists i t e, tasks (pool w) !! i = Some t
              /\ failed t = true
              /\ msg = error_message (img_path t) e)
         (error_signals (emitted (ctrl w))).

Definition error_inv (w : World) : Prop :=
  length (error_signals (emitted (ctrl w))) = n_failed (tasks (pool w))
  /\ reported_by_failed w.

(** The four-input job in which the encoder leaves an empty file for the
    second input, the first two tasks having run. *)
Definition one_failure : World :=
  world_after four_w0
    (four_dispatch ++ whole_run 0 env_a
     ++ moves 4 1 (empty_output_env 200 (secs 102))).

(** ** Failures inside [task_finished] *)


(** Collaborators that convert the file, with a clock that reads NaN when
    [task_finished] asks for the time. *)
Definition nan_clock_env : Env := ok_env 100 50 S754_nan.

(** ** The range of [time.gmtime]

    How far [time.gmtime] goes depends on the C library; the seconds from 0
    to [2^31 - 1] are accepted everywhere, and the statement about the text
    of the ETA is made for them. *)
Definition portable_time_max : Z := 2 ^ 31 - 1.

(* ===================================================================== *)
(** * Part III.  Properties of the functions                             *)
(* ===================================================================== *)

(** ** [safe_remove] *)

Section SafeRemoveFacts.

Variable os_remove : nat -> string -> result unit.
Variable path : string.

(** The loop, when its first [k] rounds all meet a [PermissionError] and
    there are [n] more rounds to go. *)
Lemma safe_remove_loop_transient (k n j : nat) :
  (forall i, (j <= i < j + k)%nat -> transient (os_remove i path)) ->
  safe_remove_loop os_remove path (k + n) j =
    (failed_attempts path k ++ (safe_remove_loop os_remove path n (j + k)).1,
     (safe_remove_loop os_remove path n (j + k)).2).
Proof.
  revert j. induction k as [|k IH]; intros j Hk.
  - cbn [Nat.add failed_attempts replicate concat app].
    rewrite Nat.add_0_r. by destruct (safe_remove_loop _ _ _ _).
  - destruct (Hk j) as (e & He & Hperm); [lia|].
    cbn [Nat.add safe_remove_loop]. rewrite He, Hperm.
    rewrite IH by (intros i Hi; apply Hk; lia).
    replace (S j + k)%nat with (j + S k)%nat by lia.
    reflexivity.
Qed.

(** C8.  When the first [k] calls of [os.remove] raise a [PermissionError]
    and either [k] is the whole retry budget or call [k] succeeds,
    [safe_remove] makes exactly [k] guarded attempts that fail, each followed
    by the 0.1 s delay, then one more call of [os.remove], and ends as that
    call ends.  With [k] the budget ([Z.to_nat retries]) that call is the
    final, unguarded one: whatever it raises propagates.  With [k] below the
    budget it is the guarded attempt that succeeds: the function returns at
    once, with no further attempt. *)
Theorem safe_remove_retry_budget (retries : Z) (k : nat) :
  (k <= Z.to_nat retries)%nat ->
  (forall i, (i < k)%nat -> transient (os_remove i path)) ->
  ((k < Z.to_nat retries)%nat -> os_remove k path = Ok tt) ->
  safe_remove os_remove path retries =
    (failed_attempts path k ++ [OsRemove path], os_remove k path).
Proof.
  intros Hle Hfail Hok. unfold safe_remove.
  replace (Z.to_nat retries) with (k + (Z.to_nat retries - k))%nat at 1 by lia.
  rewrite safe_remove_loop_transient by (intros i Hi; apply Hfail; lia).
  cbn [Nat.add].
  destruct (decide (k < Z.to_nat retries)%nat) as [Hlt|Hge].
  - destruct (Z.to_nat retries - k)%nat as [|m] eqn:Hm; [lia|].
    cbn [safe_remove_loop]. rewrite (Hok Hlt). reflexivity.
  - replace (Z.to_nat retries - k)%nat with 0%nat by lia.
    cbn [safe_remove_loop fst snd]. rewrite app_nil_r.
    replace (Z.to_nat retries) with k by lia. reflexivity.
Qed.

(** C10.  Only [PermissionError] is retried.  When guarded attempt [k]
    raises an exception of another class (the attempts before it having
    failed with [PermissionError]), that exception leaves [safe_remove] from
    that attempt: the call of [os.remove] that raised it is the last event,
    with no delay and no further attempt after it. *)
Theorem safe_remove_other_error (retries : Z) (k : nat) (e : exn) :
  (k < Z.to_nat retries)%nat ->
  (forall i, (i < k)%nat -> transient (os_remove i path)) ->
  os_remove k path = Raise e ->
  is_PermissionError e = false ->
  safe_remove os_remove path retries =
    (failed_attempts path k ++ [OsRemove path], Raise e).
Proof.
  intros Hlt Hfail He Hcls. unfold safe_remove.
  replace (Z.to_nat retries) with (k + (Z.to_nat retries - k))%nat at 1 by lia.
  rewrite safe_remove_loop_transient by (intros i Hi; apply Hfail; lia).
  cbn [Nat.add].
  destruct (Z.to_nat retries - k)%nat as [|m] eqn:Hm; [lia|].
  cbn [safe_remove_loop]. rewrite He, Hcls. reflexivity.
Qed.

End SafeRemoveFacts.

Lemma safe_remove_retry_budget_witness :
  safe_remove always_locked "a.png" 3 =
    ([OsRemove "a.png"; TimeSleep PyFloat.tenth;
      OsRemove "a.png"; TimeSleep PyFloat.tenth;
      OsRemove "a.png"; TimeSleep PyFloat.tenth;
      OsRemove "a.png"],
     Raise (Exn PermissionError "[WinError 32] file in use")).
Proof.
  apply (safe_remove_retry_budget always_locked "a.png" 3 3).
  - simpl. lia.
  - intros i _. eexists. split; reflexivity.
  - simpl. lia.
Defined.

Lemma safe_remove_other_error_witness :
  safe_remove locked_then_missing "a.png" 3 =
    ([OsRemove "a.png"; TimeSleep PyFloat.tenth; OsRemove "a.png"],
     Raise (Exn FileNotFoundError "[Errno 2] No such file or directory")).
Proof.
  apply (safe_remove_other_error locked_then_missing "a.png" 3 1).
  - simpl. lia.
  - intros i Hi. assert (i = 0%nat) as -> by lia. eexists. split; reflexivity.
  - reflexivity.
  - reflexivity.
Defined.

(** ** [resolve_name] *)

Lemma string_app_inv_tail (s1 s2 t : string) :
  s1 +:+ t = s2 +:+ t -> s1 = s2.
Proof.
  assert (Hlen : forall a b, String.length (a +:+ b)
                 = (String.length a + String.length b)%nat).
  { intros a b. induction a as [|c a IH]; simpl; [done|]. by rewrite IH. }
  revert s2. induction s1 as [|c s1 IH]; intros [|d s2] Heq; simpl in *.
  - done.
  - apply (f_equal String.length) in Heq.
    rewrite ?Hlen in Heq. simpl in Heq. rewrite ?Hlen in Heq. lia.
  - apply (f_equal String.length) in Heq.
    rewrite ?Hlen in Heq. simpl in Heq. rewrite ?Hlen in Heq. lia.
  - injection Heq as -> Heq. f_equal. by apply IH.
Qed.

Lemma candidate_name_inj (base : string) (i j : nat) :
  candidate_name base i = candidate_name base j -> i = j.
Proof.
  destruct i as [|i], j as [|j]; unfold candidate_name; intros Heq.
  - done.
  - apply (inj (String.app base)) in Heq. discriminate Heq.
  - apply (inj (String.app base)) in Heq. discriminate Heq.
  - apply (inj (String.app base)) in Heq.
    apply (inj (String.app "_")) in Heq.
    apply string_app_inv_tail in Heq.
    by apply (inj pretty) in Heq.
Qed.

Lemma candidate_name_starts (base : string) (i : nat) :
  starts_with_sep (candidate_name base i) = starts_with_sep base.
Proof. by destruct base, i. Qed.

Lemma candidate_inj (dir base : string) (i j : nat) :
  candidate dir base i = candidate dir base j -> i = j.
Proof.
  unfold candidate, path_join. rewrite !candidate_name_starts.
  destruct (starts_with_sep base).
  - apply candidate_name_inj.
  - destruct (bool_decide (dir = "") || ends_with_sep dir); intros Heq.
    + apply (inj (String.app dir)) in Heq. by apply candidate_name_inj in Heq.
    + apply (inj (String.app dir)) in Heq.
      apply (inj (String.app "/")) in Heq. by apply candidate_name_inj in Heq.
Qed.

(** No more candidates can exist than there are existing paths. *)
Lemma candidates_bounded (fs : gset string) (dir base : string) (n : nat) :
  (forall j, (j < n)%nat -> candidate dir base j ∈ fs) -> (n <= size fs)%nat.
Proof.
  intros Hin.
  set (l := candidate dir base <$> seq 0 n).
  assert (Hnd : NoDup l).
  { apply NoDup_fmap_2_strong; [|apply NoDup_seq].
    intros i j _ _. apply candidate_inj. }
  assert (Hsub : list_to_set (C := gset string) l ⊆ fs).
  { intros p Hp. apply elem_of_list_to_set, list_elem_of_fmap in Hp.
    destruct Hp as (j & -> & Hj). apply elem_of_seq in Hj. apply Hin. lia. }
  apply subseteq_size in Hsub.
  rewrite size_list_to_set in Hsub by done.
  unfold l in Hsub. by rewrite length_fmap, length_seq in Hsub.
Qed.

(** The loop, entered with the candidate of rank [i]: it returns the first
    candidate of rank at least [i] that does not exist. *)
Lemma resolve_name_loop_spec (fs : gset string) (dir base : string)
    (fuel i : nat) :
  (forall j, (j < i)%nat -> candidate dir base j ∈ fs) ->
  (size fs < i + fuel)%nat ->
  exists k, (i <= k)%nat
    /\ resolve_name_loop fuel fs dir base (candidate dir base i) (S i)
       = Some (candidate dir base k)
    /\ (candidate dir base k ∉ fs)
    /\ forall j, (j < k)%nat -> candidate dir base j ∈ fs.
Proof.
  revert i. induction fuel as [|fuel IH]; intros i Hbelow Hfuel.
  - apply candidates_bounded in Hbelow. lia.
  - cbn [resolve_name_loop]. unfold os_path_exists.
    destruct (bool_decide_reflect (candidate dir base i ∈ fs)) as [Hin|Hout].
    + destruct (IH (S i)) as (k & Hk & Hres & Hfree & Hall).
      * intros j Hj. destruct (decide (j = i)) as [->|]; [done|].
        apply Hbelow. lia.
      * lia.
      * exists k. split; [lia|]. split; [exact Hres|]. by split.
    + exists i. by repeat split.
Qed.

(** The fuel given by [resolve_name_fuel] is never used up. *)
Lemma resolve_name_fuel_enough (fs : gset string) (self : JobController)
    (base : string) :
  is_Some (resolve_name_opt fs self base).
Proof.
  destruct (resolve_name_loop_spec fs (output_dir self) base
              (resolve_name_fuel fs) 0) as (k & _ & Hres & _).
  - intros j Hj. lia.
  - unfold resolve_name_fuel. lia.
  - unfold resolve_name_opt. change (path_join _ (base +:+ ".webp")) with
      (candidate (output_dir self) base 0). rewrite Hres. by eexists.
Qed.

(** C7.  [resolve_name] tries [base.webp], [base_1.webp], [base_2.webp], ...
    in this order and returns the first of these paths that does not exist:
    the loop ends (its result is [Some] path), the path returned is the
    candidate of some rank [k], it does not exist, and every candidate of
    lower rank exists. *)
Theorem resolve_name_first_free (fs : gset string) (self : JobController)
    (base : string) :
  exists k,
    resolve_name_opt fs self base = Some (candidate (output_dir self) base k)
    /\ resolve_name fs self base = candidate (output_dir self) base k
    /\ (candidate (output_dir self) base k ∉ fs)
    /\ (forall j, (j < k)%nat -> candidate (output_dir self) base j ∈ fs)
    /\ candidate (output_dir self) base 0
       = path_join (output_dir self) (base +:+ ".webp")
    /\ (forall j, (0 < j)%nat -> candidate (output_dir self) base j
       = path_join (output_dir self) (base +:+ "_" +:+ pretty j +:+ ".webp")).
Proof.
  destruct (resolve_name_loop_spec fs (output_dir self) base
              (resolve_name_fuel fs) 0) as (k & _ & Hres & Hfree & Hall).
  - intros j Hj. lia.
  - unfold resolve_name_fuel. lia.
  - exists k.
    assert (Hopt : resolve_name_opt fs self base
                   = Some (candidate (output_dir self) base k)) by exact Hres.
    split; [exact Hopt|]. split; [by unfold resolve_name; rewrite Hopt|].
    split; [exact Hfree|]. split; [exact Hall|]. split; [done|].
    intros [|j] Hj; [lia|done].
Qed.

(** The scenarios of the specification, in the output directory [out]. *)
Example resolve_name_photo_free :
  resolve_name ∅ demo_ctrl "photo" = "out/photo.webp".
Proof. vm_compute. reflexivity. Qed.

Example resolve_name_photo_1 :
  resolve_name {[ "out/photo.webp" ]} demo_ctrl "photo" = "out/photo_1.webp"
  /\ endswith "out/photo_1.webp" "photo_1.webp" = true.
Proof. vm_compute. split; reflexivity. Qed.

Example resolve_name_photo_2 :
  resolve_name {[ "out/photo.webp"; "out/photo_1.webp" ]} demo_ctrl "photo"
  = "out/photo_2.webp".
Proof. vm_compute. reflexivity. Qed.

(** ** [task_finished] *)

Ltac unfold_method :=
  unfold mbind, mret, Method_bind, Method_ret, lift, raise, get_self,
    try_except, task_error, emit, count_task in *.

(** What a call of [task_finished] leaves behind: the counters are updated
    whether it returns or raises, and the signals emitted are a prefix of
    [progress], [eta], [finished], the last one being emitted only when the
    call runs to its end with [completed = total]. *)
Lemma task_finished_cases (now : float) (orig webp : Z) (self : JobController) :
  let r := task_finished now orig webp self in
  let c := completed self + 1 in
  (exists e, r = (Raise e, counted_with self orig webp []))
  \/ (exists e p, r = (Raise e, counted_with self orig webp [Progress p]))
  \/ (exists p t, c <> total self
        /\ r = (Ok tt, counted_with self orig webp [Progress p; Eta t]))
  \/ (exists p t, c = total self
        /\ r = (Ok tt, counted_with self orig webp
                  [Progress p; Eta t;
                   Finished c (orig_bytes self + orig - (webp_bytes self + webp))])).
Proof.
  intros r c. subst r c. unfold task_finished. unfold_method. cbn.
  destruct (percent_of _ _) as [p|e]; cbn.
  2:{ left. exists e. unfold counted_with. by rewrite app_nil_r. }
  destruct (eta_of _ _ _) as [v|e]; cbn.
  2:{ right. left. by exists e, p. }
  destruct (format_eta v) as [t|e]; cbn.
  2:{ right. left. by exists e, p. }
  destruct (Z.eqb_spec (completed self + 1) (total self)) as [Heq|Hne]; cbn.
  - right. right. right. exists p, t. split; [done|].
    unfold counted_with. cbn. by rewrite <- !app_assoc.
  - right. right. left. exists p, t. split; [done|].
    unfold counted_with. cbn. by rewrite <- !app_assoc.
Qed.

(** ** [ConvertTask.run] *)

(** The stages before the report read the controller and leave it as it
    is. *)
Lemma convert_pure (env : Env) (p : string) (self : JobController) :
  (convert env p self).2 = self.
Proof.
  unfold convert. unfold_method. cbn.
  destruct (src_size env); cbn; [|done].
  destruct (image_open env); cbn; [|done].
  destruct (if keep_metadata self then _ else _); cbn; [|done].
  destruct (out_size env _) as [n|]; cbn; [|done].
  destruct (n <=? 0); cbn; [done|].
  destruct (delete_originals self); cbn; [|done].
  by destruct (safe_remove _ _ _).2.
Qed.

(** The sizes that reach [task_finished]: the size of the source as
    [os.path.getsize] gave it, and a positive output size. *)
Lemma convert_sizes (env : Env) (p : string) (self : JobController)
    (o wz : Z) :
  (convert env p self).1 = Ok (o, wz) -> src_size env = Ok o /\ 0 < wz.
Proof.
  unfold convert. unfold_method. cbn.
  destruct (src_size env) as [o'|]; cbn; [|done].
  destruct (image_open env); cbn; [|done].
  destruct (if keep_metadata self then _ else _); cbn; [|done].
  destruct (out_size env _) as [n|]; cbn; [|done].
  destruct (Z.leb_spec n 0); cbn; [done|].
  destruct (delete_originals self); cbn.
  - destruct (safe_remove _ _ _).2; cbn; [|done].
    intros [= -> ->]. split; [done|lia].
  - intros [= -> ->]. split; [done|lia].
Qed.

(** The [try] statement, by what its block did. *)
Lemma run_try_cases (env : Env) (p : string) (self : JobController) :
  match (convert env p self).1 with
  | Raise e =>
      run_try env p self = (Ok tt, emitted_with self [Error (error_message p e)])
  | Ok sizes =>
      match task_finished (monotonic env) sizes.1 sizes.2 self with
      | (Ok _, self') => run_try env p self = (Ok tt, self')
      | (Raise e, self') =>
          run_try env p self
          = (Ok tt, emitted_with self' [Error (error_message p e)])
      end
  end.
Proof.
  pose proof (convert_pure env p self) as Hpure.
  unfold run_try, try_block. unfold_method.
  destruct (convert env p self) as [[sizes|e] self0]; cbn in *; subst self0.
  - destruct (task_finished _ _ _ self) as [[[]|e] self']; reflexivity.
  - reflexivity.
Qed.


(** ** Failure isolation *)






Example failure_after_count_signals :
  (run_try nan_clock_env "in/photo.png" demo_ctrl).1 = Ok tt
  /\ completed (run_try nan_clock_env "in/photo.png" demo_ctrl).2 = 1
  /\ emitted (run_try nan_clock_env "in/photo.png" demo_ctrl).2
     = [Progress 100;
        Error "photo.png → Invalid value NaN (not a number)"].
Proof. vm_compute. by repeat split. Qed.




(** ** Binary64 rounding

    Facts about the arithmetic of [task_finished], proved from the
    definitions of [SpecFloat]: rounding never yields NaN, a difference of
    finite clock readings is a number, an [int] below [2^53] converts
    exactly, and [t / t] is 1.0. *)

Section Rounding.

Import PyFloat.

Lemma iter_pos_invariant {A : Type} (P : A -> Prop) (f : A -> A) :
  (forall x, P x -> P (f x)) ->
  forall (n : positive) (x : A), P x -> P (iter_pos f n x).
Proof.
  intros Hf. induction n as [n IH|n IH|]; intros x Hx; cbn; auto.
Qed.

Lemma shr_1_nonneg (mrs : shr_record) :
  0 <= shr_m mrs -> 0 <= shr_m (shr_1 mrs).
Proof.
  destruct mrs as [m r s]. destruct m as [|p|p]; cbn; try lia;
    destruct p; cbn; lia.
Qed.

Lemma shr_fexp_nonneg (m e : Z) (l : location) :
  0 <= m -> 0 <= shr_m (shr_fexp prec emax m e l).1.
Proof.
  intros Hm. unfold shr_fexp, shr.
  assert (H0 : 0 <= shr_m (shr_record_of_loc m l))
    by (by destruct l as [|[| |]]).
  destruct (_ - e) as [|n|n]; cbn; try done.
  apply (iter_pos_invariant (fun mrs => 0 <= shr_m mrs));
    [apply shr_1_nonneg|exact H0].
Qed.

Lemma round_nearest_even_nonneg (m : Z) (l : location) :
  0 <= m -> 0 <= round_nearest_even m l.
Proof.
  intros Hm. destruct l as [|[| |]]; cbn; try lia.
  destruct (Z.even m); lia.
Qed.

(** Rounding a non-negative mantissa never yields NaN. *)
Lemma binary_round_aux_not_nan (s : bool) (m e : Z) (l : location) :
  0 <= m -> is_nan (binary_round_aux prec emax s m e l) = false.
Proof.
  intros Hm. unfold binary_round_aux.
  pose proof (shr_fexp_nonneg m e l Hm) as H1.
  destruct (shr_fexp prec emax m e l) as [mrs' e']. cbn [fst] in H1.
  pose proof (shr_fexp_nonneg
                (round_nearest_even (shr_m mrs') (loc_of_shr_record mrs')) e'
                loc_Exact (round_nearest_even_nonneg _ _ H1)) as H2.
  destruct (shr_fexp prec emax _ e' loc_Exact) as [mrs'' e''].
  cbn [fst] in H2.
  destruct (shr_m mrs'') as [|p|p]; [done| |lia].
  by destruct (e'' <=? emax - prec).
Qed.

Lemma binary_normalize_not_nan (z e : Z) (s : bool) :
  is_nan (binary_normalize prec emax z e s) = false.
Proof.
  destruct z as [|p|p]; cbn; [done| |].
  - unfold binary_round. destruct (shl_align _ _ _) as [mz ez].
    by apply binary_round_aux_not_nan.
  - unfold binary_round. destruct (shl_align _ _ _) as [mz ez].
    by apply binary_round_aux_not_nan.
Qed.

(** The difference of two finite readings of the clock is a number. *)
Lemma sub_finite_not_nan (x y : float) :
  is_finite x = true -> is_finite y = true -> is_nan (sub x y) = false.
Proof.
  destruct x as [sx|sx| |sx mx ex], y as [sy|sy| |sy my ey]; try done;
    intros _ _; unfold sub, SFsub.
  - by destruct sx, sy.
  - apply binary_normalize_not_nan.
Qed.

(** A finite dividend and a divisor that is neither zero nor NaN. *)
Lemma div_finite_not_nan (sx : bool) (mx : positive) (ex : Z) (y : float) :
  is_nan y = false ->
  is_nan (SFdiv prec emax (S754_finite sx mx ex) y) = false.
Proof.
  destruct y as [sy|sy| |sy my ey]; try done. intros _. unfold SFdiv.
  assert (Hq : forall a, 0 <= a -> 0 <= (Z.div_eucl a (Z.pos my)).1).
  { intros a Ha. pose proof (Z.div_pos a (Z.pos my) Ha ltac:(lia)) as Hd.
    unfold Z.div in Hd. by destruct (Z.div_eucl a (Z.pos my)). }
  unfold SFdiv_core_binary.
  set (s := _ - _ - Z.min _ _).
  set (m' := match s with Z.pos _ => _ | 0 => _ | Z.neg _ => _ end).
  assert (Hm' : 0 <= m').
  { subst m'. destruct s; [lia| |lia]. apply Z.shiftl_nonneg. lia. }
  specialize (Hq m' Hm').
  destruct (Z.div_eucl m' (Z.pos my)) as [q r]. cbn [fst] in Hq.
  by apply binary_round_aux_not_nan.
Qed.

Lemma digits2_pos_shift (m k : positive) :
  digits2_pos (Pos.iter xO m k) = (digits2_pos m + k)%positive.
Proof.
  induction k as [|k IH] using Pos.peano_ind.
  - cbn. lia.
  - rewrite Pos.iter_succ. cbn. rewrite IH. lia.
Qed.

Lemma digits2_pos_bound (m : positive) (n : Z) :
  0 <= n -> Z.pos m < 2 ^ n -> Z.pos (digits2_pos m) <= n.
Proof.
  revert n. induction m as [m IH|m IH|]; intros n Hn Hm; cbn.
  - assert (1 <= n) by (destruct (decide (n = 0)) as [->|]; [cbn in Hm|]; lia).
    specialize (IH (n - 1) ltac:(lia)).
    replace n with (Z.succ (n - 1)) in Hm by lia.
    rewrite Z.pow_succ_r in Hm by lia. lia.
  - assert (1 <= n) by (destruct (decide (n = 0)) as [->|]; [cbn in Hm|]; lia).
    specialize (IH (n - 1) ltac:(lia)).
    replace n with (Z.succ (n - 1)) in Hm by lia.
    rewrite Z.pow_succ_r in Hm by lia. lia.
  - destruct (decide (n = 0)) as [->|]; [cbn in Hm|]; lia.
Qed.

(** An [int] below [2^53] converts to a finite float without rounding. *)
Lemma of_int_small (t : Z) :
  0 < t < 2 ^ 53 ->
  exists (m : positive) (e : Z), of_int t = Ok (S754_finite false m e).
Proof.
  intros [Hpos Hlt]. destruct t as [|p|p]; try lia.
  pose proof (digits2_pos_bound p 53 ltac:(lia) Hlt) as Hd.
  unfold of_int, binary_normalize, binary_round.
  assert (Hfexp : fexp prec emax (Z.pos (digits2_pos p) + 0)
                  = Z.pos (digits2_pos p) - 53).
  { unfold fexp, emin, prec, emax. lia. }
  rewrite Hfexp. unfold shl_align.
  assert (Haux : forall (mz : positive) (ez : Z),
            Z.pos (digits2_pos mz) = 53 -> -52 <= ez <= 0 ->
            binary_round_aux prec emax false (Z.pos mz) ez loc_Exact
            = S754_finite false mz ez).
  { intros mz ez Hmz Hez. unfold binary_round_aux, shr_fexp.
    cbn [Zdigits2 shr_record_of_loc]. rewrite Hmz.
    assert (Hf : fexp prec emax (53 + ez) - ez = 0)
      by (unfold fexp, emin, prec, emax; lia).
    rewrite Hf. cbn [shr shr_m loc_of_shr_record round_nearest_even Zdigits2].
    rewrite Hmz, Hf. cbn [shr shr_m].
    destruct (Z.leb_spec ez (emax - prec)); [done|].
    unfold emax, prec in *. lia. }
  destruct (Z.pos (digits2_pos p) - 53 - 0) as [|k|k] eqn:Hk.
  - rewrite Haux by lia. eauto.
  - lia.
  - rewrite Haux; [eauto| |lia].
    rewrite digits2_pos_shift. lia.
Qed.

(** [t / t] is exactly 1.0. *)
Lemma int_truediv_self (t : Z) :
  0 < t -> int_truediv t t = Ok (S754_finite false 4503599627370496 (-52)).
Proof.
  intros Hpos. destruct t as [|p|p]; try lia.
  unfold int_truediv. cbn [Z.eqb exact_int]. unfold SFdiv, SFdiv_core_binary.
  cbn [Zdigits2 xorb].
  replace (Z.pos (digits2_pos p) + 0 - (Z.pos (digits2_pos p) + 0)) with 0
    by lia.
  change (Z.min (fexp prec emax 0) (0 - 0)) with (-53).
  change (0 - 0 - -53) with 53.
  cbv match.
  assert (Hdiv : Z.div_eucl (Z.shiftl (Z.pos p) 53) (Z.pos p) = (2 ^ 53, 0)).
  { pose proof (Z_div_mod (Z.shiftl (Z.pos p) 53) (Z.pos p) ltac:(lia)) as H.
    destruct (Z.div_eucl _ _) as [q r]. destruct H as [Heq Hr].
    rewrite Z.shiftl_mul_pow2 in Heq by lia.
    assert (q = 2 ^ 53) by nia. subst q. f_equal. lia. }
  rewrite Hdiv. unfold new_location.
  by destruct (Z.even (Z.pos p)).
Qed.

End Rounding.

(** ** Progress and ETA *)

(** With nothing completed the ETA reads [00:00:00], whatever the elapsed
    time: the rate is zero and no division by it takes place. *)
Lemma eta_nothing_completed (all : Z) (elapsed : float) :
  PyFloat.is_nan elapsed = false ->
  (v ← eta_of all 0 elapsed; format_eta v) = Ok "00:00:00"%string.
Proof.
  destruct elapsed as [s|s| |s m e]; intros Hnan; try discriminate Hnan.
  - reflexivity.
  - destruct s; reflexivity.
  - destruct s; reflexivity.
Qed.

(** Ten tasks, five done after ten seconds: half a task per second, five
    to go, ten seconds left. *)
Example eta_five_of_ten :
  rate_of 5 (secs 10) = Ok (PyFloat (S754_finite false 4503599627370496 (-53)))
  /\ eta_of 10 5 (secs 10) = Ok (PyFloat (secs 10))
  /\ (v ← eta_of 10 5 (secs 10); format_eta v) = Ok "00:00:10"%string.
Proof. vm_compute. repeat split. Qed.

(** The hours of the ETA are those of a time of day: they start again at
    24. *)
Example eta_wraps_at_one_day :
  (v ← eta_of 100000 1 (secs 1); format_eta v) = Ok "03:46:39"%string.
Proof. vm_compute. reflexivity. Qed.

(** The percentages that the code computes for a job of one hundred inputs
    differ from the exact ones at 29, 57 and 58 completed tasks, and only
    there. *)
Example percent_of_hundred :
  List.filter (fun c => match percent_of c 100 with
                        | Ok p => negb (p =? percent_exact c 100)
                        | Raise _ => true
                        end)
              (Z.of_nat <$> seq 1 100)
  = [29; 57; 58].
Proof. vm_compute. reflexivity. Qed.

(** C3.  The progress value is not always [floor(completed / total * 100)].
    The quotient and the product are rounded to binary64 before [int]
    truncates: 29/100 rounds to a double just below 0.29, its product with
    100 rounds to 28.999999999999996, and the signal carries 28 where the
    exact value is 29.  In the job of one hundred inputs whose tasks run in
    turn, the 29th completion emits [progress(28)]. *)
Theorem progress_rounding_slip :
  PyFloat.int_truediv 29 100 = Ok (S754_finite false 5224175567749775 (-54))
  /\ PyFloat.mul (S754_finite false 5224175567749775 (-54)) (secs 100)
     = S754_finite false 8162774324609023 (-48)
  /\ percent_of 29 100 = Ok 28
  /\ percent_exact 29 100 = 29
  /\ run_actions (whole_run 28 (ok_env 1000 400 (secs 129)))
                 (world_after hundred_w0 (hundred_schedule 28))
     = Some (world_after hundred_w0 (hundred_schedule 29))
  /\ completed (ctrl (world_after hundred_w0 (hundred_schedule 29))) = 29
  /\ total (ctrl (world_after hundred_w0 (hundred_schedule 29))) = 100
  /\ new_signals (world_after hundred_w0 (hundred_schedule 28))
                 (world_after hundred_w0 (hundred_schedule 29))
     = [Progress 28; Eta "00:01:11"].
Proof. vm_compute. repeat split. Qed.

(* ===================================================================== *)
(** * Part IV.  The job under any schedule                               *)
(* ===================================================================== *)

(** ** Lists of tasks and of signals *)

Lemma paths_insert (l : list ConvertTask) (i : nat) (t t' : ConvertTask) :
  l !! i = Some t -> img_path t' = img_path t ->
  img_path <$> <[i:=t']> l = img_path <$> l.
Proof.
  intros Hi Hp. rewrite list_fmap_insert, Hp.
  apply list_insert_id. by rewrite list_lookup_fmap, Hi.
Qed.

Lemma dispatch_ok_insert (w : World) (i : nat) (t t' : ConvertTask)
    (self' : JobController) (mx : Z) :
  tasks (pool w) !! i = Some t -> img_path t' = img_path t ->
  files self' = files (ctrl w) ->
  dispatch_ok w ->
  dispatch_ok (mkWorld self' (mkPool mx (<[i:=t']> (tasks (pool w))))
                       (start_at w)).
Proof.
  intros Hi Hp Hfiles. unfold dispatch_ok, task_paths. cbn.
  rewrite (paths_insert _ i t t' Hi Hp), Hfiles.
  destruct (start_at w); try done.
  intros Hnil. by rewrite Hnil in Hi.
Qed.

Lemma finished_signals_app (a b : list signal) :
  finished_signals (a ++ b) = finished_signals a ++ finished_signals b.
Proof. apply List.filter_app. Qed.

Lemma new_signals_same (w w' : World) :
  emitted (ctrl w') = emitted (ctrl w) -> new_signals w w' = [].
Proof. unfold new_signals. intros ->. by rewrite drop_all. Qed.

Lemma new_signals_app (w w' : World) (sigs : list signal) :
  emitted (ctrl w') = emitted (ctrl w) ++ sigs -> new_signals w w' = sigs.
Proof. unfold new_signals. intros ->. by rewrite drop_app_length. Qed.

(** ** Moves of the workers *)

(** A move inside [task_finished] touches the three counters and the
    signals, nothing else. *)
Lemma tf_step_frame (now : float) (orig webp : Z) (at_pc : tf_pc)
    (self : JobController) :
  let self' := (tf_step now orig webp at_pc self).2 in
  files self' = files self /\ total self' = total self
  /\ cancelled self' = cancelled self /\ paused self' = paused self
  /\ exists sigs, emitted self' = emitted self ++ sigs.
Proof.
  assert (Hnil : emitted self = emitted self ++ []) by (by rewrite app_nil_r).
  destruct at_pc; unfold tf_step; unfold_method; cbn;
    repeat match goal with
           | |- context [match ?r with Ok _ => _ | Raise _ => _ end] =>
               destruct r; cbn
           end;
    split_and!; eauto.
Qed.

Lemma run_step_frame (env : Env) (t t' : ConvertTask)
    (self self' : JobController) :
  run_step env t self = Some (t', self') ->
  img_path t' = img_path t
  /\ files self' = files self /\ total self' = total self
  /\ cancelled self' = cancelled self
  /\ exists sigs, emitted self' = emitted self ++ sigs.
Proof.
  assert (Hnil : emitted self = emitted self ++ []) by (by rewrite app_nil_r).
  destruct t as [p k]. unfold run_step. cbn [pc img_path].
  destruct k as [| | | |o wz at_pc|k]; try discriminate.
  - intros [= <- <-]. split_and!; eauto.
  - destruct (paused self); [done|]. intros [= <- <-]. split_and!; eauto.
  - destruct (cancelled self) eqn:Hc; intros [= <- <-]; split_and!; eauto.
  - destruct (env_ok env); [|done].
    pose proof (convert_pure env p self) as Hpure.
    destruct (convert env p self) as [[sizes|e] self0]; cbn in Hpure;
      subst self0; intros [= <- <-]; cbn; split_and!; eauto.
  - pose proof (tf_step_frame (monotonic env) o wz at_pc self)
      as (Hf & Ht & Hc & _ & sigs & Hs).
    destruct (tf_step (monotonic env) o wz at_pc self) as [[[next|]|e] self1];
      cbn in Hf, Ht, Hc, Hs; intros [= <- <-]; cbn;
      split_and!; eauto.
    exists (sigs ++ [Error (error_message p e)]). by rewrite Hs, app_assoc.
Qed.

Lemma step_task_inv (i : nat) (env : Env) (w w' : World) :
  step (TaskStep i env) w = Some w' ->
  exists t t' self',
    tasks (pool w) !! i = Some t
    /\ run_step env t (ctrl w) = Some (t', self')
    /\ w' = mkWorld self' (mkPool (maxThreadCount (pool w))
                                  (<[i:=t']> (tasks (pool w)))) (start_at w).
Proof.
  unfold step. intros H.
  destruct (tasks (pool w) !! i) as [t|] eqn:Hi; [|done]. cbn in H.
  destruct (run_step env t (ctrl w)) as [[t' self']|] eqn:Hrun; [|done].
  cbn in H. injection H as <-. by exists t, t', self'.
Qed.

(** ** The invariant of the dispatch *)

Lemma init_inv (w0 : World) : initial w0 -> job_inv w0.
Proof.
  intros (fl & dir & q & km & del & mw & now & [= <-]). by split.
Qed.

Lemma job_inv_bound (w : World) :
  job_inv w -> (length (tasks (pool w)) <= length (files (ctrl w)))%nat.
Proof.
  intros [_ Hd]. unfold dispatch_ok, task_paths in Hd.
  destruct (start_at w).
  - rewrite Hd. cbn. lia.
  - rewrite Hd, length_app, length_fmap. lia.
  - apply prefix_length in Hd. by rewrite length_fmap in Hd.
Qed.

Lemma step_inv (a : action) (w w' : World) :
  job_inv w -> step a w = Some w' -> job_inv w'.
Proof.
  intros [Ht Hd] Hstep.
  destruct a as [| | | | |i env]; cbn in Hstep.
  - destruct (start_at w) eqn:Hs; try done. injection Hstep as <-.
    split; [done|]. unfold dispatch_ok, task_paths in *.
    rewrite Hs in Hd. cbn. by rewrite Hd.
  - unfold start_iter in Hstep. unfold dispatch_ok, task_paths in Hd.
    destruct (start_at w) as [|[|f rest]|] eqn:Hs; try done.
    + injection Hstep as <-. split; [done|].
      unfold dispatch_ok, task_paths. cbn. rewrite Hd, app_nil_r. done.
    + destruct (cancelled (ctrl w)); injection Hstep as <-.
      * split; [done|]. unfold dispatch_ok, task_paths. cbn.
        rewrite Hd. by apply prefix_app_r.
      * split; [done|]. unfold dispatch_ok, task_paths. cbn.
        rewrite fmap_app, <- app_assoc. exact Hd.
  - injection Hstep as <-. by split.
  - injection Hstep as <-. by split.
  - injection Hstep as <-. by split.
  - apply step_task_inv in Hstep as (t & t' & self' & Hi & Hrun & ->).
    apply run_step_frame in Hrun as (Hp & Hf & Htot & _).
    split; cbn.
    + by rewrite Hf, Htot.
    + by apply (dispatch_ok_insert w i t t').
Qed.

Lemma run_actions_inv (acts : list action) (w w' : World) :
  job_inv w -> run_actions acts w = Some w' -> job_inv w'.
Proof.
  revert w. induction acts as [|a acts IH]; intros w Hinv Hrun; cbn in Hrun.
  - by injection Hrun as <-.
  - destruct (step a w) as [w1|] eqn:Hstep; [|done]. cbn in Hrun.
    eapply IH; [|exact Hrun]. by eapply step_inv.
Qed.

Lemma reachable_inv (w : World) : reachable w -> job_inv w.
Proof.
  intros (w0 & acts & Hinit & Hrun).
  eapply run_actions_inv; [|exact Hrun]. by apply init_inv.
Qed.

(** ** Cancellation *)

(** [cancelled] is never reset. *)
Lemma step_cancelled (a : action) (w w' : World) :
  step a w = Some w' ->
  cancelled (ctrl w) = true -> cancelled (ctrl w') = true.
Proof.
  intros Hstep Hc. destruct a as [| | | | |i env]; cbn in Hstep.
  - destruct (start_at w); try done. by injection Hstep as <-.
  - unfold start_iter in Hstep.
    destruct (start_at w) as [|[|f rest]|]; try done.
    + by injection Hstep as <-.
    + rewrite Hc in Hstep. by injection Hstep as <-.
  - by injection Hstep as <-.
  - by injection Hstep as <-.
  - by injection Hstep as <-.
  - apply step_task_inv in Hstep as (t & t' & self' & Hi & Hrun & ->).
    apply run_step_frame in Hrun as (_ & _ & _ & Hsame & _). cbn.
    by rewrite Hsame.
Qed.

Lemma run_actions_cancelled (acts : list action) (w w' : World) :
  run_actions acts w = Some w' ->
  cancelled (ctrl w) = true -> cancelled (ctrl w') = true.
Proof.
  revert w. induction acts as [|a acts IH]; intros w Hrun Hc.
  - by injection Hrun as <-.
  - cbn in Hrun. destruct (step a w) as [w1|] eqn:Hstep; [|done].
    cbn in Hrun. eapply IH; [exact Hrun|]. by eapply step_cancelled.
Qed.

(** The tasks of the pool stay where they are in the list, with their
    paths. *)
Lemma step_task_kept (a : action) (w w' : World) (i : nat) (t : ConvertTask) :
  step a w = Some w' ->
  tasks (pool w) !! i = Some t ->
  exists t', tasks (pool w') !! i = Some t' /\ img_path t' = img_path t
    /\ (pc t' = pc t
        \/ exists env, a = TaskStep i env
             /\ run_step env t (ctrl w) = Some (t', ctrl w')).
Proof.
  intros Hstep Hi. destruct a as [| | | | |j env]; cbn in Hstep.
  - destruct (start_at w); try done. injection Hstep as <-. cbn. eauto.
  - unfold start_iter in Hstep.
    destruct (start_at w) as [|[|f rest]|]; try done.
    + injection Hstep as <-. cbn. eauto.
    + destruct (cancelled (ctrl w)); injection Hstep as <-; cbn; [eauto|].
      exists t. rewrite lookup_app_l by (by eapply lookup_lt_Some). eauto.
  - injection Hstep as <-. cbn. eauto.
  - injection Hstep as <-. cbn. eauto.
  - injection Hstep as <-. cbn. eauto.
  - apply step_task_inv in Hstep as (tj & tj' & self' & Hj & Hrun & ->). cbn.
    destruct (decide (j = i)) as [->|Hne].
    + rewrite Hi in Hj. injection Hj as <-.
      exists tj'. rewrite list_lookup_insert_eq by (by eapply lookup_lt_Some).
      apply run_step_frame in Hrun as Heff. destruct Heff as (Hp & _).
      split; [done|]. split; [done|]. right. by exists env.
    + exists t. rewrite list_lookup_insert_ne by done. eauto.
Qed.

Lemma step_never_ran (a : action) (w w' : World) (i : nat) (t : ConvertTask) :
  step a w = Some w' ->
  cancelled (ctrl w) = true ->
  tasks (pool w) !! i = Some t ->
  never_ran (pc t) = true ->
  exists t', tasks (pool w') !! i = Some t' /\ img_path t' = img_path t
             /\ never_ran (pc t') = true.
Proof.
  intros Hstep Hc Hi Hnr.
  destruct (step_task_kept a w w' i t Hstep Hi)
    as (t' & Hi' & Hp & [Hpc|(env & -> & Hrun)]).
  - exists t'. by rewrite Hpc.
  - exists t'. split; [done|]. split; [done|].
    unfold run_step in Hrun. rewrite Hc in Hrun.
    destruct (pc t) as [| | | |o wz at_pc|k]; try done.
    + by injection Hrun as <- _.
    + destruct (paused (ctrl w)); [done|]. by injection Hrun as <- _.
    + by injection Hrun as <- _.
Qed.

Lemma run_actions_never_ran (acts : list action) (w w' : World) (i : nat)
    (t : ConvertTask) :
  run_actions acts w = Some w' ->
  cancelled (ctrl w) = true ->
  tasks (pool w) !! i = Some t ->
  never_ran (pc t) = true ->
  exists t', tasks (pool w') !! i = Some t' /\ img_path t' = img_path t
             /\ never_ran (pc t') = true.
Proof.
  revert w t. induction acts as [|a acts IH]; intros w t Hrun Hc Hi Hnr.
  - injection Hrun as <-. eauto.
  - cbn in Hrun. destruct (step a w) as [w1|] eqn:Hstep; [|done].
    cbn in Hrun.
    destruct (step_never_ran a w w1 i t Hstep Hc Hi Hnr) as (t1 & Hi1 & Hp1 & Hnr1).
    destruct (IH w1 t1 Hrun (step_cancelled _ _ _ Hstep Hc) Hi1 Hnr1)
      as (t' & Hi' & Hp' & Hnr').
    exists t'. split; [done|]. split; [congruence|done].
Qed.

(** C5.  A task tests [cancelled] after its pause wait has returned: the
    wait lets it through only while [paused] is false, and the test is the
    move after that.  At the test, a set flag ends the task there (exit
    kind [Aborted]): the controller is left as it is, so no signal is
    emitted and no counter moves, and the [try] block is not entered; a
    clear flag sends the task into the [try] block.  Hence a task that has
    not passed its test when the flag is set stays before its test or ends
    as [Aborted], whatever happens afterwards: it never enters the [try]
    block, so it converts nothing, calls neither [task_finished] nor
    [task_error], and [completed] is never incremented on its behalf. *)
Theorem cancel_checkpoint (w : World) (i : nat) (t : ConvertTask) (env : Env) :
  tasks (pool w) !! i = Some t ->
  (pc t = PauseWait ->
     step (TaskStep i env) w
     = if paused (ctrl w) then None else Some (move_task w i t CancelCheck))
  /\ (pc t = CancelCheck ->
     step (TaskStep i env) w
     = Some (move_task w i t
               (if cancelled (ctrl w) then Exited Aborted else TryBlock)))
  /\ (forall (acts : list action) (w' : World),
        cancelled (ctrl w) = true ->
        before_checkpoint (pc t) = true ->
        run_actions acts w = Some w' ->
        cancelled (ctrl w') = true
        /\ exists t', tasks (pool w') !! i = Some t'
             /\ img_path t' = img_path t
             /\ never_ran (pc t') = true).
Proof.
  intros Hi. split; [|split].
  - intros Hpc. cbn. rewrite Hi. cbn. unfold run_step. rewrite Hpc.
    by destruct (paused (ctrl w)).
  - intros Hpc. cbn. rewrite Hi. cbn. unfold run_step. rewrite Hpc.
    by destruct (cancelled (ctrl w)).
  - intros acts w' Hc Hbefore Hrun. split.
    + by eapply run_actions_cancelled.
    + assert (Hnr : never_ran (pc t) = true) by (by destruct (pc t)).
      destruct (run_actions_never_ran acts w w' i t Hrun Hc Hi Hnr)
        as (t' & Hi' & Hp' & Hnr').
      by exists t'.
Qed.

Lemma cancel_checkpoint_witness :
  step (TaskStep 0 env_a) cancelled_during_pause
  = Some (move_task cancelled_during_pause 0 (mkTask "in/a.png" CancelCheck)
                    (Exited Aborted)).
Proof.
  apply (cancel_checkpoint cancelled_during_pause 0
           (mkTask "in/a.png" CancelCheck) env_a).
  - vm_compute. reflexivity.
  - reflexivity.
Defined.

(** ** Dispatch *)

(** Dispatch that has stopped short of the last input was stopped by the
    flag. *)
Lemma step_early_stop (a : action) (w w' : World) :
  job_inv w ->
  step a w = Some w' ->
  (start_at w = Dispatched -> task_paths w <> files (ctrl w) ->
   cancelled (ctrl w) = true) ->
  start_at w' = Dispatched -> task_paths w' <> files (ctrl w') ->
  cancelled (ctrl w') = true.
Proof.
  intros Hinv Hstep Hearly Hd Hne.
  destruct a as [| | | | |i env]; cbn in Hstep.
  - destruct (start_at w); try done. by injection Hstep as <-.
  - unfold start_iter in Hstep. destruct Hinv as [_ Hdisp].
    unfold dispatch_ok in Hdisp.
    destruct (start_at w) as [|[|f rest]|] eqn:Hs; try done.
    + injection Hstep as <-. unfold task_paths in *. cbn in *.
      rewrite app_nil_r in Hdisp. by rewrite Hdisp in Hne.
    + destruct (cancelled (ctrl w)) eqn:Hc; injection Hstep as <-; by cbn.
  - injection Hstep as <-. cbn in *. by apply Hearly.
  - injection Hstep as <-. cbn in *. by apply Hearly.
  - by injection Hstep as <-.
  - pose proof (step_cancelled (TaskStep i env) _ _ Hstep) as Hmono.
    apply step_task_inv in Hstep as (t & t' & self' & Hi & Hrun & ->).
    apply run_step_frame in Hrun as Heff.
    destruct Heff as (Hp & Hf & _ & _ & _).
    unfold task_paths in *. cbn in Hd, Hne.
    rewrite (paths_insert _ i t t' Hi Hp), Hf in Hne.
    by apply Hmono, Hearly.
Qed.

Lemma run_actions_early_stop (acts : list action) (w w' : World) :
  job_inv w ->
  run_actions acts w = Some w' ->
  (start_at w = Dispatched -> task_paths w <> files (ctrl w) ->
   cancelled (ctrl w) = true) ->
  start_at w' = Dispatched -> task_paths w' <> files (ctrl w') ->
  cancelled (ctrl w') = true.
Proof.
  revert w. induction acts as [|a acts IH]; intros w Hinv Hrun Hearly.
  - by injection Hrun as <-.
  - cbn in Hrun. destruct (step a w) as [w1|] eqn:Hstep; [|done].
    cbn in Hrun. eapply IH; [|exact Hrun|].
    + by eapply step_inv.
    + by eapply step_early_stop.
Qed.

(** [start()] run in one go: with the flag clear it submits every input,
    in order; with the flag set, none. *)
Lemma start_loop_spec (fs : list string) (self : JobController)
    (p : QThreadPool) :
  tasks (start_loop fs self p)
  = tasks p ++ (if cancelled self then []
                else (fun f => mkTask f Queued) <$> fs).
Proof.
  revert p. induction fs as [|f fs IH]; intros p; cbn.
  - destruct (cancelled self); by rewrite app_nil_r.
  - destruct (cancelled self) eqn:Hc; [by rewrite app_nil_r|].
    rewrite IH. cbn. rewrite ?Hc. by rewrite <- app_assoc.
Qed.

(** C4, as the specification words it, does not hold: the flag is tested
    in every round of the loop.  A flag that is set after the first
    submission stops the dispatch, although it was clear when [start()]
    was entered. *)
Lemma start_check_counterexample : ~ checked_once_before_dispatch.
Proof.
  intros Hclaim.
  specialize (Hclaim four_w0 four_w0
                (world_after four_w0
                   [CallStart; StartIter; CallCancel; StartIter])
                [] [StartIter; CallCancel; StartIter]).
  assert (Hinit : initial four_w0)
    by (by exists four_files, "out"%string, 87, false, false, 2, (secs 100)).
  specialize (Hclaim Hinit eq_refl eq_refl eq_refl eq_refl).
  vm_compute in Hclaim. discriminate Hclaim.
Qed.

(** C4, amended.  At all times the tasks in the pool are one per input
    path, in input order, for an initial segment of the inputs.  Each round
    of the loop of [start()] tests [cancelled] anew: if the flag is set the
    loop ends there, otherwise the task of the next input is appended to the
    pool.  When the loop has ended, every input has been submitted unless
    the flag is set.  Run without interruption, [start()] submits every
    input when the flag is clear and none when it is set.  A submitted task
    still makes its own test at its checkpoint. *)
Theorem start_dispatch (w : World) :
  reachable w ->
  task_paths w `prefix_of` files (ctrl w)
  /\ match start_at w with
     | NotStarted =>
         tasks (pool w) = []
         /\ tasks (pool (start w))
            = (if cancelled (ctrl w) then []
               else (fun f => mkTask f Queued) <$> files (ctrl w))
     | Dispatching rest =>
         files (ctrl w) = task_paths w ++ rest
         /\ step StartIter w
            = Some match rest with
                   | [] => mkWorld (ctrl w) (pool w) Dispatched
                   | f :: rest' =>
                       if cancelled (ctrl w)
                       then mkWorld (ctrl w) (pool w) Dispatched
                       else mkWorld (ctrl w)
                              (pool_start (pool w) (mkTask f Queued))
                              (Dispatching rest')
                   end
     | Dispatched =>
         task_paths w = files (ctrl w) \/ cancelled (ctrl w) = true
     end
  /\ (forall (i : nat) (t : ConvertTask) (env : Env),
        tasks (pool w) !! i = Some t -> pc t = CancelCheck ->
        step (TaskStep i env) w
        = Some (move_task w i t
                  (if cancelled (ctrl w) then Exited Aborted else TryBlock))).
Proof.
  intros Hreach. pose proof (reachable_inv w Hreach) as Hinv.
  destruct Hreach as (w0 & acts & Hinit & Hrun).
  pose proof (init_inv w0 Hinit) as Hinv0.
  assert (Hearly : start_at w = Dispatched -> task_paths w <> files (ctrl w)
                   -> cancelled (ctrl w) = true).
  { apply (run_actions_early_stop acts w0 w Hinv0 Hrun).
    destruct Hinit as (fl & dir & q & km & del & mw & now & [= <-]).
    by cbn. }
  destruct Hinv as [_ Hdisp]. unfold dispatch_ok in Hdisp.
  split; [|split].
  - destruct (start_at w).
    + unfold task_paths. rewrite Hdisp. apply prefix_nil.
    + rewrite Hdisp. by apply prefix_app_r.
    + exact Hdisp.
  - destruct (start_at w) as [|rest|] eqn:Hs.
    + split; [done|]. unfold start. cbn. rewrite start_loop_spec, Hdisp.
      by destruct (cancelled (ctrl w)).
    + split; [done|]. cbn. unfold start_iter. rewrite Hs.
      destruct rest as [|f rest']; [done|]. by destruct (cancelled (ctrl w)).
    + destruct (decide (task_paths w = files (ctrl w))) as [|Hne]; [by left|].
      right. by apply Hearly.
  - intros i t env Hi Hpc. cbn. rewrite Hi. cbn. unfold run_step.
    rewrite Hpc. by destruct (cancelled (ctrl w)).
Qed.

Lemma start_dispatch_witness :
  step StartIter cancelled_in_dispatch
  = Some (mkWorld (ctrl cancelled_in_dispatch) (pool cancelled_in_dispatch)
                  Dispatched).
Proof.
  assert (Hreach : reachable cancelled_in_dispatch).
  { exists four_w0, [CallStart; StartIter; CallCancel]. split.
    - by exists four_files, "out"%string, 87, false, false, 2, (secs 100).
    - vm_compute. reflexivity. }
  pose proof (start_dispatch cancelled_in_dispatch Hreach) as (_ & H & _).
  exact (proj2 H).
Defined.

(** ** Configuration *)

(** C9, as the specification words it, does not hold: the constructor
    accepts a configuration with no input and no worker. *)
Lemma config_error_counterexample : ~ config_error_surfaced.
Proof.
  intros Hclaim.
  destruct (Hclaim [] "out"%string 87 false false 0 (secs 100)
              (or_introl eq_refl)) as (e & He).
  discriminate He.
Qed.

(** A job without inputs does nothing, for ever. *)
Lemma empty_job_quiet (acts : list action) (w0 w : World) :
  job_inv w0 ->
  files (ctrl w0) = [] -> emitted (ctrl w0) = [] ->
  run_actions acts w0 = Some w ->
  files (ctrl w) = [] /\ tasks (pool w) = [] /\ emitted (ctrl w) = [].
Proof.
  revert w0. induction acts as [|a acts IH]; intros w0 Hinv Hf He Hrun.
  - injection Hrun as <-. split; [done|]. split; [|done].
    apply job_inv_bound in Hinv. rewrite Hf in Hinv.
    destruct (tasks (pool w0)); [done|]. cbn in Hinv. lia.
  - cbn in Hrun. destruct (step a w0) as [w1|] eqn:Hstep; [|done].
    cbn in Hrun. pose proof (step_inv a w0 w1 Hinv Hstep) as Hinv1.
    apply (IH w1 Hinv1); [| |exact Hrun].
    + destruct a as [| | | | |i env]; cbn in Hstep.
      * destruct (start_at w0); try done. by injection Hstep as <-.
      * unfold start_iter in Hstep.
        destruct (start_at w0) as [|[|f rest]|]; try done.
        -- by injection Hstep as <-.
        -- destruct (cancelled (ctrl w0)); by injection Hstep as <-.
      * by injection Hstep as <-.
      * by injection Hstep as <-.
      * by injection Hstep as <-.
      * apply job_inv_bound in Hinv. rewrite Hf in Hinv.
        destruct (tasks (pool w0)); [done|]. cbn in Hinv. lia.
    + destruct a as [| | | | |i env]; cbn in Hstep.
      * destruct (start_at w0); try done. by injection Hstep as <-.
      * unfold start_iter in Hstep.
        destruct (start_at w0) as [|[|f rest]|]; try done.
        -- by injection Hstep as <-.
        -- destruct (cancelled (ctrl w0)); by injection Hstep as <-.
      * by injection Hstep as <-.
      * by injection Hstep as <-.
      * by injection Hstep as <-.
      * apply job_inv_bound in Hinv. rewrite Hf in Hinv.
        destruct (tasks (pool w0)); [done|]. cbn in Hinv. lia.
Qed.

(** C9, amended.  The constructor validates nothing: it returns a
    controller for every configuration, with [total] the number of inputs
    and the given worker count handed to the pool as it is.  [start()] then
    submits one task per input whatever the worker count; for an empty
    input set it submits nothing, and no signal is ever emitted. *)
Theorem no_config_validation (fl : list string) (dir : string) (q : Z)
    (km del : bool) (mw : Z) (now : float) :
  exists w0,
    init fl dir q km del mw now = Ok w0
    /\ maxThreadCount (pool w0) = mw
    /\ total (ctrl w0) = Z.of_nat (length fl)
    /\ tasks (pool w0) = [] /\ emitted (ctrl w0) = []
    /\ tasks (pool (start w0)) = (fun f => mkTask f Queued) <$> fl
    /\ (fl = [] -> forall (acts : list action) (w : World),
          run_actions acts w0 = Some w ->
          tasks (pool w) = [] /\ emitted (ctrl w) = []).
Proof.
  eexists. split; [reflexivity|]. cbn.
  split; [done|]. split; [done|]. split; [done|]. split; [done|].
  split; [by rewrite start_loop_spec|].
  intros -> acts w Hrun.
  eapply empty_job_quiet in Hrun as (_ & Ht & He); [done| |done|done].
  apply init_inv. by exists [], dir, q, km, del, mw, now.
Qed.

(** With no worker and one input, the job starts all the same. *)
Example zero_workers_job_starts :
  init ["in/a.png"] "out" 87 false false 0 (secs 100) = Ok zero_workers_w0
  /\ tasks (pool (start zero_workers_w0)) = [mkTask "in/a.png" Queued]
  /\ run_actions [CallStart; StartIter; StartIter] zero_workers_w0
     = Some (start zero_workers_w0).
Proof. vm_compute. repeat split. Qed.

(* ===================================================================== *)
(** * Part V.  The job when the calls of [task_finished] are serialized

    The specification wants the counters changed under one lock.  This
    part shows what the program would guarantee then: with every task
    going through its [try] statement in one move, the invariants of the
    counters and the single [finished] signal hold.  Part VI shows that the
    moves of one task, made in a row, do what this one move does, and what
    happens when the calls do overlap, as the code allows. *)
(* ===================================================================== *)

(** ** One move of a worker *)

Lemma emitted_with_counted (self : JobController) (o wz : Z)
    (a b : list signal) :
  emitted_with (counted_with self o wz a) b = counted_with self o wz (a ++ b).
Proof. unfold emitted_with, counted_with. cbn. by rewrite app_assoc. Qed.

Lemma serial_run_step_effect (env : Env) (t t' : ConvertTask)
    (self self' : JobController) :
  serial_run_step env t self = Some (t', self') ->
  img_path t' = img_path t /\ counted t = false /\
  ((self' = self /\ counted t' = false /\ pc t <> TryBlock)
   \/ (pc t = TryBlock /\ exists e,
         (convert env (img_path t) self).1 = Raise e
         /\ pc t' = Exited (Failed false)
         /\ self' = emitted_with self [Error (error_message (img_path t) e)])
   \/ (pc t = TryBlock /\ exists o wz sigs,
         (convert env (img_path t) self).1 = Ok (o, wz)
         /\ 0 <= o /\ 0 < wz /\ counted t' = true
         /\ self' = counted_with self o wz sigs
         /\ finished_signals sigs = finished_by (pc t') self')).
Proof.
  destruct t as [p k]. unfold serial_run_step, run_step. cbn [pc img_path].
  destruct k as [| | | |o0 wz0 at0|k]; try discriminate.
  - intros [= <- <-]. cbn. split; [done|]. split; [done|]. left. done.
  - destruct (paused self); [done|]. intros [= <- <-]. cbn.
    split; [done|]. split; [done|]. left. done.
  - destruct (cancelled self); intros [= <- <-]; cbn;
      (split; [done|]); (split; [done|]); left; done.
  - destruct (env_ok env) eqn:Hok; [|done]. intros [= <- <-].
    cbn [img_path pc]. split; [done|]. split; [done|]. right.
    pose proof (run_try_cases env p self) as Hrun.
    pose proof (convert_pure env p self) as Hpure.
    pose proof (convert_sizes env p self) as Hsizes.
    unfold exit_of.
    destruct (convert env p self) as [[[o wz]|e] self0]; cbn in *; subst self0.
    2:{ left. split; [done|]. exists e. by rewrite Hrun. }
    right. split; [done|].
    destruct (Hsizes o wz eq_refl) as [Hsrc Hwz].
    assert (Ho : 0 <= o).
    { unfold env_ok in Hok. rewrite Hsrc in Hok. lia. }
    destruct (task_finished_cases (monotonic env) o wz self)
      as [(e & Htf)|[(e & q & Htf)|[(q & x & Hne & Htf)|(q & x & Heq & Htf)]]];
      rewrite Htf in Hrun |- *; rewrite Hrun; cbn [snd].
    + eexists o, wz, _. rewrite emitted_with_counted.
      repeat split; try done.
    + eexists o, wz, _. rewrite emitted_with_counted.
      repeat split; try done.
    + eexists o, wz, _. repeat split; try done.
      cbn. by destruct (Z.eqb_spec (completed self + 1) (total self)).
    + eexists o, wz, _. repeat split; try done.
      cbn. by destruct (Z.eqb_spec (completed self + 1) (total self)).
Qed.

(** ** The invariant of a serialized job *)

Lemma n_counted_le (l : list ConvertTask) : (n_counted l <= length l)%nat.
Proof.
  unfold n_counted. induction l as [|t l IH]; cbn; [lia|].
  destruct (counted t); lia.
Qed.

Lemma n_counted_insert (l : list ConvertTask) (i : nat) (t t' : ConvertTask) :
  l !! i = Some t ->
  (n_counted (<[i:=t']> l) + (if counted t then 1 else 0)
   = n_counted l + (if counted t' then 1 else 0))%nat.
Proof.
  intros Hi. unfold n_counted.
  rewrite <- (take_drop_middle l i t Hi) at 2.
  rewrite insert_take_drop by (by eapply lookup_lt_Some).
  rewrite !sum_list_with_app. cbn. lia.
Qed.

Lemma serial_step_task_inv (i : nat) (env : Env) (w w' : World) :
  serial_step (TaskStep i env) w = Some w' ->
  exists t t' self',
    tasks (pool w) !! i = Some t
    /\ serial_run_step env t (ctrl w) = Some (t', self')
    /\ w' = mkWorld self' (mkPool (maxThreadCount (pool w))
                                  (<[i:=t']> (tasks (pool w)))) (start_at w).
Proof.
  unfold serial_step. intros H.
  destruct (tasks (pool w) !! i) as [t|] eqn:Hi; [|done]. cbn in H.
  destruct (serial_run_step env t (ctrl w)) as [[t' self']|] eqn:Hrun; [|done].
  cbn in H. injection H as <-. by exists t, t', self'.
Qed.

Lemma init_serial_inv (w0 : World) : initial w0 -> serial_inv w0.
Proof.
  intros (fl & dir & q & km & del & mw & now & [= <-]).
  split; cbn; auto.
Qed.

Lemma serial_inv_bound (w : World) :
  serial_inv w -> (length (tasks (pool w)) <= length (files (ctrl w)))%nat.
Proof.
  intros [_ Hd _ _]. unfold dispatch_ok, task_paths in Hd.
  destruct (start_at w).
  - rewrite Hd. cbn. lia.
  - rewrite Hd, length_app, length_fmap. lia.
  - apply prefix_length in Hd. by rewrite length_fmap in Hd.
Qed.

Lemma serial_step_inv (a : action) (w w' : World) :
  serial_inv w -> serial_step a w = Some w' -> serial_inv w'.
Proof.
  intros Hinv Hstep. pose proof (serial_inv_bound w Hinv) as Hbound.
  destruct Hinv as [Ht Hd Hc Hf].
  destruct a as [| | | | |i env]; cbn in Hstep.
  - (* CallStart *)
    destruct (start_at w) eqn:Hs; try done. injection Hstep as <-.
    split; cbn; try done. unfold dispatch_ok, task_paths in *.
    rewrite Hs in Hd. cbn. by rewrite Hd.
  - (* StartIter *)
    unfold start_iter in Hstep. unfold dispatch_ok, task_paths in Hd.
    destruct (start_at w) as [|[|f rest]|] eqn:Hs; try done.
    + injection Hstep as <-. split; cbn; try done.
      unfold dispatch_ok, task_paths. cbn. rewrite Hd, app_nil_r. done.
    + destruct (cancelled (ctrl w)); injection Hstep as <-.
      * split; cbn; try done. unfold dispatch_ok, task_paths. cbn.
        rewrite Hd. by apply prefix_app_r.
      * split; cbn; try done.
        -- unfold dispatch_ok, task_paths. cbn.
           rewrite fmap_app, <- app_assoc. exact Hd.
        -- unfold n_counted in *. rewrite sum_list_with_app. cbn. lia.
  - injection Hstep as <-. split; cbn; done.
  - injection Hstep as <-. split; cbn; done.
  - injection Hstep as <-. split; cbn; done.
  - (* TaskStep *)
    apply serial_step_task_inv in Hstep as (t & t' & self' & Hi & Hrun & ->).
    apply serial_run_step_effect in Hrun
      as (Hp & Hnc & [(-> & Hnc' & _)|[(_ & e & _ & Hpc & ->)|
          (_ & o & wz & sigs & _ & Ho & Hwz & Hc' & -> & Hfin)]]).
    + pose proof (n_counted_insert _ i t t' Hi) as Hn.
      rewrite Hnc, Hnc' in Hn.
      split; cbn; try done.
      * by apply (dispatch_ok_insert w i t t').
      * rewrite Hc. unfold n_counted in *. lia.
    + pose proof (n_counted_insert _ i t t' Hi) as Hn.
      assert (counted t' = false) as Hnc' by (unfold counted; by rewrite Hpc).
      rewrite Hnc, Hnc' in Hn.
      split; cbn; try done.
      * by apply (dispatch_ok_insert w i t t').
      * rewrite Hc. unfold n_counted in *. lia.
      * rewrite finished_signals_app. cbn. by rewrite app_nil_r.
    + pose proof (n_counted_insert _ i t t' Hi) as Hn.
      rewrite Hnc, Hc' in Hn.
      pose proof (n_counted_le (<[i:=t']> (tasks (pool w)))) as Hle.
      rewrite length_insert in Hle.
      split; cbn; try done.
      * by apply (dispatch_ok_insert w i t t').
      * rewrite Hc. unfold n_counted in *. lia.
      * destruct Hf as [Hnone|[_ Hfull]]; [|lia].
        rewrite finished_signals_app, Hnone, Hfin. cbn.
        unfold finished_by. destruct (pc t') as [| | | | |[| |]]; auto.
        cbn. destruct (Z.eqb_spec (completed (ctrl w) + 1) (total (ctrl w)));
          auto.
Qed.

Lemma serial_run_inv (acts : list action) (w w' : World) :
  serial_inv w -> serial_run acts w = Some w' -> serial_inv w'.
Proof.
  revert w. induction acts as [|a acts IH]; intros w Hinv Hrun; cbn in Hrun.
  - by injection Hrun as <-.
  - destruct (serial_step a w) as [w1|] eqn:Hstep; [|done]. cbn in Hrun.
    eapply IH; [|exact Hrun]. by eapply serial_step_inv.
Qed.

Lemma serial_reachable_inv (w : World) : serial_reachable w -> serial_inv w.
Proof.
  intros (w0 & acts & Hinit & Hrun).
  eapply serial_run_inv; [|exact Hrun]. by apply init_serial_inv.
Qed.

(** ** The counters *)

(** A move leaves the three counters alone or is the one update of a task:
    [completed] grows by one and the byte counters by the sizes of that
    task. *)
Lemma serial_step_counters (a : action) (w w' : World) :
  serial_step a w = Some w' ->
  total (ctrl w') = total (ctrl w)
  /\ ((completed (ctrl w') = completed (ctrl w)
       /\ orig_bytes (ctrl w') = orig_bytes (ctrl w)
       /\ webp_bytes (ctrl w') = webp_bytes (ctrl w))
      \/ (completed (ctrl w') = completed (ctrl w) + 1
          /\ orig_bytes (ctrl w) <= orig_bytes (ctrl w')
          /\ webp_bytes (ctrl w) < webp_bytes (ctrl w'))).
Proof.
  intros Hstep. destruct a as [| | | | |i env]; cbn in Hstep.
  - destruct (start_at w); try done. injection Hstep as <-. cbn. auto.
  - unfold start_iter in Hstep.
    destruct (start_at w) as [|[|f rest]|]; try done.
    + injection Hstep as <-. cbn. auto.
    + destruct (cancelled (ctrl w)); injection Hstep as <-; cbn; auto.
  - injection Hstep as <-. cbn. auto.
  - injection Hstep as <-. cbn. auto.
  - injection Hstep as <-. cbn. auto.
  - apply serial_step_task_inv in Hstep as (t & t' & self' & Hi & Hrun & ->).
    apply serial_run_step_effect in Hrun
      as (_ & _ & [(-> & _)|[(_ & e & _ & _ & ->)|
          (_ & o & wz & sigs & _ & Ho & Hwz & _ & -> & _)]]); cbn.
    + auto.
    + auto.
    + split; [done|]. right. lia.
Qed.

Lemma serial_run_counters (acts : list action) (w w' : World) :
  serial_run acts w = Some w' ->
  total (ctrl w') = total (ctrl w)
  /\ completed (ctrl w) <= completed (ctrl w')
     <= completed (ctrl w) + Z.of_nat (length acts)
  /\ orig_bytes (ctrl w) <= orig_bytes (ctrl w')
  /\ webp_bytes (ctrl w) + (completed (ctrl w') - completed (ctrl w))
     <= webp_bytes (ctrl w')
  /\ (completed (ctrl w') = completed (ctrl w) ->
      orig_bytes (ctrl w') = orig_bytes (ctrl w)
      /\ webp_bytes (ctrl w') = webp_bytes (ctrl w)).
Proof.
  revert w. induction acts as [|a acts IH]; intros w Hrun; cbn in Hrun.
  - injection Hrun as <-. cbn. lia.
  - destruct (serial_step a w) as [w1|] eqn:Hstep; [|done]. cbn in Hrun.
    apply serial_step_counters in Hstep as (Ht & Hc).
    apply IH in Hrun as (Ht' & Hc' & Ho' & Hw' & Hsame).
    cbn [length]. split; [congruence|].
    destruct Hc as [(Hc1 & Ho1 & Hw1)|(Hc1 & Ho1 & Hw1)].
    + rewrite Hc1, Ho1, Hw1 in *. repeat split; try lia; apply Hsame; lia.
    + repeat split; try lia.
Qed.

(** With serialized calls, in every state that a job reaches, under any
    schedule of the caller and the workers, [0 <= completed <= total], and
    [completed] is the number of tasks whose [run] has called
    [task_finished]: one update per such task, none twice.  From any such
    state on, [total] stays as it is, [completed] never decreases and grows
    by at most one per move, the byte counters never decrease, and they
    change only when [completed] does (the output counter by at least one
    byte per update). *)
Lemma serial_counters_invariant (w0 w w' : World) (acts acts' : list action) :
  initial w0 ->
  serial_run acts w0 = Some w ->
  serial_run acts' w = Some w' ->
  0 <= completed (ctrl w') <= total (ctrl w')
  /\ completed (ctrl w') = Z.of_nat (n_counted (tasks (pool w')))
  /\ total (ctrl w') = total (ctrl w)
  /\ completed (ctrl w) <= completed (ctrl w')
     <= completed (ctrl w) + Z.of_nat (length acts')
  /\ orig_bytes (ctrl w) <= orig_bytes (ctrl w')
  /\ webp_bytes (ctrl w) + (completed (ctrl w') - completed (ctrl w))
     <= webp_bytes (ctrl w')
  /\ (completed (ctrl w') = completed (ctrl w) ->
      orig_bytes (ctrl w') = orig_bytes (ctrl w)
      /\ webp_bytes (ctrl w') = webp_bytes (ctrl w)).
Proof.
  intros Hinit Hrun Hrun'.
  assert (Hinv : serial_inv w').
  { eapply serial_run_inv; [|exact Hrun'].
    eapply serial_run_inv; [|exact Hrun]. by apply init_serial_inv. }
  pose proof (serial_inv_bound w' Hinv) as Hbound.
  pose proof (n_counted_le (tasks (pool w'))) as Hle.
  destruct Hinv as [Ht _ Hc _].
  split; [lia|]. split; [exact Hc|].
  by apply serial_run_counters.
Qed.

Example serial_counters_example :
  0 <= completed (ctrl (serial_world_after four_w0 four_serial))
    <= total (ctrl (serial_world_after four_w0 four_serial))
  /\ completed (ctrl (serial_world_after four_w0 four_serial_before_last))
     <= completed (ctrl (serial_world_after four_w0 four_serial))
     <= completed (ctrl (serial_world_after four_w0 four_serial_before_last)) + 1.
Proof.
  assert (Hinit : initial four_w0)
    by (by exists four_files, "out"%string, 87, false, false, 2, (secs 100)).
  pose proof (serial_counters_invariant four_w0
                (serial_world_after four_w0 four_serial_before_last)
                (serial_world_after four_w0 four_serial)
                four_serial_before_last
                [TaskStep 3 env_d]
                Hinit
                ltac:(vm_compute; reflexivity)
                ltac:(vm_compute; reflexivity)) as (H1 & _ & _ & H2 & _).
  split; [exact H1|exact H2].
Qed.

(** ** The [finished] signal *)

Lemma serial_run_step_try_exit (env : Env) (t t' : ConvertTask)
    (self self' : JobController) :
  pc t = TryBlock ->
  serial_run_step env t self = Some (t', self') ->
  env_ok env = true /\ pc t' = Exited (exit_of env (img_path t) self).
Proof.
  unfold serial_run_step. intros ->. destruct (env_ok env); [|done].
  by intros [= <- <-].
Qed.

(** What one move adds to the signals, as far as [finished] goes. *)
Lemma serial_step_finished (a : action) (w w' : World) :
  serial_step a w = Some w' ->
  emitted (ctrl w') = emitted (ctrl w) ++ new_signals w w'
  /\ (completes a w = true -> completed (ctrl w') = completed (ctrl w) + 1)
  /\ finished_signals (new_signals w w')
     = if completes a w && (completed (ctrl w') =? total (ctrl w'))
       then [Finished (completed (ctrl w'))
                      (orig_bytes (ctrl w') - webp_bytes (ctrl w'))]
       else [].
Proof.
  intros Hstep.
  assert (Hquiet : forall w1 : World,
    emitted (ctrl w1) = emitted (ctrl w) -> completes a w = false ->
    emitted (ctrl w1) = emitted (ctrl w) ++ new_signals w w1
    /\ (completes a w = true -> completed (ctrl w1) = completed (ctrl w) + 1)
    /\ finished_signals (new_signals w w1)
       = if completes a w && (completed (ctrl w1) =? total (ctrl w1))
         then [Finished (completed (ctrl w1))
                        (orig_bytes (ctrl w1) - webp_bytes (ctrl w1))]
         else []).
  { intros w1 Hsame Hno. rewrite (new_signals_same _ _ Hsame), Hno, app_nil_r.
    by repeat split. }
  destruct a as [| | | | |i env]; cbn in Hstep.
  - destruct (start_at w); try done. injection Hstep as <-. by apply Hquiet.
  - unfold start_iter in Hstep.
    destruct (start_at w) as [|[|f rest]|]; try done.
    + injection Hstep as <-. by apply Hquiet.
    + destruct (cancelled (ctrl w)); injection Hstep as <-; by apply Hquiet.
  - injection Hstep as <-. by apply Hquiet.
  - injection Hstep as <-. by apply Hquiet.
  - injection Hstep as <-. by apply Hquiet.
  - apply serial_step_task_inv in Hstep as (t & t' & self' & Hi & Hrun & ->).
    pose proof (serial_run_step_effect _ _ _ _ _ Hrun)
      as (_ & _ & [(-> & _ & Hpc)|[(Hpc & e & _ & Hpc' & ->)|
          (Hpc & o & wz & sigs & _ & _ & _ & _ & -> & Hfin)]]).
    + apply Hquiet; [done|]. cbn. rewrite Hi.
      by destruct (pc t).
    + destruct (serial_run_step_try_exit _ _ _ _ _ Hpc Hrun) as [Hok Hexit].
      rewrite Hpc' in Hexit. injection Hexit as Hexit.
      assert (Hno : completes (TaskStep i env) w = false).
      { cbn. rewrite Hi, Hpc, <- Hexit. by rewrite andb_false_r. }
      rewrite Hno. cbn [andb].
      rewrite (new_signals_app _ _ [Error (error_message (img_path t) e)]);
        by cbn.
    + destruct (serial_run_step_try_exit _ _ _ _ _ Hpc Hrun) as [Hok Hexit].
      rewrite (new_signals_app _ _ sigs) by done.
      split; [done|]. split; [done|].
      rewrite Hfin, Hexit. cbn [completes]. rewrite Hi, Hpc, Hok.
      cbn [andb finished_by ctrl].
      by destruct (exit_of env (img_path t) (ctrl w)).
Qed.

(** ** The last completion always returns

    On a clock that yields finite readings, the call of [task_finished]
    that brings [completed] to [total] raises nothing: the quotient is
    exactly 1, nothing remains, and the ETA is zero. *)

Lemma percent_of_all (t : Z) : 0 < t -> percent_of t t = Ok 100.
Proof.
  intros Ht. unfold percent_of. rewrite (int_truediv_self t Ht). reflexivity.
Qed.

(** Nothing divided by a rate that is a number gives a zero ETA. *)
Lemma eta_from_rate (r : float) :
  PyFloat.is_nan r = false ->
  (v ← (if pynum_truth (PyFloat r)
        then PyFloat <$> int_div_pynum 0 (PyFloat r)
        else Ok (PyInt 0));
   format_eta v) = Ok "00:00:00"%string.
Proof.
  destruct r as [s|s| |s m e]; try done; intros _; destruct s; reflexivity.
Qed.

(** With nothing left to do the ETA reads [00:00:00]. *)
Lemma eta_all_done (t : Z) (elapsed : float) :
  0 < t < 2 ^ 53 ->
  PyFloat.is_nan elapsed = false ->
  (v ← eta_of t t elapsed; format_eta v) = Ok "00:00:00"%string.
Proof.
  intros Ht Hnan. unfold eta_of.
  destruct (PyFloat.truth elapsed) eqn:Htruth.
  - destruct (of_int_small t Ht) as (m & e & Hof).
    assert (Hzero : PyFloat.is_zero elapsed = false)
      by (by apply negb_true_iff in Htruth).
    assert (Hrate : rate_of t elapsed
              = Ok (PyFloat (SFdiv PyFloat.prec PyFloat.emax
                               (S754_finite false m e) elapsed))).
    { unfold rate_of, int_div_pynum. rewrite Htruth, Hof.
      unfold mbind, result_mbind, result_bind, PyFloat.truediv.
      by rewrite Hzero. }
    rewrite Hrate. unfold mbind at 2. unfold result_mbind, result_bind.
    rewrite Z.sub_diag. apply eta_from_rate.
    by apply div_finite_not_nan.
  - unfold rate_of. rewrite Htruth. by rewrite Z.sub_diag.
Qed.

(** The call of [task_finished] that brings [completed] to [total]
    returns, having emitted 100 percent, a zero ETA and [finished]. *)
Lemma task_finished_last (now : float) (orig webp : Z) (self : JobController) :
  0 < total self < 2 ^ 53 ->
  completed self + 1 = total self ->
  PyFloat.is_finite now = true ->
  PyFloat.is_finite (start_time self) = true ->
  task_finished now orig webp self
  = (Ok tt,
     counted_with self orig webp
       [Progress 100; Eta "00:00:00";
        Finished (total self)
                 (orig_bytes self + orig - (webp_bytes self + webp))]).
Proof.
  intros Ht Hc Hnow Hstart.
  pose proof (sub_finite_not_nan now (start_time self) Hnow Hstart) as Hnan.
  pose proof (eta_all_done (total self) (PyFloat.sub now (start_time self))
                Ht Hnan) as Heta.
  unfold task_finished. unfold_method. cbn. rewrite Hc.
  rewrite percent_of_all by lia. cbn.
  destruct (eta_of _ _ _) as [v|e]; cbn in Heta |- *; [|done].
  rewrite Heta. cbn. rewrite Z.eqb_refl. cbn.
  unfold counted_with. cbn. rewrite Hc. by rewrite <- !app_assoc.
Qed.

(** A task that converts its file when all the others are counted
    completes the job, whatever the sizes and the (finite) clock. *)
Lemma serial_last_completes (w : World) (i : nat) (t : ConvertTask)
    (env : Env) (sizes : Z * Z) :
  tasks (pool w) !! i = Some t ->
  pc t = TryBlock ->
  env_ok env = true ->
  (convert env (img_path t) (ctrl w)).1 = Ok sizes ->
  completed (ctrl w) + 1 = total (ctrl w) ->
  total (ctrl w) < 2 ^ 53 ->
  PyFloat.is_finite (monotonic env) = true ->
  PyFloat.is_finite (start_time (ctrl w)) = true ->
  serial_inv w ->
  completes (TaskStep i env) w = true.
Proof.
  intros Hi Hpc Hok Hconv Hc Hsmall Hnow Hstart Hinv.
  assert (Hpos : 0 < total (ctrl w)).
  { destruct Hinv as [_ _ Hcompl _]. lia. }
  pose proof (convert_pure env (img_path t) (ctrl w)) as Hpure.
  cbn. rewrite Hi, Hpc, Hok. cbn. unfold exit_of.
  destruct (convert env (img_path t) (ctrl w)) as [[sz|e] self0];
    cbn in Hconv, Hpure; [|done]. subst self0.
  by rewrite task_finished_last.
Qed.

Lemma serial_last_signals (w w' : World) (i : nat) (t : ConvertTask)
    (env : Env) (sizes : Z * Z) :
  serial_step (TaskStep i env) w = Some w' ->
  tasks (pool w) !! i = Some t ->
  pc t = TryBlock ->
  (convert env (img_path t) (ctrl w)).1 = Ok sizes ->
  completed (ctrl w) + 1 = total (ctrl w) ->
  total (ctrl w) < 2 ^ 53 ->
  PyFloat.is_finite (monotonic env) = true ->
  PyFloat.is_finite (start_time (ctrl w)) = true ->
  serial_inv w ->
  new_signals w w'
  = [Progress 100; Eta "00:00:00";
     Finished (total (ctrl w))
              (orig_bytes (ctrl w) + sizes.1 - (webp_bytes (ctrl w) + sizes.2))].
Proof.
  intros Hstep Hi Hpc Hconv Hc Hsmall Hnow Hstart Hinv.
  assert (Hpos : 0 < total (ctrl w)).
  { destruct Hinv as [_ _ Hcompl _]. lia. }
  apply serial_step_task_inv in Hstep as (t0 & t' & self' & Hi0 & Hrun & ->).
  rewrite Hi in Hi0. injection Hi0 as <-.
  unfold serial_run_step in Hrun. rewrite Hpc in Hrun.
  destruct (env_ok env); [|done]. injection Hrun as _ <-.
  pose proof (run_try_cases env (img_path t) (ctrl w)) as Hcases.
  rewrite Hconv in Hcases.
  rewrite task_finished_last in Hcases by (done || lia).
  apply new_signals_app. cbn [ctrl]. by rewrite Hcases.
Qed.

(** With serialized calls, the [finished] signal is emitted at most once
    in the life of a job, and a move emits it exactly when that move is the
    end of a task whose call of [task_finished] runs to its end and brings
    [completed] to [total]; the signal carries the value of [completed] and
    [orig_bytes - webp_bytes] of that moment.  With fewer than [2^53]
    inputs and finite readings of the clock, the call that brings
    [completed] to [total] does run to its end: it emits 100 percent, a
    zero ETA and [finished]. *)
Lemma serial_finished_once (w w' : World) (a : action) :
  serial_reachable w ->
  serial_step a w = Some w' ->
  (length (finished_signals (emitted (ctrl w'))) <= 1)%nat
  /\ emitted (ctrl w') = emitted (ctrl w) ++ new_signals w w'
  /\ finished_signals (new_signals w w')
     = (if completes a w && (completed (ctrl w') =? total (ctrl w'))
        then [Finished (completed (ctrl w'))
                       (orig_bytes (ctrl w') - webp_bytes (ctrl w'))]
        else [])
  /\ (completes a w = true -> completed (ctrl w') = completed (ctrl w) + 1)
  /\ (finished_signals (emitted (ctrl w)) <> [] ->
      finished_signals (new_signals w w') = [])
  /\ (forall (i : nat) (env : Env) (t : ConvertTask) (sizes : Z * Z),
        a = TaskStep i env ->
        tasks (pool w) !! i = Some t -> pc t = TryBlock ->
        (convert env (img_path t) (ctrl w)).1 = Ok sizes ->
        completed (ctrl w) + 1 = total (ctrl w) ->
        total (ctrl w) < 2 ^ 53 ->
        PyFloat.is_finite (monotonic env) = true ->
        PyFloat.is_finite (start_time (ctrl w)) = true ->
        new_signals w w'
        = [Progress 100; Eta "00:00:00";
           Finished (total (ctrl w))
                    (orig_bytes (ctrl w) + sizes.1
                     - (webp_bytes (ctrl w) + sizes.2))]).
Proof.
  intros Hreach Hstep.
  pose proof (serial_reachable_inv w Hreach) as Hinv.
  pose proof (serial_step_inv a w w' Hinv Hstep) as Hinv'.
  destruct (serial_step_finished a w w' Hstep) as (Happ & Hinc & Hnew).
  assert (Hone : (length (finished_signals (emitted (ctrl w'))) <= 1)%nat).
  { destruct Hinv' as [_ _ _ [->|[-> _]]]; cbn; lia. }
  split; [exact Hone|]. split; [exact Happ|]. split; [exact Hnew|].
  split; [exact Hinc|]. split.
  - intros Hbefore. rewrite Happ, finished_signals_app, length_app in Hone.
    destruct (finished_signals (emitted (ctrl w))); [done|].
    destruct (finished_signals (new_signals w w')); [done|].
    cbn in Hone. lia.
  - intros i env t sizes -> Hi Hpc Hconv Hc Hsmall Hnow Hstart.
    by eapply serial_last_signals.
Qed.

(** The scenario of the specification: four inputs, all converted, with
    sizes (100, 50), (200, 80), (150, 60) and (300, 100). *)
Example four_serial_signals :
  emitted (ctrl (serial_world_after four_w0 four_serial))
  = [Progress 25; Eta "00:00:03"; Progress 50; Eta "00:00:02";
     Progress 75; Eta "00:00:01"; Progress 100; Eta "00:00:00";
     Finished 4 460].
Proof. vm_compute. reflexivity. Qed.

Example four_serial_reachable :
  serial_reachable (serial_world_after four_w0 four_serial_before_last).
Proof.
  exists four_w0, four_serial_before_last. split.
  - by exists four_files, "out"%string, 87, false, false, 2, (secs 100).
  - vm_compute. reflexivity.
Qed.

Example serial_finished_example :
  finished_signals
    (new_signals (serial_world_after four_w0 four_serial_before_last)
                 (serial_world_after four_w0 four_serial))
  = [Finished 4 460].
Proof.
  pose proof (serial_finished_once
                (serial_world_after four_w0 four_serial_before_last)
                (serial_world_after four_w0 four_serial)
                (TaskStep 3 env_d)
                four_serial_reachable
                ltac:(vm_compute; reflexivity)) as (_ & _ & Hnew & _).
  exact Hnew.
Qed.

(** ** One call at a time

    The moves of a task from [try:] to the end of [run], made in a row, do
    what [run_try] does: the functions [task_finished] and [run_try] are
    the program when no call overlaps another. *)

Lemma finish_run_eq (n : nat) (env : Env) (t : ConvertTask)
    (self : JobController) :
  finish_run (S n) env t self
  = match run_step env t self with
    | Some (t', self') =>
        match pc t' with
        | Exited _ => Some (t', self')
        | _ => finish_run n env t' self'
        end
    | None => None
    end.
Proof. cbn [finish_run]. by destruct (run_step env t self) as [[t' self']|]. Qed.

Ltac one_move :=
  rewrite finish_run_eq; unfold run_step, tf_step; unfold_method;
  cbn -[finish_run percent_of rate_of eta_value format_eta PyFloat.sub
        Z.add Z.sub Z.eqb error_message].

Lemma finish_run_serial (env : Env) (t : ConvertTask) (self : JobController) :
  pc t = TryBlock ->
  finish_run 16 env t self = serial_run_step env t self.
Proof.
  destruct t as [p k]. cbn [pc]. intros ->.
  pose proof (convert_pure env p self) as Hpure.
  unfold serial_run_step, exit_of, run_try, try_block, task_finished, eta_of.
  rewrite finish_run_eq. unfold run_step at 1. unfold_method.
  cbn -[finish_run percent_of rate_of eta_value format_eta PyFloat.sub
        Z.add Z.sub Z.eqb error_message convert env_ok].
  destruct (env_ok env); [|reflexivity].
  destruct (convert env p self) as [[[o wz]|e] self0]; cbn [fst snd] in *;
    subst self0; [|reflexivity].
  cbn -[finish_run percent_of rate_of eta_value format_eta PyFloat.sub
        Z.add Z.sub Z.eqb error_message].
  do 7 one_move.
  destruct (percent_of _ _) as [q|e];
    cbn -[finish_run rate_of eta_value format_eta PyFloat.sub
          Z.add Z.sub Z.eqb error_message]; [|reflexivity].
  do 2 one_move.
  destruct (rate_of _ _) as [r|e];
    cbn -[finish_run eta_value format_eta PyFloat.sub
          Z.add Z.sub Z.eqb error_message]; [|reflexivity].
  one_move.
  destruct (eta_value _ _) as [v|e];
    cbn -[finish_run format_eta Z.add Z.sub Z.eqb error_message];
    [|reflexivity].
  destruct (format_eta v) as [x|e];
    cbn -[finish_run Z.add Z.sub Z.eqb error_message]; [|reflexivity].
  do 2 one_move.
  destruct (completed self + 1 =? total self);
    cbn -[finish_run Z.add Z.sub Z.eqb error_message]; [|reflexivity].
  do 3 one_move. reflexivity.
Qed.

(** ** Two calls at once *)

(** C1.  The counters are updated by unsynchronised loads and stores, so
    they do not move together and an update can be lost.

    Statements interleaved (each [+=] in one piece): in the job of four
    inputs, when task 2 has executed lines 168 to 170 and task 3 line 168,
    [completed] is 4 while the byte counters hold the sizes of three tasks.

    Loads and stores interleaved: task 0 loads [self.completed] (0); tasks 1
    and 2 each execute line 168, which brings [completed] to 2; task 0 then
    stores 1: [completed] decreases.  When the four tasks have run to the
    end, all of them completed, [completed] is 2 and not 4, while the byte
    counters hold the sizes of all four, and no [finished] signal has been
    emitted. *)
Theorem counters_race :
  initial four_w0
  /\ run_actions four_overlap_head four_w0
     = Some (world_after four_w0 four_overlap_head)
  /\ completed (ctrl (world_after four_w0 four_overlap_head)) = 4
  /\ orig_bytes (ctrl (world_after four_w0 four_overlap_head)) = 450
  /\ webp_bytes (ctrl (world_after four_w0 four_overlap_head)) = 190
  /\ run_actions lost_update_head four_w0
     = Some (world_after four_w0 lost_update_head)
  /\ completed (ctrl (world_after four_w0 lost_update_head)) = 2
  /\ step lost_update_move (world_after four_w0 lost_update_head)
     = Some (world_after four_w0 (lost_update_head ++ [lost_update_move]))
  /\ completed (ctrl (world_after four_w0
                        (lost_update_head ++ [lost_update_move]))) = 1
  /\ run_actions lost_update_all four_w0
     = Some (world_after four_w0 lost_update_all)
  /\ pc <$> tasks (pool (world_after four_w0 lost_update_all))
     = [Exited Completed; Exited Completed; Exited Completed;
        Exited Completed]
  /\ total (ctrl (world_after four_w0 lost_update_all)) = 4
  /\ completed (ctrl (world_after four_w0 lost_update_all)) = 2
  /\ orig_bytes (ctrl (world_after four_w0 lost_update_all)) = 750
  /\ webp_bytes (ctrl (world_after four_w0 lost_update_all)) = 290
  /\ finished_signals (emitted (ctrl (world_after four_w0 lost_update_all)))
     = [].
Proof.
  split.
  - by exists four_files, "out"%string, 87, false, false, 2, (secs 100).
  - vm_compute. repeat split.
Qed.

(** C2.  Two calls of [task_finished] that overlap can both find
    [completed = total], and [finished] is then emitted twice.  In the job
    of four inputs with the sizes of the specification, tasks 0 and 1 run
    in turn; task 2 executes lines 168 to 170 and task 3 line 168 (each
    [+=] without interruption); task 2 runs on: it finds [completed] at 4
    and emits [finished] with the bytes of three tasks, 260; task 3 runs
    on and emits [finished] again, with 460. *)
Theorem finished_twice :
  initial four_w0
  /\ run_actions four_overlap four_w0 = Some (world_after four_w0 four_overlap)
  /\ pc <$> tasks (pool (world_after four_w0 four_overlap))
     = [Exited Completed; Exited Completed; Exited Completed;
        Exited Completed]
  /\ completed (ctrl (world_after four_w0 four_overlap)) = 4
  /\ emitted (ctrl (world_after four_w0 four_overlap))
     = [Progress 25; Eta "00:00:03"; Progress 50; Eta "00:00:02";
        Progress 100; Eta "00:00:00"; Finished 4 260;
        Progress 100; Eta "00:00:00"; Finished 4 460]
  /\ finished_signals (emitted (ctrl (world_after four_w0 four_overlap)))
     = [Finished 4 260; Finished 4 460].
Proof.
  split.
  - by exists four_files, "out"%string, 87, false, false, 2, (secs 100).
  - vm_compute. repeat split.
Qed.

(** When the four tasks run in turn, the signals are those of the
    specification. *)
Example four_in_turn_signals :
  emitted (ctrl (world_after four_w0 four_in_turn))
  = [Progress 25; Eta "00:00:03"; Progress 50; Eta "00:00:02";
     Progress 75; Eta "00:00:01"; Progress 100; Eta "00:00:00";
     Finished 4 460].
Proof. vm_compute. reflexivity. Qed.

(* ===================================================================== *)
(** * Part VII.  Further properties of the program                       *)
(* ===================================================================== *)

(** ** [safe_remove], whatever the file system does *)

Lemma safe_remove_loop_shape (os_remove : nat -> string -> result unit)
    (path : string) (n j : nat) :
  exists k, (k <= n)%nat
    /\ (forall i, (j <= i < j + k)%nat -> transient (os_remove i path))
    /\ safe_remove_loop os_remove path n j
       = (failed_attempts path k ++ (if decide (k < n)%nat then [OsRemove path] else []),
          if decide (k < n)%nat then Some (os_remove (j + k)%nat path) else None)
    /\ ((k < n)%nat -> ~ transient (os_remove (j + k)%nat path)).
Proof.
  revert j. induction n as [|n IH]; intros j.
  - exists 0%nat. split; [lia|]. split; [intros i Hi; lia|].
    split; [done|lia].
  - cbn [safe_remove_loop].
    destruct (os_remove j path) as [[]|e] eqn:Hj.
    + exists 0%nat. split; [lia|]. split; [intros i Hi; lia|].
      rewrite Nat.add_0_r, Hj. split; [done|].
      intros _ (e & He & _). done.
    + destruct (is_PermissionError e) eqn:Hperm.
      * destruct (IH (S j)) as (k & Hk & Hfail & Heq & Hstop).
        exists (S k). split; [lia|]. split.
        { intros i Hi. destruct (decide (i = j)) as [->|]; [by exists e|].
          apply Hfail. lia. }
        rewrite Heq. replace (S j + k)%nat with (j + S k)%nat in * by lia.
        split.
        { destruct (decide (k < n)%nat), (decide (S k < S n)%nat);
            try lia; reflexivity. }
        intros Hlt. apply Hstop. lia.
      * exists 0%nat. split; [lia|]. split; [intros i Hi; lia|].
        rewrite Nat.add_0_r, Hj. split; [done|].
        intros _ (e' & [= <-] & He'). congruence.
Qed.

Lemma failed_attempts_length (path : string) (m : nat) :
  length (failed_attempts path m) = (2 * m)%nat.
Proof.
  induction m as [|m IHm]; [done|].
  unfold failed_attempts in *. cbn. rewrite IHm. lia.
Qed.

Lemma failed_attempts_events (path : string) (m : nat) :
  Forall (fun ev => ev = OsRemove path \/ ev = TimeSleep PyFloat.tenth)
         (failed_attempts path m).
Proof.
  induction m as [|m IHm]; [constructor|].
  unfold failed_attempts in *. cbn.
  constructor; [by left|]. constructor; [by right|]. exact IHm.
Qed.

(** The trace of [safe_remove]: some failed attempts, then one call. *)
Lemma safe_remove_trace (os_remove : nat -> string -> result unit)
    (path : string) (retries : Z) :
  exists k, (k <= Z.to_nat retries)%nat
    /\ (forall i, (i < k)%nat -> transient (os_remove i path))
    /\ ((k < Z.to_nat retries)%nat -> ~ transient (os_remove k path))
    /\ safe_remove os_remove path retries
       = (failed_attempts path k ++ [OsRemove path], os_remove k path).
Proof.
  destruct (safe_remove_loop_shape os_remove path (Z.to_nat retries) 0)
    as (k & Hk & Hfail & Heq & Hstop).
  exists k. split; [done|]. split; [intros i Hi; apply Hfail; lia|].
  split; [exact Hstop|].
  unfold safe_remove. rewrite Heq. cbn [Nat.add].
  destruct (decide (k < Z.to_nat retries)%nat); [done|].
  rewrite app_nil_r. by replace (Z.to_nat retries) with k by lia.
Qed.

(** X1.  Whatever [os.remove] does, [safe_remove] makes some number [k] of
    guarded attempts that fail with [PermissionError], [k] at most the
    budget, each followed by the 0.1 s delay, then exactly one more call of
    [os.remove], and it ends as that call ends (returning if it succeeded,
    raising what it raised).  That call is the unguarded one only when the
    budget is used up.  So there is at least one call and there are at most
    budget + 1, one delay less than calls, and nothing but [path] is
    touched. *)
Theorem safe_remove_shape (os_remove : nat -> string -> result unit)
    (path : string) (retries : Z) :
  exists k, (k <= Z.to_nat retries)%nat
    /\ (forall i, (i < k)%nat -> transient (os_remove i path))
    /\ ((k < Z.to_nat retries)%nat -> ~ transient (os_remove k path))
    /\ safe_remove os_remove path retries
       = (failed_attempts path k ++ [OsRemove path], os_remove k path)
    /\ length (safe_remove os_remove path retries).1 = (2 * k + 1)%nat
    /\ Forall (fun ev => ev = OsRemove path \/ ev = TimeSleep PyFloat.tenth)
              (safe_remove os_remove path retries).1.
Proof.
  destruct (safe_remove_trace os_remove path retries)
    as (k & Hk & Hfail & Hstop & Hres).
  exists k. split; [done|]. split; [done|]. split; [done|].
  split; [exact Hres|]. rewrite Hres. cbn [fst]. split.
  - rewrite length_app, failed_attempts_length. cbn. lia.
  - apply Forall_app. split; [apply failed_attempts_events|].
    constructor; [by left|constructor].
Qed.

(** ** The source file in [ConvertTask.run] *)

(** [convert_io] ends as [convert] does. *)
Lemma convert_io_result (env : Env) (p : string) (self : JobController) :
  (convert_io env p self).2 = (convert env p self).1.
Proof.
  unfold convert_io, convert. unfold_method. cbn.
  destruct (src_size env); cbn; [|done].
  destruct (image_open env); cbn; [|done].
  destruct (if keep_metadata self then _ else _); cbn; [|done].
  destruct (out_size env _) as [n|]; cbn; [|done].
  destruct (n <=? 0); cbn; [done|].
  destruct (delete_originals self); cbn; [|done].
  by destruct (safe_remove _ _ _) as [tr [[]|e]].
Qed.

(** X2.  The source file is touched by [os.remove] only when the job was
    asked to delete originals, and only after the source was measured and
    decoded, the output written, and the output found to have a positive
    size; in that case [safe_remove] is called on it, once.  What is
    removed is the task's own source path, nothing else.  So a job that
    keeps originals, and a task that fails before that point, leave the
    source alone. *)
Theorem original_removed_after_verified (env : Env) (p : string)
    (self : JobController) :
  let verified :=
    delete_originals self = true
    /\ exists o n, src_size env = Ok o
         /\ image_open env = Ok tt
         /\ save_outcome env self p = Ok tt
         /\ out_size env (output_path_of env self p) = Ok n
         /\ 0 < n in
  (verified ->
   (convert_io env p self).1
   = (safe_remove (os_remove env) p default_retries).1
   /\ OsRemove p ∈ (convert_io env p self).1)
  /\ (forall ev, ev ∈ (convert_io env p self).1 ->
       verified /\ (ev = OsRemove p \/ ev = TimeSleep PyFloat.tenth))
  /\ (convert_io env p self).2 = (convert env p self).1.
Proof.
  intros verified. subst verified.
  destruct (safe_remove_trace (os_remove env) p default_retries)
    as (k & _ & _ & _ & Hshape).
  assert (Hall : Forall (fun ev => ev = OsRemove p
                                   \/ ev = TimeSleep PyFloat.tenth)
                        (safe_remove (os_remove env) p default_retries).1).
  { rewrite Hshape. cbn [fst]. apply Forall_app.
    split; [apply failed_attempts_events|].
    constructor; [by left|constructor]. }
  split; [|split; [|apply convert_io_result]].
  - intros (Hdel & o & n & Hsrc & Hopen & Hsave & Hout & Hn).
    unfold convert_io, save_outcome, output_path_of in *.
    rewrite Hsrc, Hopen. cbv beta iota zeta. rewrite Hsave.
    cbv beta iota zeta. rewrite Hout, Hdel.
    destruct (Z.leb_spec n 0); [lia|].
    destruct (safe_remove _ _ _) as [tr r]; cbn in *.
    split; [done|]. injection Hshape as -> _.
    apply elem_of_app. right. constructor.
  - intros ev. unfold convert_io, save_outcome, output_path_of.
    destruct (src_size env) as [o|]; cbn; [|by intros ?%elem_of_nil].
    destruct (image_open env) as [[]|]; cbn; [|by intros ?%elem_of_nil].
    destruct (if keep_metadata self then _ else _) as [[]|]; cbn;
      [|by intros ?%elem_of_nil].
    destruct (out_size env _) as [n|]; cbn; [|by intros ?%elem_of_nil].
    destruct (Z.leb_spec n 0); cbn; [by intros ?%elem_of_nil|].
    destruct (delete_originals self); cbn; [|by intros ?%elem_of_nil].
    destruct (safe_remove _ _ _) as [tr r]; cbn in *.
    intros Hev. split; [split; [done|by exists o, n]|].
    by apply (proj1 (Forall_forall _ _) Hall).
Qed.

Lemma original_removed_after_verified_witness :
  (convert_io locked_once_env "in/photo.png" deleting_ctrl).1
  = [OsRemove "in/photo.png"; TimeSleep PyFloat.tenth; OsRemove "in/photo.png"]
  /\ (convert_io locked_once_env "in/photo.png" deleting_ctrl).1
     = (safe_remove (os_remove locked_once_env) "in/photo.png"
          default_retries).1.
Proof.
  split; [vm_compute; reflexivity|].
  apply (proj1 (original_removed_after_verified locked_once_env
                  "in/photo.png" deleting_ctrl)).
  split; [reflexivity|]. exists 1000, 400.
  split_and!; reflexivity.
Defined.

(** X3.  With "keep metadata" on, a task whose source name does not end
    in [.png] (in any letter case) always fails: [run] returns, having
    emitted one [error] signal and moved no counter.  The exception
    reported is that of [os.path.getsize] or of opening the image when one
    of them fails, and [ValueError("Workflow requires PNG")] otherwise.
    Neither the encoder nor [os.remove] is reached, so the outcome does not
    depend on what they would have done. *)
Theorem metadata_requires_png (env : Env) (p : string) (self : JobController) :
  keep_metadata self = true ->
  endswith (lower p) ".png" = false ->
  exists e,
    (convert env p self).1 = Raise e
    /\ run_try env p self
       = (Ok tt, emitted_with self [Error (basename p +:+ " → " +:+ exn_str e)])
    /\ e = match src_size env, image_open env with
           | Raise e', _ => e'
           | Ok _, Raise e' => e'
           | Ok _, Ok _ => Exn ValueError "Workflow requires PNG"
           end
    /\ (convert_io env p self).1 = []
    /\ forall save size remove,
         run_try (mkEnv (src_size env) (image_open env) (existing env)
                        save size remove (monotonic env)) p self
         = run_try env p self.
Proof.
  intros Hkeep Hpng.
  set (e := match src_size env, image_open env with
            | Raise e', _ => e'
            | Ok _, Raise e' => e'
            | Ok _, Ok _ => Exn ValueError "Workflow requires PNG"
            end).
  assert (Hraise : forall save size remove,
            (convert (mkEnv (src_size env) (image_open env) (existing env)
                            save size remove (monotonic env)) p self).1
            = Raise e).
  { intros. subst e. unfold convert, save_with_metadata. unfold_method. cbn.
    destruct (src_size env); cbn; [|done].
    destruct (image_open env); cbn; [|done].
    by rewrite Hkeep, Hpng. }
  assert (Hhere : (convert env p self).1 = Raise e).
  { subst e. unfold convert, save_with_metadata. unfold_method. cbn.
    destruct (src_size env); cbn; [|done].
    destruct (image_open env); cbn; [|done].
    by rewrite Hkeep, Hpng. }
  assert (Hrun : run_try env p self
                 = (Ok tt, emitted_with self
                      [Error (basename p +:+ " → " +:+ exn_str e)])).
  { pose proof (run_try_cases env p self) as H. by rewrite Hhere in H. }
  exists e. split; [exact Hhere|]. split; [exact Hrun|]. split; [done|].
  split.
  - unfold convert_io, save_with_metadata.
    destruct (src_size env); [|done].
    destruct (image_open env); [|done].
    by rewrite Hkeep, Hpng.
  - intros save size remove. rewrite Hrun.
    pose proof (run_try_cases (mkEnv (src_size env) (image_open env)
                  (existing env) save size remove (monotonic env)) p self) as H.
    by rewrite Hraise in H.
Qed.

Lemma metadata_requires_png_witness :
  run_try (ok_env 1000 400 (S754_zero false)) "in/scan.JPG" metadata_ctrl
  = (Ok tt, emitted_with metadata_ctrl [Error "scan.JPG → Workflow requires PNG"])
  /\ run_try undecodable_env "in/notes.txt" metadata_ctrl
     = (Ok tt, emitted_with metadata_ctrl
                 [Error "notes.txt → cannot identify image file 'in/notes.txt'"]).
Proof.
  split.
  - destruct (metadata_requires_png (ok_env 1000 400 (S754_zero false))
                "in/scan.JPG" metadata_ctrl eq_refl eq_refl)
      as (e & _ & Hrun & He & _).
    cbn in He. subst e. exact Hrun.
  - destruct (metadata_requires_png undecodable_env
                "in/notes.txt" metadata_ctrl eq_refl eq_refl)
      as (e & _ & Hrun & He & _).
    cbn in He. subst e. exact Hrun.
Defined.

(** ** Where the output goes *)

Lemma string_app_cons (x : ascii) (a b : string) :
  String x a +:+ b = String x (a +:+ b).
Proof. reflexivity. Qed.

Lemma string_app_assoc' (a b c : string) : (a +:+ b) +:+ c = a +:+ (b +:+ c).
Proof.
  induction a as [|x a IH]; [done|]. by rewrite !string_app_cons, IH.
Qed.

Lemma string_app_length (a b : string) :
  String.length (a +:+ b) = (String.length a + String.length b)%nat.
Proof.
  induction a as [|c a IH]; [done|]. rewrite string_app_cons. cbn.
  by rewrite IH.
Qed.

Lemma has_sep_app (a b : string) :
  has_sep (a +:+ b) = has_sep a || has_sep b.
Proof.
  induction a as [|c a IH]; [done|]. rewrite string_app_cons. cbn.
  rewrite IH. by rewrite orb_assoc.
Qed.

Lemma has_sep_basename (p : string) : has_sep (basename p) = false.
Proof.
  induction p as [|c r IH]; [done|]. cbn [basename].
  destruct (has_sep r) eqn:Hr; [exact IH|].
  destruct (is_sep c) eqn:Hc; [exact Hr|]. cbn. by rewrite Hc, Hr.
Qed.

Lemma has_sep_list (s : string) :
  has_sep s = existsb is_sep (String.list_ascii_of_string s).
Proof. induction s as [|c s IH]; cbn; [done|]. by rewrite IH. Qed.

Lemma existsb_take_false {A} (f : A -> bool) (l : list A) (k : nat) :
  existsb f l = false -> existsb f (take k l) = false.
Proof.
  revert k. induction l as [|x l IH]; intros [|k]; cbn; try done.
  intros [Hx Hl]%orb_false_iff. rewrite Hx. cbn. by apply IH.
Qed.

Lemma has_sep_splitext_root (name : string) :
  has_sep name = false -> has_sep (splitext_root name) = false.
Proof.
  intros Hname. unfold splitext_root.
  destruct (last_dot _) as [k|]; [|done].
  destruct (forallb _ _); [done|].
  rewrite has_sep_list, String.list_ascii_of_string_of_list_ascii.
  apply existsb_take_false. by rewrite <- has_sep_list.
Qed.

Lemma is_sep_digit (x : N) : is_sep (pretty_N_char x) = false.
Proof.
  destruct x as [|q]; [done|].
  do 4 (destruct q as [q|q|]; try done).
Qed.

Lemma has_sep_pretty_N_go (x : N) (s : string) :
  has_sep s = false -> has_sep (pretty_N_go x s) = false.
Proof.
  revert s. induction (N.lt_wf_0 x) as [x _ IH]; intros s Hs.
  destruct (decide (x = 0)%N) as [->|Hx].
  - by rewrite pretty_N_go_0.
  - rewrite pretty_N_go_step by lia. apply IH.
    + apply N.div_lt; lia.
    + cbn. by rewrite is_sep_digit, Hs.
Qed.

Lemma has_sep_pretty (j : nat) : has_sep (pretty j) = false.
Proof.
  unfold pretty, pretty_nat, pretty, pretty_N.
  destruct (decide _); [done|]. by apply has_sep_pretty_N_go.
Qed.

Lemma has_sep_candidate_name (base : string) (j : nat) :
  has_sep base = false -> has_sep (candidate_name base j) = false.
Proof.
  intros Hb. destruct j as [|j]; unfold candidate_name;
    rewrite ?has_sep_app, Hb, ?has_sep_pretty; done.
Qed.

Lemma no_sep_no_leading_sep (n : string) :
  has_sep n = false -> starts_with_sep n = false.
Proof. destruct n as [|c n]; cbn; [done|]. by intros [? _]%orb_false_iff. Qed.

Lemma basename_no_sep (n : string) : has_sep n = false -> basename n = n.
Proof.
  destruct n as [|c n]; cbn; [done|].
  intros [Hc Hn]%orb_false_iff. by rewrite Hn, Hc.
Qed.

Lemma basename_after_sep (d n : string) :
  has_sep n = false -> basename (d +:+ String "/" n) = n.
Proof.
  intros Hn. induction d as [|c d IH].
  - change ("" +:+ String "/" n) with (String "/" n). cbn. by rewrite Hn.
  - rewrite string_app_cons. cbn [basename].
    rewrite has_sep_app. cbn. by rewrite orb_true_r.
Qed.

Lemma ends_with_sep_split (d : string) :
  ends_with_sep d = true -> exists d', d = d' +:+ "/".
Proof.
  induction d as [|c d IH]; [done|]. destruct d as [|c' d].
  - cbn. unfold is_sep. intros ->%bool_decide_eq_true. by exists "".
  - intros H. destruct (IH H) as [d' Hd']. exists (String c d').
    rewrite string_app_cons. by rewrite <- Hd'.
Qed.

Lemma basename_path_join (d n : string) :
  has_sep n = false -> basename (path_join d n) = n.
Proof.
  intros Hn. unfold path_join. rewrite (no_sep_no_leading_sep n Hn).
  destruct (bool_decide_reflect (d = "")) as [->|_]; cbn [orb].
  - by apply basename_no_sep.
  - destruct (ends_with_sep d) eqn:Hd.
    + destruct (ends_with_sep_split d Hd) as [d' ->].
      rewrite string_app_assoc'. by apply basename_after_sep.
    + by apply basename_after_sep.
Qed.

Lemma substring_all (s : string) :
  String.substring 0 (String.length s) s = s.
Proof. induction s as [|c s IH]; cbn; [done|]. by rewrite IH. Qed.

Lemma substring_app_tail (a b : string) :
  String.substring (String.length a) (String.length b) (a +:+ b) = b.
Proof.
  induction a as [|c a IH]; [apply substring_all|].
  rewrite string_app_cons. exact IH.
Qed.

Lemma endswith_app (a b : string) : endswith (a +:+ b) b = true.
Proof.
  unfold endswith. rewrite string_app_length.
  replace (String.length a + String.length b - String.length b)%nat
    with (String.length a) by lia.
  rewrite substring_app_tail.
  apply andb_true_intro. split; [apply Nat.leb_le; lia|].
  by apply bool_decide_eq_true.
Qed.

Lemma candidate_name_webp (base : string) (j : nat) :
  exists pre, candidate_name base j = pre +:+ ".webp".
Proof.
  destruct j as [|j]; unfold candidate_name.
  - by exists base.
  - exists (base +:+ "_" +:+ pretty (S j)). by rewrite !string_app_assoc'.
Qed.

(** X4.  Where [os.path] is [posixpath] (Linux, macOS; the separator is
    ["/"], as in Part I, and nothing is said here of [ntpath], which joins
    with a backslash): whatever directories the source path goes through,
    the output of a task is written directly in the output directory.  Its
    path is the output directory, a ["/"] unless the directory is empty or
    ends in one, and a file name without any separator.  The name is the
    source's base name without its extension, followed by [.webp] or
    [_k.webp]; the path ends in [.webp] and is not among the paths that
    exist. *)
Theorem output_in_output_dir (env : Env) (self : JobController) (p : string) :
  let stem := splitext_root (basename p) in
  let out := output_path_of env self p in
  exists k,
    out = output_dir self
          +:+ (if bool_decide (output_dir self = "")
                  || ends_with_sep (output_dir self) then "" else "/")
          +:+ candidate_name stem k
    /\ has_sep (candidate_name stem k) = false
    /\ basename out = candidate_name stem k
    /\ endswith out ".webp" = true
    /\ (out ∉ existing env).
Proof.
  intros stem out.
  assert (Hstem : has_sep stem = false)
    by apply has_sep_splitext_root, has_sep_basename.
  destruct (resolve_name_loop_spec (existing env) (output_dir self) stem
              (resolve_name_fuel (existing env)) 0)
    as (k & _ & Hres & Hfree & _).
  { intros j Hj. lia. }
  { unfold resolve_name_fuel. lia. }
  assert (Hout : out = candidate (output_dir self) stem k).
  { unfold out, output_path_of, resolve_name, resolve_name_opt.
    fold stem.
    change (path_join _ (stem +:+ ".webp"))
      with (candidate (output_dir self) stem 0).
    by rewrite Hres. }
  pose proof (has_sep_candidate_name stem k Hstem) as Hname.
  exists k. rewrite Hout. split_and!.
  - unfold candidate, path_join.
    rewrite (no_sep_no_leading_sep _ Hname).
    by destruct (_ || _).
  - exact Hname.
  - by apply basename_path_join.
  - destruct (candidate_name_webp stem k) as [pre Hpre].
    unfold candidate, path_join. rewrite (no_sep_no_leading_sep _ Hname).
    rewrite Hpre.
    destruct (_ || _); rewrite <- ?string_app_assoc'; apply endswith_app.
  - exact Hfree.
Qed.

(** X5.  Names are handed out in increasing rank: once the path that
    [resolve_name] returned exists, and nothing that existed has gone,
    asking again for the same base name yields a candidate of strictly
    higher rank, hence a different path.  A second task with the same base
    name that asks after the first one has written its file does not
    overwrite it. *)
Theorem resolve_name_after_create (fs fs' : gset string)
    (self : JobController) (base : string) :
  fs ⊆ fs' ->
  resolve_name fs self base ∈ fs' ->
  exists k k', (k < k')%nat
    /\ resolve_name fs self base = candidate (output_dir self) base k
    /\ resolve_name fs' self base = candidate (output_dir self) base k'
    /\ resolve_name fs' self base <> resolve_name fs self base
    /\ (resolve_name fs' self base ∉ fs').
Proof.
  intros Hsub Hin.
  destruct (resolve_name_loop_spec fs (output_dir self) base
              (resolve_name_fuel fs) 0) as (k & _ & Hres & _ & Hall).
  { intros j Hj. lia. }
  { unfold resolve_name_fuel. lia. }
  destruct (resolve_name_loop_spec fs' (output_dir self) base
              (resolve_name_fuel fs') 0) as (k' & _ & Hres' & Hfree' & _).
  { intros j Hj. lia. }
  { unfold resolve_name_fuel. lia. }
  assert (H1 : resolve_name fs self base = candidate (output_dir self) base k).
  { unfold resolve_name, resolve_name_opt.
    change (path_join _ (base +:+ ".webp"))
      with (candidate (output_dir self) base 0).
    by rewrite Hres. }
  assert (H2 : resolve_name fs' self base
               = candidate (output_dir self) base k').
  { unfold resolve_name, resolve_name_opt.
    change (path_join _ (base +:+ ".webp"))
      with (candidate (output_dir self) base 0).
    by rewrite Hres'. }
  rewrite H1 in Hin.
  assert (Hlt : (k < k')%nat).
  { destruct (decide (k' < k)%nat) as [Hlow|Hge].
    - exfalso. apply Hfree'. apply Hsub, Hall, Hlow.
    - destruct (decide (k' = k)) as [->|]; [by exfalso; apply Hfree'|lia]. }
  exists k, k'. rewrite H1, H2. split_and!; try done.
  intros Heq%candidate_inj. lia.
Qed.

Lemma resolve_name_after_create_witness :
  resolve_name {[ "out/photo.webp"; "out/notes.txt" ]} demo_ctrl "photo"
  <> resolve_name ∅ demo_ctrl "photo".
Proof.
  destruct (resolve_name_after_create ∅
              {[ "out/photo.webp"; "out/notes.txt" ]} demo_ctrl "photo")
    as (k & k' & _ & _ & _ & Hne & _).
  - apply empty_subseteq.
  - vm_compute resolve_name. set_solver.
  - exact Hne.
Defined.

(** ** Pause and resume, under any schedule *)

Lemma run_step_paused (env : Env) (t t' : ConvertTask)
    (self self' : JobController) :
  run_step env t self = Some (t', self') -> paused self' = paused self.
Proof.
  destruct t as [p k]. unfold run_step. cbn [pc img_path].
  destruct k as [| | | |o wz at_pc|k]; try discriminate.
  - by intros [= <- <-].
  - destruct (paused self) eqn:Hp; [done|]. by intros [= <- <-].
  - destruct (cancelled self); by intros [= <- <-].
  - destruct (env_ok env); [|done].
    pose proof (convert_pure env p self) as Hpure.
    destruct (convert env p self) as [[sizes|e] self0]; cbn in Hpure;
      subst self0; by intros [= <- <-].
  - pose proof (tf_step_frame (monotonic env) o wz at_pc self)
      as (_ & _ & _ & Hp & _).
    destruct (tf_step (monotonic env) o wz at_pc self) as [[[next|]|e] self1];
      cbn in Hp; by intros [= <- <-].
Qed.

Lemma step_paused (a : action) (w w' : World) :
  step a w = Some w' -> is_resume a = false ->
  paused (ctrl w) = true -> paused (ctrl w') = true.
Proof.
  intros Hstep Ha Hp. destruct a as [| | | | |i env]; cbn in Hstep; try done.
  - destruct (start_at w); try done. by injection Hstep as <-.
  - unfold start_iter in Hstep.
    destruct (start_at w) as [|[|f rest]|]; try done.
    + by injection Hstep as <-.
    + destruct (cancelled (ctrl w)); by injection Hstep as <-.
  - by injection Hstep as <-.
  - by injection Hstep as <-.
  - apply step_task_inv in Hstep as (t & t' & self' & Hi & Hrun & ->).
    apply run_step_paused in Hrun. cbn. by rewrite Hrun.
Qed.

Lemma step_still_held (a : action) (w w' : World) :
  step a w = Some w' -> paused (ctrl w) = true -> still_held w w'.
Proof.
  intros Hstep Hp i t' Hi' Hold.
  destruct a as [| | | | |j env]; cbn in Hstep.
  - destruct (start_at w); try done. injection Hstep as <-. by apply Hold.
  - unfold start_iter in Hstep.
    destruct (start_at w) as [|[|f rest]|]; try done.
    + injection Hstep as <-. by apply Hold.
    + destruct (cancelled (ctrl w)); injection Hstep as <-; cbn in Hi'.
      * by apply Hold.
      * apply lookup_app_Some in Hi' as [Hi'|[_ Hi']]; [by apply Hold|].
        apply list_lookup_singleton_Some in Hi' as [_ <-]. done.
  - injection Hstep as <-. by apply Hold.
  - injection Hstep as <-. by apply Hold.
  - injection Hstep as <-. by apply Hold.
  - apply step_task_inv in Hstep as (t & tj' & self' & Hj & Hrun & ->).
    cbn in Hi'. destruct (decide (j = i)) as [->|Hne].
    + rewrite list_lookup_insert_eq in Hi' by (by eapply lookup_lt_Some).
      injection Hi' as ->. specialize (Hold t Hj).
      destruct t as [p k]. unfold held in Hold. unfold run_step in Hrun.
      cbn [pc img_path] in *.
      destruct k; try done.
      * by injection Hrun as <- _.
      * by rewrite Hp in Hrun.
    + rewrite list_lookup_insert_ne in Hi' by done. by apply Hold.
Qed.

Lemma still_held_trans (w w1 w' : World) :
  still_held w w1 -> still_held w1 w' -> still_held w w'.
Proof.
  intros H1 H2 i t' Hi' Hold. apply (H2 i t' Hi').
  intros t1 Hi1. by apply (H1 i t1 Hi1).
Qed.

(** X6.  While the job is paused and [resume()] is not called,
    [paused] stays set under any schedule of the caller and the workers,
    and no task gets past the wait at the head of [run]: a task that was
    queued or waiting, or that [start()] submits meanwhile, is still queued
    or waiting, and a waiting worker cannot move.  [cancel()] is among the
    calls that leave it waiting: it sets its flag without waking anyone.
    After [resume()], the next move of a waiting worker takes it to the
    cancel check. *)
Theorem pause_holds_tasks (acts : list action) (w w' : World) :
  paused (ctrl w) = true ->
  forallb (fun a => negb (is_resume a)) acts = true ->
  run_actions acts w = Some w' ->
  paused (ctrl w') = true
  /\ still_held w w'
  /\ (forall i t' env,
        tasks (pool w') !! i = Some t' -> pc t' = PauseWait ->
        step (TaskStep i env) w' = None
        /\ exists w'', run_actions [CallResume; TaskStep i env] w' = Some w''
             /\ tasks (pool w'') !! i = Some (mkTask (img_path t') CancelCheck)
             /\ paused (ctrl w'') = false).
Proof.
  intros Hp Hacts Hrun.
  assert (Hmain : paused (ctrl w') = true /\ still_held w w').
  { revert w Hp Hrun.
    induction acts as [|a acts IH]; intros w Hp Hrun; cbn in Hrun.
    - injection Hrun as <-. split; [done|]. intros i t' Hi Hold. by apply Hold.
    - cbn in Hacts. apply andb_true_iff in Hacts as [Ha Hacts].
      apply negb_true_iff in Ha.
      destruct (step a w) as [w1|] eqn:Hstep; [|done]. cbn in Hrun.
      pose proof (step_paused a w w1 Hstep Ha Hp) as Hp1.
      destruct (IH Hacts w1 Hp1 Hrun) as [Hp' Hheld].
      split; [done|].
      eapply still_held_trans; [|exact Hheld]. by eapply step_still_held. }
  destruct Hmain as [Hp' Hheld]. split; [done|]. split; [done|].
  intros i t' env Hi Hpc. split.
  - cbn. rewrite Hi. cbn. unfold run_step. by rewrite Hpc, Hp'.
  - eexists. cbn. rewrite Hi. cbn. unfold run_step. rewrite Hpc. cbn.
    split; [reflexivity|]. cbn.
    split; [|done].
    apply list_lookup_insert_eq. by eapply lookup_lt_Some.
Qed.

Lemma pause_holds_tasks_witness :
  paused (ctrl (world_after paused_job
                  [StartIter; CallCancel; TaskStep 1 env_b])) = true
  /\ step (TaskStep 0 env_a)
       (world_after paused_job [StartIter; CallCancel; TaskStep 1 env_b])
     = None.
Proof.
  destruct (pause_holds_tasks
              [StartIter; CallCancel; TaskStep 1 env_b]
              paused_job
              (world_after paused_job [StartIter; CallCancel; TaskStep 1 env_b])
              ltac:(vm_compute; reflexivity)
              ltac:(vm_compute; reflexivity)
              ltac:(vm_compute; reflexivity)) as (Hp & _ & Hwait).
  split; [exact Hp|].
  exact (proj1 (Hwait 0%nat (mkTask "in/a.png" PauseWait) env_a
                  ltac:(vm_compute; reflexivity) eq_refl)).
Defined.

(** ** The flags do not reach a task that is past its cancel check *)

Lemma convert_flags (env : Env) (p : string) (self : JobController)
    (c q : bool) :
  convert env p (with_flags self c q)
  = ((convert env p self).1, with_flags self c q).
Proof.
  unfold convert. unfold_method. cbn.
  change (resolve_name (existing env) (with_flags self c q))
    with (resolve_name (existing env) self).
  destruct (src_size env); cbn; [|done].
  destruct (image_open env); cbn; [|done].
  destruct (if keep_metadata self then _ else _); cbn; [|done].
  destruct (out_size env _) as [n|]; cbn; [|done].
  destruct (n <=? 0); cbn; [done|].
  destruct (delete_originals self); cbn; [|done].
  by destruct (safe_remove _ _ _).2.
Qed.

Lemma tf_step_flags (now : float) (orig webp : Z) (at_pc : tf_pc)
    (self : JobController) (c q : bool) :
  tf_step now orig webp at_pc (with_flags self c q)
  = ((tf_step now orig webp at_pc self).1,
     with_flags (tf_step now orig webp at_pc self).2 c q).
Proof.
  destruct at_pc; unfold tf_step; unfold_method; cbn;
    repeat match goal with
           | |- context [match ?r with Ok _ => _ | Raise _ => _ end] =>
               destruct r; cbn
           end; done.
Qed.

(** X7.  Once a task has passed its cancel check, neither [cancel()] nor
    [pause()] reaches it: every later move of its worker (the conversion,
    the deletion of the source, each step of [task_finished], the error
    report) is the same whatever the two flags are, and leaves them as
    they are.  A conversion in progress is never interrupted, and its
    result is counted and reported like any other. *)
Theorem flags_do_not_interrupt (env : Env) (t : ConvertTask)
    (self : JobController) (c q : bool) :
  before_checkpoint (pc t) = false ->
  run_step env t (with_flags self c q)
  = match run_step env t self with
    | Some (t', self') => Some (t', with_flags self' c q)
    | None => None
    end.
Proof.
  destruct t as [p k]. unfold run_step. cbn [pc img_path].
  destruct k as [| | | |o wz at_pc|k]; try discriminate; intros _.
  - destruct (env_ok env); [|done]. rewrite convert_flags.
    pose proof (convert_pure env p self) as Hpure.
    destruct (convert env p self) as [[sizes|e] self0]; cbn in *;
      by subst self0.
  - rewrite tf_step_flags.
    by destruct (tf_step (monotonic env) o wz at_pc self)
      as [[[next|]|e] self1].
  - done.
Qed.

Lemma flags_do_not_interrupt_witness :
  run_step (ok_env 1000 400 (secs 1)) (mkTask "in/photo.png" TryBlock)
           (with_flags demo_ctrl true true)
  = Some (mkTask "in/photo.png" (InFinished 1000 400 ReadCompleted),
          with_flags demo_ctrl true true).
Proof.
  rewrite (flags_do_not_interrupt (ok_env 1000 400 (secs 1))
             (mkTask "in/photo.png" TryBlock) demo_ctrl true true eq_refl).
  vm_compute. reflexivity.
Defined.

(** ** The counters, even when calls of [task_finished] overlap *)

Lemma n_stored_le (l : list ConvertTask) : (n_stored l <= length l)%nat.
Proof.
  unfold n_stored. induction l as [|t l IH]; cbn; [lia|].
  destruct (stored t); lia.
Qed.

Lemma n_stored_insert (l : list ConvertTask) (i : nat) (t t' : ConvertTask) :
  l !! i = Some t ->
  (n_stored (<[i:=t']> l) + (if stored t then 1 else 0)
   = n_stored l + (if stored t' then 1 else 0))%nat.
Proof.
  intros Hi. unfold n_stored.
  rewrite <- (take_drop_middle l i t Hi) at 2.
  rewrite insert_take_drop by (by eapply lookup_lt_Some).
  rewrite !sum_list_with_app. cbn. lia.
Qed.

Lemma pending_ok_mono (n n' : nat) (t : ConvertTask) :
  (n <= n')%nat -> pending_ok n t -> pending_ok n' t.
Proof.
  intros Hle. unfold pending_ok.
  destruct (pc t) as [| | | |o wz at_pc|k]; try done.
  destruct at_pc; try done. lia.
Qed.

(** One move of a worker: the store of line 168 is never undone, and the
    counters and the locals of the call stay within their bounds, [n]
    being the number of tasks (this one included) that have stored. *)
Lemma run_step_race (env : Env) (t t' : ConvertTask)
    (self self' : JobController) (n : nat) :
  run_step env t self = Some (t', self') ->
  0 <= completed self <= Z.of_nat n ->
  0 <= orig_bytes self -> 0 <= webp_bytes self ->
  pending_ok n t ->
  (stored t = true -> stored t' = true)
  /\ let n' := if stored t then n else if stored t' then S n else n in
     0 <= completed self' <= Z.of_nat n'
     /\ 0 <= orig_bytes self' /\ 0 <= webp_bytes self'
     /\ pending_ok n' t'.
Proof.
  intros Hrun Hc Ho Hw Hpend.
  destruct t as [p k]. unfold run_step in Hrun. unfold pending_ok, stored in *.
  cbn [pc img_path] in *.
  destruct k as [| | | |o wz at_pc|k]; try discriminate.
  - injection Hrun as <- <-. cbn. split_and!; (done || lia).
  - destruct (paused self); [done|]. injection Hrun as <- <-. cbn.
    split_and!; (done || lia).
  - destruct (cancelled self); injection Hrun as <- <-; cbn;
      split_and!; (done || lia).
  - destruct (env_ok env) eqn:Hok; [|done].
    pose proof (convert_pure env p self) as Hpure.
    pose proof (convert_sizes env p self) as Hsizes.
    destruct (convert env p self) as [[[o wz]|e] self0]; cbn in Hpure;
      subst self0; injection Hrun as <- <-; cbn.
    + destruct (Hsizes o wz eq_refl) as [Hsrc Hpos].
      unfold env_ok in Hok. rewrite Hsrc in Hok.
      apply Z.leb_le in Hok. split_and!; (done || lia).
    + split_and!; (done || lia).
  - destruct Hpend as (Hpo & Hpw & Hpend).
    destruct at_pc; unfold tf_step in Hrun; unfold_method; cbn in Hrun;
      repeat match type of Hrun with
             | context [match ?r with Ok _ => _ | Raise _ => _ end] =>
                 destruct r; cbn in Hrun
             | context [if ?b then _ else _] => destruct b; cbn in Hrun
             end;
      injection Hrun as <- <-; cbn; split_and!; (done || lia).
Qed.

Lemma init_race_inv (w0 : World) : initial w0 -> race_inv w0.
Proof.
  intros (fl & dir & q & km & del & mw & now & [= <-]).
  unfold race_inv. cbn. split_and!; (lia || constructor).
Qed.

Lemma step_race_inv (a : action) (w w' : World) :
  race_inv w -> step a w = Some w' -> race_inv w'.
Proof.
  intros (Hc & Ho & Hw & Hall) Hstep.
  destruct a as [| | | | |i env]; cbn in Hstep.
  - destruct (start_at w); try done. by injection Hstep as <-.
  - unfold start_iter in Hstep.
    destruct (start_at w) as [|[|f rest]|]; try done.
    + by injection Hstep as <-.
    + destruct (cancelled (ctrl w)); injection Hstep as <-; [done|].
      unfold race_inv. cbn -[n_stored].
      assert (Hn : n_stored (tasks (pool w) ++ [mkTask f Queued])
                   = n_stored (tasks (pool w))).
      { unfold n_stored. rewrite sum_list_with_app. cbn. lia. }
      rewrite Hn. split; [exact Hc|]. split; [exact Ho|]. split; [exact Hw|].
      apply Forall_app. split; [done|]. by constructor.
  - by injection Hstep as <-.
  - by injection Hstep as <-.
  - by injection Hstep as <-.
  - apply step_task_inv in Hstep as (t & t' & self' & Hi & Hrun & ->).
    pose proof (proj1 (Forall_lookup _ _) Hall i t Hi) as Hpend.
    destruct (run_step_race env t t' (ctrl w) self' _ Hrun Hc Ho Hw Hpend)
      as (Hmono & Hc' & Ho' & Hw' & Hpend').
    pose proof (n_stored_insert (tasks (pool w)) i t t' Hi) as Hn.
    unfold race_inv. cbn -[n_stored].
    set (n := n_stored (tasks (pool w))) in *.
    set (m := n_stored (<[i:=t']> (tasks (pool w)))) in *.
    assert (Hm : m = if stored t then n else if stored t' then S n else n).
    { destruct (stored t), (stored t'); try lia. }
    rewrite <- Hm in Hc', Hpend'.
    split; [exact Hc'|]. split; [exact Ho'|]. split; [exact Hw'|].
    apply Forall_insert; [|done].
    eapply Forall_impl; [exact Hall|].
    intros x. apply pending_ok_mono.
    destruct (stored t), (stored t'); lia.
Qed.

Lemma run_actions_race_inv (acts : list action) (w w' : World) :
  race_inv w -> run_actions acts w = Some w' -> race_inv w'.
Proof.
  revert w. induction acts as [|a acts IH]; intros w Hinv Hrun; cbn in Hrun.
  - by injection Hrun as <-.
  - destruct (step a w) as [w1|] eqn:Hstep; [|done]. cbn in Hrun.
    eapply IH; [|exact Hrun]. by eapply step_race_inv.
Qed.

(** X8.  Overlapping calls of [task_finished] can lose updates, but they
    never make a counter run away: in every state that a job reaches,
    under any schedule, [completed] is at least 0 and at most the number of
    tasks that have executed the store of line 168, which is at most the
    number of tasks submitted and so at most [total]; and the two byte
    counters are never negative. *)
Theorem counters_bounded_under_races (w : World) :
  reachable w ->
  0 <= completed (ctrl w) <= Z.of_nat (n_stored (tasks (pool w)))
  /\ Z.of_nat (n_stored (tasks (pool w)))
     <= Z.of_nat (length (tasks (pool w))) <= total (ctrl w)
  /\ 0 <= orig_bytes (ctrl w)
  /\ 0 <= webp_bytes (ctrl w).
Proof.
  intros Hreach.
  pose proof (reachable_inv w Hreach) as Hjob.
  pose proof (job_inv_bound w Hjob) as Hlen.
  destruct Hjob as [Htot _].
  destruct Hreach as (w0 & acts & Hinit & Hrun).
  destruct (run_actions_race_inv acts w0 w (init_race_inv w0 Hinit) Hrun)
    as (Hc & Ho & Hw & _).
  pose proof (n_stored_le (tasks (pool w))) as Hn.
  split_and!; lia.
Qed.

Lemma counters_bounded_under_races_witness :
  0 <= completed (ctrl (world_after four_w0 lost_update_all)) <= 4.
Proof.
  assert (Hreach : reachable (world_after four_w0 lost_update_all)).
  { exists four_w0, lost_update_all. split.
    - by exists four_files, "out"%string, 87, false, false, 2, (secs 100).
    - vm_compute. reflexivity. }
  destruct (counters_bounded_under_races _ Hreach) as (Hc & Hn & _).
  change (total (ctrl (world_after four_w0 lost_update_all))) with 4 in Hn.
  lia.
Defined.

(** ** Error reports, under any schedule *)

Lemma n_failed_insert (l : list ConvertTask) (i : nat) (t t' : ConvertTask) :
  l !! i = Some t ->
  (n_failed (<[i:=t']> l) + (if failed t then 1 else 0)
   = n_failed l + (if failed t' then 1 else 0))%nat.
Proof.
  intros Hi. unfold n_failed.
  rewrite <- (take_drop_middle l i t Hi) at 2.
  rewrite insert_take_drop by (by eapply lookup_lt_Some).
  rewrite !sum_list_with_app. cbn. lia.
Qed.

Lemma tf_step_errors (now : float) (orig webp : Z) (at_pc : tf_pc)
    (self : JobController) :
  error_signals (emitted (tf_step now orig webp at_pc self).2)
  = error_signals (emitted self).
Proof.
  unfold error_signals.
  destruct at_pc; unfold tf_step; unfold_method; cbn;
    repeat match goal with
           | |- context [match ?r with Ok _ => _ | Raise _ => _ end] =>
               destruct r; cbn
           end;
    rewrite ?List.filter_app, ?app_nil_r; cbn; rewrite ?app_nil_r; done.
Qed.

(** A move of a worker emits [error] exactly when it is the move into the
    [except] handler, and a task that has failed does not move again. *)
Lemma run_step_errors (env : Env) (t t' : ConvertTask)
    (self self' : JobController) :
  run_step env t self = Some (t', self') ->
  failed t = false
  /\ img_path t' = img_path t
  /\ ((failed t' = false
       /\ error_signals (emitted self') = error_signals (emitted self))
      \/ (failed t' = true
          /\ exists e, error_signals (emitted self')
                       = error_signals (emitted self)
                         ++ [Error (error_message (img_path t') e)])).
Proof.
  destruct t as [p k]. unfold run_step, failed. cbn [pc img_path].
  destruct k as [| | | |o wz at_pc|k]; try discriminate.
  - intros [= <- <-]. split_and!; try done. by left.
  - destruct (paused self); [done|]. intros [= <- <-].
    split_and!; try done. by left.
  - destruct (cancelled self); intros [= <- <-]; split_and!; try done;
      by left.
  - destruct (env_ok env); [|done].
    pose proof (convert_pure env p self) as Hpure.
    destruct (convert env p self) as [[sizes|e] self0]; cbn in Hpure;
      subst self0; intros [= <- <-]; cbn; split_and!; try done.
    + by left.
    + right. split; [done|]. exists e.
      unfold error_signals. by rewrite List.filter_app.
  - pose proof (tf_step_errors (monotonic env) o wz at_pc self) as Herr.
    destruct (tf_step (monotonic env) o wz at_pc self) as [[[next|]|e] self1];
      cbn in Herr; intros [= <- <-]; cbn; split_and!; try done.
    + by left.
    + by left.
    + right. split; [done|]. exists e.
      unfold error_signals in *. by rewrite List.filter_app, Herr.
Qed.

Lemma step_error_inv (a : action) (w w' : World) :
  error_inv w -> step a w = Some w' -> error_inv w'.
Proof.
  intros [Hlen Hrep] Hstep.
  destruct a as [| | | | |i env]; cbn in Hstep.
  - destruct (start_at w); try done. by injection Hstep as <-.
  - unfold start_iter in Hstep.
    destruct (start_at w) as [|[|f rest]|]; try done.
    + by injection Hstep as <-.
    + destruct (cancelled (ctrl w)); injection Hstep as <-; [done|].
      split; cbn.
      * unfold n_failed in *. rewrite sum_list_with_app. cbn. lia.
      * eapply Forall_impl; [exact Hrep|]. cbn.
        intros s Hs msg ->. destruct (Hs msg eq_refl) as (i & t & e & Hi & Hf & ->).
        exists i, t, e. split_and!; try done.
        by apply lookup_app_l_Some.
  - by injection Hstep as <-.
  - by injection Hstep as <-.
  - by injection Hstep as <-.
  - apply step_task_inv in Hstep as (t & t' & self' & Hi & Hrun & ->).
    destruct (run_step_errors env t t' (ctrl w) self' Hrun)
      as (Hft & Hpath & Hcase).
    pose proof (n_failed_insert (tasks (pool w)) i t t' Hi) as Hn.
    rewrite Hft in Hn.
    assert (Hold : Forall (fun s => forall msg, s = Error msg ->
                     exists j tj e,
                       <[i:=t']> (tasks (pool w)) !! j = Some tj
                       /\ failed tj = true
                       /\ msg = error_message (img_path tj) e)
                     (error_signals (emitted (ctrl w)))).
    { eapply Forall_impl; [exact Hrep|]. cbn.
      intros s Hs msg ->.
      destruct (Hs msg eq_refl) as (j & tj & e & Hj & Hf & ->).
      exists j, tj, e. split_and!; try done.
      rewrite list_lookup_insert_ne; [done|].
      intros ->. rewrite Hi in Hj. injection Hj as <-. congruence. }
    unfold error_inv, reported_by_failed. cbn -[n_failed error_signals].
    destruct Hcase as [[Hf' ->]|[Hf' [e ->]]]; rewrite Hf' in Hn.
    + split; [lia|exact Hold].
    + split; [rewrite length_app; cbn; lia|].
      apply Forall_app. split; [exact Hold|].
      constructor; [|constructor].
      intros msg [= <-]. exists i, t', e. split_and!; try done.
      apply list_lookup_insert_eq. by eapply lookup_lt_Some.
Qed.

Lemma run_actions_error_inv (acts : list action) (w w' : World) :
  error_inv w -> run_actions acts w = Some w' -> error_inv w'.
Proof.
  revert w. induction acts as [|a acts IH]; intros w Hinv Hrun; cbn in Hrun.
  - by injection Hrun as <-.
  - destruct (step a w) as [w1|] eqn:Hstep; [|done]. cbn in Hrun.
    eapply IH; [|exact Hrun]. by eapply step_error_inv.
Qed.

(** X9.  Under any schedule, overlapping calls included, the [error]
    signals emitted so far are one per task whose [run] ended in its
    [except] handler: there are as many of them as there are such tasks,
    and each carries the base name of the source of one of these tasks,
    an arrow, and the text of an exception.  A task that returns at the
    cancel check or completes reports no error, and no task reports
    twice. *)
Theorem errors_one_per_failed_task (w : World) :
  reachable w ->
  length (error_signals (emitted (ctrl w))) = n_failed (tasks (pool w))
  /\ (forall msg, Error msg ∈ emitted (ctrl w) ->
        exists i t e, tasks (pool w) !! i = Some t
          /\ failed t = true
          /\ msg = basename (img_path t) +:+ " → " +:+ exn_str e).
Proof.
  intros (w0 & acts & Hinit & Hrun).
  assert (Hinv0 : error_inv w0).
  { destruct Hinit as (fl & dir & q & km & del & mw & now & [= <-]).
    split; [done|]. constructor. }
  destruct (run_actions_error_inv acts w0 w Hinv0 Hrun) as [Hlen Hrep].
  split; [exact Hlen|].
  intros msg Hin.
  assert (Hin' : Error msg ∈ error_signals (emitted (ctrl w))).
  { unfold error_signals. apply list_elem_of_In, filter_In.
    split; [by apply list_elem_of_In|done]. }
  exact (proj1 (Forall_forall _ _) Hrep _ Hin' msg eq_refl).
Qed.

Lemma errors_one_per_failed_task_witness :
  error_signals (emitted (ctrl one_failure)) = [Error "b.png → Empty WEBP"]
  /\ n_failed (tasks (pool one_failure)) = 1%nat.
Proof.
  assert (Hreach : reachable one_failure).
  { exists four_w0,
      (four_dispatch ++ whole_run 0 env_a
       ++ moves 4 1 (empty_output_env 200 (secs 102))).
    split.
    - by exists four_files, "out"%string, 87, false, false, 2, (secs 100).
    - vm_compute. reflexivity. }
  split; [vm_compute; reflexivity|].
  rewrite <- (proj1 (errors_one_per_failed_task one_failure Hreach)).
  vm_compute. reflexivity.
Defined.

(** ** The workflow filter *)

Lemma dict_get_set_eq (m : list (string * json)) (key : string) (v : json) :
  dict_get (dict_set m key v) key = Some v.
Proof.
  induction m as [|[k old] m IH]; cbn.
  - by rewrite String.eqb_refl.
  - destruct (String.eqb k key) eqn:Hk; cbn; by rewrite Hk.
Qed.

Lemma dict_get_set_ne (m : list (string * json)) (key key' : string) (v : json) :
  key' <> key -> dict_get (dict_set m key v) key' = dict_get m key'.
Proof.
  intros Hne. induction m as [|[k old] m IH]; cbn.
  - destruct (String.eqb_spec key key'); [congruence|done].
  - destruct (String.eqb_spec k key) as [->|Hk]; cbn.
    + destruct (String.eqb_spec key key'); [congruence|done].
    + destruct (String.eqb k key'); [done|exact IH].
Qed.

Lemma dict_set_again (m : list (string * json)) (key : string) (v : json) :
  dict_set (dict_set m key v) key v = dict_set m key v.
Proof.
  induction m as [|[k old] m IH]; cbn.
  - by rewrite String.eqb_refl.
  - destruct (String.eqb k key) eqn:Hk; cbn; rewrite Hk; [done|].
    by rewrite IH.
Qed.

Lemma dict_set_keys (m : list (string * json)) (key : string) (v : json) :
  (dict_set m key v).*1
  = match dict_get m key with
    | Some _ => m.*1
    | None => m.*1 ++ [key]
    end.
Proof.
  induction m as [|[k old] m IH]; cbn; [done|].
  destruct (String.eqb k key) eqn:Hk; cbn; [done|].
  rewrite IH. by destruct (dict_get m key).
Qed.

(** The comprehension: it needs every element to be an object, and then
    keeps, in order, those that are not [LoraInfo] nodes. *)
Lemma keep_nodes_spec (items : list json) :
  match keep_nodes items with
  | Ok kept =>
      forallb is_dict items = true
      /\ kept = List.filter (fun n => negb (lora_node n)) items
  | Raise e =>
      exists n, n ∈ items /\ is_dict n = false /\ e = AttributeError n
  end.
Proof.
  induction items as [|n items IH]; cbn; [done|].
  destruct n as [| | | | | |m]; cbn;
    try (eexists; split; [apply list_elem_of_here|done]).
  destruct (keep_nodes items) as [kept|e]; cbn.
  - destruct IH as [Hall ->]. split; [done|].
    by destruct (is_LoraInfo _).
  - destruct IH as (n & Hin & Hn & ->). exists n.
    split; [by apply list_elem_of_further|done].
Qed.

Lemma filter_kept_again (items : list json) :
  forallb is_dict items = true ->
  keep_nodes (List.filter (fun n => negb (lora_node n)) items)
  = Ok (List.filter (fun n => negb (lora_node n)) items).
Proof.
  induction items as [|n items IH]; cbn; [done|].
  intros [Hn Hall]%andb_true_iff.
  destruct (lora_node n) eqn:Hl; cbn; [by apply IH|].
  destruct n as [| | | | | |m]; try done. cbn in *.
  rewrite (IH Hall). cbn. by rewrite Hl.
Qed.

(** X10.  When the filter of the workflow succeeds, the workflow was a JSON
    object whose ["nodes"] (an empty list when absent) could be iterated
    and held only objects; the result is the same object with ["nodes"]
    set to the list of those nodes whose ["type"] is not the string
    ["LoraInfo"], in their order.  Every other member is as it was, the
    keys keep their order (a missing ["nodes"] goes to the end), no node
    of type [LoraInfo] is left, and filtering the result again changes
    nothing. *)
Theorem strip_lora_spec (data data' : json) :
  strip_lora data = Ok data' ->
  exists members items,
    data = JDict members
    /\ py_iter (default (JList []) (dict_get members "nodes")) = Ok items
    /\ forallb is_dict items = true
    /\ let kept := List.filter (fun n => negb (lora_node n)) items in
       data' = JDict (dict_set members "nodes" (JList kept))
       /\ py_get data' "nodes" JNull = Ok (JList kept)
       /\ (forall key, key <> "nodes" ->
             py_get data' key JNull = py_get data key JNull)
       /\ (dict_set members "nodes" (JList kept)).*1
          = match dict_get members "nodes" with
            | Some _ => members.*1
            | None => members.*1 ++ ["nodes"]
            end
       /\ existsb lora_node kept = false
       /\ strip_lora data' = Ok data'.
Proof.
  unfold strip_lora.
  destruct data as [| | | | | |m]; try done. cbn.
  destruct (py_iter _) as [items|e] eqn:Hiter; cbn; [|done].
  pose proof (keep_nodes_spec items) as Hkeep.
  destruct (keep_nodes items) as [kept|e]; cbn; [|done].
  destruct Hkeep as [Hall ->]. intros [= <-].
  exists m, items. split; [done|]. split; [done|]. split; [done|].
  cbn zeta. split; [done|]. cbn.
  rewrite dict_get_set_eq. cbn. split; [done|]. split.
  { intros key Hne. by rewrite dict_get_set_ne. }
  split; [apply dict_set_keys|]. split.
  { clear. induction items as [|n items IH]; cbn; [done|].
    destruct (lora_node n) eqn:Hl; cbn; [done|]. by rewrite Hl. }
  rewrite (filter_kept_again items Hall). cbn.
  by rewrite dict_set_again.
Qed.

Lemma strip_lora_spec_witness :
  strip_lora demo_workflow
  = Ok (JDict [("version", JInt 1);
               ("nodes", JList [JDict [("id", JInt 1);
                                       ("type", JStr "KSampler")]])])
  /\ strip_lora
       (JDict [("version", JInt 1);
               ("nodes", JList [JDict [("id", JInt 1);
                                       ("type", JStr "KSampler")]])])
     = Ok (JDict [("version", JInt 1);
                  ("nodes", JList [JDict [("id", JInt 1);
                                          ("type", JStr "KSampler")]])]).
Proof.
  split; [reflexivity|].
  destruct (strip_lora_spec demo_workflow _ eq_refl)
    as (m & items & _ & _ & _ & _ & _ & _ & _ & _ & Hagain).
  exact Hagain.
Defined.

(** X11.  The filter is all or nothing.  If the text is not JSON, or is
    not a JSON object, or its ["nodes"] cannot be iterated, or any one of
    the nodes is not an object, or the result cannot be serialized, the
    exception is swallowed and tag [0x010e] is set to the original text
    behind ["Workflow:"], with every [LoraInfo] node still in it: a
    non-empty workflow is never dropped for such a failure.  Without a
    workflow, or with an empty one, the EXIF data of the source go to the
    encoder as they are, a description that the source already has
    included.  In every case all the other tags are those of the source. *)
Theorem workflow_filter_all_or_nothing
    (loads : string -> result json) (dumps : json -> result string)
    (tag_value : Type) (str_value : string -> tag_value)
    (exif : gmap Z tag_value) (workflow : string) :
  workflow <> "" ->
  (forall s, filter_workflow loads dumps workflow = s ->
     s = workflow
     \/ exists data data', loads workflow = Ok data
          /\ strip_lora data = Ok data' /\ dumps data' = Ok s)
  /\ ((forall data, loads workflow = Ok data ->
         is_dict data = false
         \/ (exists e, py_iter (default (JList [])
                                  match data with
                                  | JDict m => dict_get m "nodes"
                                  | _ => None
                                  end) = Raise e)
         \/ (exists items n,
               py_iter (default (JList [])
                          match data with
                          | JDict m => dict_get m "nodes"
                          | _ => None
                          end) = Ok items
               /\ n ∈ items /\ is_dict n = false)
         \/ (exists data' e, strip_lora data = Ok data'
               /\ dumps data' = Raise e)) ->
      filter_workflow loads dumps workflow = workflow
      /\ exif_after loads dumps tag_value str_value exif (Some workflow)
         = <[ImageDescription := str_value ("Workflow:" +:+ workflow)]> exif)
  /\ exif_after loads dumps tag_value str_value exif None = exif
  /\ exif_after loads dumps tag_value str_value exif (Some "") = exif
  /\ (forall info tag, tag <> ImageDescription ->
        exif_after loads dumps tag_value str_value exif info !! tag
        = exif !! tag).
Proof.
  intros Hne. split; [|split; [|split; [done|split; [done|]]]].
  - intros s <-. unfold filter_workflow.
    destruct (loads workflow) as [data|e] eqn:Hl; cbn; [|by left].
    destruct (strip_lora data) as [data'|e] eqn:Hs; cbn; [|by left].
    destruct (dumps data') as [s|e] eqn:Hd; cbn; [|by left].
    right. by exists data, data'.
  - intros Hfail.
    assert (Hsame : filter_workflow loads dumps workflow = workflow).
    { unfold filter_workflow.
      destruct (loads workflow) as [data|e]; cbn; [|done].
      destruct (Hfail data eq_refl)
        as [Hd|[[e He]|[(items & n & Hit & Hin & Hn)|(data' & e & Hs & Hd)]]].
      - destruct data; try done.
      - destruct data as [| | | | | |m]; try done.
        unfold strip_lora. cbn. by rewrite He.
      - destruct data as [| | | | | |m]; try done.
        unfold strip_lora. cbn. rewrite Hit. cbn.
        pose proof (keep_nodes_spec items) as Hkeep.
        destruct (keep_nodes items) as [kept|e]; cbn; [|done].
        destruct Hkeep as [Hall _].
        rewrite forallb_forall in Hall.
        apply list_elem_of_In in Hin. apply Hall in Hin. congruence.
      - rewrite Hs. cbn. by rewrite Hd. }
    split; [exact Hsame|].
    unfold exif_after. rewrite Hsame.
    destruct (String.eqb_spec workflow ""); [done|]. done.
  - intros info tag Htag. unfold exif_after.
    destruct info as [w|]; [|done].
    destruct (negb (String.eqb w "")); [|done].
    destruct (negb (String.eqb _ "")); [|done].
    by rewrite lookup_insert_ne.
Qed.

Lemma workflow_filter_all_or_nothing_witness :
  exif_after demo_loads demo_dumps string id demo_exif (Some "broken")
  = <[270 := "Workflow:broken"]> demo_exif
  /\ exif_after demo_loads demo_dumps string id demo_exif (Some "broken")
       !! 305 = Some "ComfyUI"
  /\ exif_after demo_loads demo_dumps string id demo_exif None !! 270
     = Some "a caption"
  /\ exif_after demo_loads demo_dumps string id demo_exif (Some "good") !! 270
     = Some "Workflow:KSampler".
Proof.
  destruct (workflow_filter_all_or_nothing demo_loads demo_dumps string id
              demo_exif "broken" ltac:(done))
    as (_ & Hfail & Hnone & _ & Hother).
  split_and!.
  - apply Hfail. intros data [= <-]. right. right. left.
    exists [JDict [("id", JInt 2); ("type", JStr "LoraInfo")]; JInt 7],
      (JInt 7).
    split; [reflexivity|]. split; [|reflexivity].
    apply list_elem_of_further, list_elem_of_here.
  - rewrite (Hother (Some "broken") 305 ltac:(done)). reflexivity.
  - rewrite Hnone. reflexivity.
  - vm_compute. reflexivity.
Defined.

(** ** The window *)

Example dirname_examples :
  dirname "/in/a.png" = "/in" /\ dirname "a.png" = ""
  /\ dirname "/a.png" = "/" /\ dirname "//a.png" = "//"
  /\ dirname "in//sub/a.png" = "in//sub" /\ dirname "in/" = "in".
Proof. vm_compute. by repeat split. Qed.

Lemma on_ctrl_snoc (a : action) (l : list World) (w : World) :
  on_ctrl a (l ++ [w]) = l ++ [default w (step a w)].
Proof.
  unfold on_ctrl. rewrite last_snoc, length_app. cbn.
  replace (pred (length l + 1)) with (length l + 0)%nat by lia.
  by rewrite insert_app_r.
Qed.

Lemma tf_step_output_dir (now : float) (orig webp : Z) (at_pc : tf_pc)
    (self : JobController) :
  output_dir (tf_step now orig webp at_pc self).2 = output_dir self.
Proof.
  destruct at_pc; unfold tf_step; unfold_method; cbn;
    repeat match goal with
           | |- context [match ?r with Ok _ => _ | Raise _ => _ end] =>
               destruct r; cbn
           end; done.
Qed.

Lemma run_step_output_dir (env : Env) (t t' : ConvertTask)
    (self self' : JobController) :
  run_step env t self = Some (t', self') -> output_dir self' = output_dir self.
Proof.
  destruct t as [p k]. unfold run_step. cbn [pc img_path].
  destruct k as [| | | |o wz at_pc|k]; try discriminate.
  - by intros [= <- <-].
  - destruct (paused self); [done|]. by intros [= <- <-].
  - destruct (cancelled self); by intros [= <- <-].
  - destruct (env_ok env); [|done].
    pose proof (convert_pure env p self) as Hpure.
    destruct (convert env p self) as [[sizes|e] self0]; cbn in Hpure;
      subst self0; by intros [= <- <-].
  - pose proof (tf_step_output_dir (monotonic env) o wz at_pc self) as Hd.
    destruct (tf_step (monotonic env) o wz at_pc self) as [[[next|]|e] self1];
      cbn in Hd; by intros [= <- <-].
Qed.

(** What the calls made while a job runs leave as it is. *)
Lemma step_keeps_job (a : action) (w w' : World) :
  match a with CallStart | StartIter => False | _ => True end ->
  step a w = Some w' ->
  (started_ok w -> started_ok w')
  /\ (is_resume a = false -> paused (ctrl w') = paused (ctrl w)
                             \/ (a = CallPause /\ paused (ctrl w') = true))
  /\ (match a with TaskStep _ _ => True | _ => False end ->
      cancelled (ctrl w') = cancelled (ctrl w)
      /\ paused (ctrl w') = paused (ctrl w)).
Proof.
  intros Ha Hstep. destruct a as [| | | | |i env]; try done;
    cbn in Hstep.
  - injection Hstep as <-. split_and!; try done. intros _. by right.
  - injection Hstep as <-. split_and!; try done.
  - injection Hstep as <-. split_and!; try done. intros _. by left.
  - apply step_task_inv in Hstep as (t & t' & self' & Hi & Hrun & ->).
    pose proof (run_step_paused _ _ _ _ _ Hrun) as Hp.
    pose proof (run_step_output_dir _ _ _ _ _ Hrun) as Hd.
    apply run_step_frame in Hrun as (Hpath & Hf & Ht & Hc & _).
    split_and!; cbn; try done; [|by left].
    intros (H1 & H2 & H3 & H4 & H5). unfold started_ok, task_paths in *.
    cbn. rewrite Hf, Hd, Ht, (paths_insert _ i t t' Hi Hpath). done.
Qed.

Lemma start_started_ok (fl : list string) (dir : string) (q : Z)
    (km del : bool) (mw : Z) (now : float) (w : World) :
  fl <> [] -> dir <> "" ->
  init fl dir q km del mw now = Ok w ->
  started_ok (start w)
  /\ cancelled (ctrl (start w)) = false /\ paused (ctrl (start w)) = false.
Proof.
  intros Hfl Hdir [= <-]. unfold started_ok, start, task_paths. cbn.
  rewrite start_loop_spec. cbn.
  split_and!; try done.
  rewrite <- list_fmap_compose. apply list_fmap_id.
Qed.

Lemma ready_spec (u : ImageConverter) :
  ready u = true ->
  exists f fs d, ui_files u = Some (f :: fs) /\ ui_output_dir u = Some d
                 /\ d <> "".
Proof.
  unfold ready. destruct (ui_files u) as [[|f fs]|]; try done.
  destruct (ui_output_dir u) as [d|]; try done.
  intros Hd%negb_true_iff. exists f, fs, d. split_and!; try done.
  intros ->. done.
Qed.

(** The slots of the three job buttons do nothing more when run again. *)
Lemma pause_slot_again (u : ImageConverter) :
  pause_slot (pause_slot u) = pause_slot u.
Proof.
  unfold pause_slot.
  destruct (last (ctrls u)) as [w|] eqn:Hlast; [|by rewrite Hlast].
  apply last_Some in Hlast as [l Hl]. cbn. rewrite Hl, on_ctrl_snoc.
  rewrite last_snoc. cbn. by rewrite on_ctrl_snoc.
Qed.

Lemma resume_slot_again (u : ImageConverter) :
  resume_slot (resume_slot u) = resume_slot u.
Proof.
  unfold resume_slot.
  destruct (last (ctrls u)) as [w|] eqn:Hlast; [|by rewrite Hlast].
  apply last_Some in Hlast as [l Hl]. cbn. rewrite Hl, on_ctrl_snoc.
  rewrite last_snoc. cbn. by rewrite on_ctrl_snoc.
Qed.

Lemma cancel_slot_again (u : ImageConverter) :
  cancel_slot (cancel_slot u) = cancel_slot u.
Proof.
  unfold cancel_slot.
  destruct (last (ctrls u)) as [w|] eqn:Hlast; [|by rewrite Hlast].
  apply last_Some in Hlast as [l Hl]. cbn. rewrite Hl, on_ctrl_snoc.
  rewrite last_snoc. cbn. by rewrite on_ctrl_snoc.
Qed.

Lemma iter_again {A} (f : A -> A) (x : A) (n : nat) :
  f (f x) = f x -> Nat.iter (S n) f x = f x.
Proof.
  intros Hf. induction n as [|n IH]; [done|].
  change (Nat.iter (S (S n)) f x) with (f (Nat.iter (S n) f x)).
  by rewrite IH.
Qed.

Lemma slots_run_again (u : ImageConverter) :
  clicked pause_slot u = pause_slot u
  /\ clicked resume_slot u = resume_slot u
  /\ clicked cancel_slot u = cancel_slot u.
Proof.
  unfold clicked. split_and!.
  - apply iter_again, pause_slot_again.
  - apply iter_again, resume_slot_again.
  - apply iter_again, cancel_slot_again.
Qed.

(** X12.  [select_output] connects [pause], [resume] and [cancel] to their
    buttons once more every time it runs (lines 320-322), so that a click
    runs the slot several times in a row.  This changes nothing: each of
    the three slots, run again, leaves the window and the controller as
    its first run left them. *)
Theorem duplicate_connections_harmless (u : ImageConverter) :
  clicked pause_slot u = pause_slot u
  /\ clicked resume_slot u = resume_slot u
  /\ clicked cancel_slot u = cancel_slot u
  /\ extra_connections (select_output "" u) = S (extra_connections u).
Proof.
  unfold clicked. split_and!.
  - apply iter_again, pause_slot_again.
  - apply iter_again, resume_slot_again.
  - apply iter_again, cancel_slot_again.
  - reflexivity.
Qed.

Lemma Forall_snoc_inv {A} (P : A -> Prop) (l : list A) (x : A) :
  Forall P (l ++ [x]) -> Forall P l /\ P x.
Proof.
  intros [Hl Hx]%Forall_app. split; [done|]. by inversion Hx.
Qed.

Lemma ui_init_inv (q wk : Z) (km del : bool) : ui_inv (ui_init q wk km del).
Proof. split; cbn; try done. Qed.

Lemma ui_step_inv (ev : ui_event) (u u' : ImageConverter) :
  ui_inv u -> ui_step ev u = Some u' -> ui_inv u'.
Proof.
  intros [Hready Hpr Hcan Hrun Hall] Hstep.
  assert (Hidle : btn_files u = true \/ btn_output u = true
                  \/ btn_start u = true ->
                  btn_cancel u = false /\ btn_pause u = false
                  /\ btn_resume u = false).
  { intros Hb. destruct (btn_cancel u) eqn:Hc.
    - destruct (Hrun eq_refl) as (H1 & H2 & H3 & _).
      rewrite H1, H2, H3 in Hb. by destruct Hb as [?|[?|?]].
    - destruct (btn_pause u), (btn_resume u); try done;
        by specialize (Hcan eq_refl). }
  destruct ev as [picked|picked|now| | | |k|q wk km del|k i env];
    cbn -[clicked step] in Hstep.
  - (* ClickFiles *)
    destruct (btn_files u) eqn:Hb; [|done]. injection Hstep as <-.
    destruct Hidle as (Hc & Hp & Hr); [by left|].
    split; cbn; rewrite ?Hc, ?Hp, ?Hr; try done.
  - (* ClickOutput *)
    destruct (btn_output u) eqn:Hb; [|done]. injection Hstep as <-.
    destruct Hidle as (Hc & Hp & Hr); [by right; left|].
    split; cbn; rewrite ?Hc, ?Hp, ?Hr; try done.
  - (* ClickStart *)
    destruct (btn_start u) eqn:Hb; [|done].
    destruct (ready_spec u (Hready eq_refl)) as (f & fs & d & Hf & Hd & Hne).
    unfold start_slot in Hstep. rewrite Hf, Hd in Hstep.
    destruct (init _ _ _ _ _ _ _) as [w|e] eqn:Hinit; [|done].
    cbn in Hstep. injection Hstep as <-.
    destruct (start_started_ok (f :: fs) d _ _ _ _ _ w ltac:(done) Hne Hinit)
      as (Hok & Hc & Hp).
    split; cbn; try done.
    + intros _. split_and!; try done. exists (start w).
      by rewrite last_snoc.
    + apply Forall_app. split; [done|]. by constructor.
  - (* ClickPause *)
    destruct (btn_pause u) eqn:Hb; [|done]. injection Hstep as <-.
    rewrite (proj1 (slots_run_again u)).
    specialize (Hcan eq_refl).
    destruct (Hrun Hcan) as (H1 & H2 & H3 & w & Hlast & Hc & Hp).
    unfold pause_slot. rewrite Hlast.
    apply last_Some in Hlast as [l Hl].
    split; cbn; rewrite ?Hl, ?on_ctrl_snoc; try done.
    + intros _. split_and!; try done. eexists.
      rewrite last_snoc. cbn. by split_and!.
    + rewrite Hl in Hall. apply Forall_snoc_inv in Hall as [Hl1 Hw].
      apply Forall_app. split; [done|]. constructor; [|done].
      by apply (step_keeps_job CallPause w _ I eq_refl).
  - (* ClickResume *)
    destruct (btn_resume u) eqn:Hb; [|done]. injection Hstep as <-.
    rewrite (proj1 (proj2 (slots_run_again u))).
    assert (Hcan' : btn_cancel u = true).
    { apply Hcan. apply orb_true_r. }
    destruct (Hrun Hcan') as (H1 & H2 & H3 & w & Hlast & Hc & Hp).
    unfold resume_slot. rewrite Hlast.
    apply last_Some in Hlast as [l Hl].
    split; cbn; rewrite ?Hl, ?on_ctrl_snoc; try done.
    + intros _. split_and!; try done. eexists.
      rewrite last_snoc. cbn. by split_and!.
    + rewrite Hl in Hall. apply Forall_snoc_inv in Hall as [Hl1 Hw].
      apply Forall_app. split; [done|]. constructor; [|done].
      by apply (step_keeps_job CallResume w _ I eq_refl).
  - (* ClickCancel *)
    destruct (btn_cancel u) eqn:Hb; [|done]. injection Hstep as <-.
    rewrite (proj2 (proj2 (slots_run_again u))).
    destruct (Hrun eq_refl) as (H1 & H2 & H3 & w & Hlast & Hc & Hp).
    unfold cancel_slot. rewrite Hlast.
    apply last_Some in Hlast as [l Hl].
    split; cbn; rewrite ?Hl, ?on_ctrl_snoc; try done.
    rewrite Hl in Hall. apply Forall_snoc_inv in Hall as [Hl1 Hw].
    apply Forall_app. split; [done|]. constructor; [|done].
    by apply (step_keeps_job CallCancel w _ I eq_refl).
  - (* FinishedSignal *)
    destruct (ctrls u !! k) as [w|]; [|done]. cbn in Hstep.
    destruct (finished_signals _); [done|]. injection Hstep as <-.
    split; cbn; try done.
  - (* SetOptions *)
    injection Hstep as <-. split; cbn; try done.
  - (* WorkerMove *)
    destruct (ctrls u !! k) as [w|] eqn:Hk; [|done]. cbn -[step] in Hstep.
    destruct (step (TaskStep i env) w) as [w'|] eqn:Hw; [|done].
    cbn in Hstep. injection Hstep as <-.
    destruct (step_keeps_job (TaskStep i env) w w' I Hw)
      as (Hok & _ & Hflags). destruct (Hflags I) as [Hc' Hp'].
    split; cbn; try done.
    + intros Hcn. destruct (Hrun Hcn) as (H1 & H2 & H3 & wl & Hlast & Hc & Hp).
      split_and!; try done.
      rewrite last_lookup in Hlast. rewrite last_lookup, length_insert.
      destruct (decide (k = pred (length (ctrls u)))) as [->|Hne].
      * rewrite Hk in Hlast. injection Hlast as <-.
        exists w'. rewrite list_lookup_insert_eq by (by eapply lookup_lt_Some).
        split_and!; congruence.
      * exists wl. rewrite list_lookup_insert_ne by done. done.
    + apply Forall_insert; [done|].
      apply Hok. by apply (proj1 (Forall_lookup _ _) Hall k).
Qed.

Lemma ui_run_inv (evs : list ui_event) (u u' : ImageConverter) :
  ui_inv u -> ui_run evs u = Some u' -> ui_inv u'.
Proof.
  revert u. induction evs as [|ev evs IH]; intros u Hinv Hrun; cbn in Hrun.
  - by injection Hrun as <-.
  - destruct (ui_step ev u) as [u1|] eqn:Hstep; [|done]. cbn in Hrun.
    eapply IH; [|exact Hrun]. by eapply ui_step_inv.
Qed.

Lemma ui_reachable_inv (u : ImageConverter) : ui_reachable u -> ui_inv u.
Proof.
  intros (q & wk & km & del & evs & Hrun).
  eapply ui_run_inv; [|exact Hrun]. apply ui_init_inv.
Qed.

(** X13.  In every state of the window, whatever the user and the workers
    have done: when [Start] is enabled, images are selected and an output
    directory is set, both non-empty, and the [start] slot does not fail
    for a missing attribute.  So every controller that the window creates
    has at least one input and an output directory, its [total] is the
    number of inputs, and [start()] has submitted every one of them: it
    runs on the thread of the window, where nothing can call [cancel()]
    meanwhile. *)
Theorem ui_start_guarded (u : ImageConverter) :
  ui_reachable u ->
  (btn_start u = true ->
   exists f fs d,
     ui_files u = Some (f :: fs) /\ ui_output_dir u = Some d /\ d <> ""
     /\ forall now, exists u',
          start_slot now u = Ok u' /\ ui_step (ClickStart now) u = Some u')
  /\ Forall started_ok (ctrls u).
Proof.
  intros Hreach. destruct (ui_reachable_inv u Hreach) as [Hready _ _ _ Hall].
  split; [|exact Hall].
  intros Hb. destruct (ready_spec u (Hready Hb)) as (f & fs & d & Hf & Hd & Hne).
  exists f, fs, d. split_and!; try done.
  intros now. cbn. rewrite Hb. unfold start_slot. rewrite Hf, Hd. cbn.
  eexists. split; reflexivity.
Qed.

Lemma demo_window_reachable : ui_reachable demo_window.
Proof.
  exists 87, 2, false, false, demo_session. vm_compute. reflexivity.
Qed.

Lemma ui_start_guarded_witness :
  Forall started_ok (ctrls demo_window) /\ length (ctrls demo_window) = 1%nat.
Proof.
  split; [|vm_compute; reflexivity].
  exact (proj2 (ui_start_guarded demo_window demo_window_reachable)).
Defined.

(** X14.  In every state of the window: [Pause] and [Resume] are never
    both enabled; either of them enabled means that [Cancel] is; and while
    [Cancel] is enabled, [Select Images], [Select Output] and [Start] are
    disabled (no second job is started over a running one), [self.ctrl]
    exists, it is not cancelled, and it is paused exactly when [Resume] is
    the enabled one. *)
Theorem ui_buttons_consistent (u : ImageConverter) :
  ui_reachable u ->
  btn_pause u && btn_resume u = false
  /\ (btn_pause u || btn_resume u = true -> btn_cancel u = true)
  /\ (btn_cancel u = true ->
      btn_files u = false /\ btn_output u = false /\ btn_start u = false
      /\ exists w, last (ctrls u) = Some w
           /\ cancelled (ctrl w) = false
           /\ paused (ctrl w) = btn_resume u).
Proof.
  intros Hreach. by destruct (ui_reachable_inv u Hreach) as [_ ? ? ? _].
Qed.

Lemma paused_window_reachable : ui_reachable paused_window.
Proof.
  exists 87, 2, false, false, paused_session. vm_compute. reflexivity.
Qed.

(** A running job that is paused: [Resume] and [Cancel] are the enabled
    job buttons, and the controller of the window is paused and not
    cancelled. *)
Lemma ui_buttons_consistent_witness :
  btn_resume paused_window = true
  /\ btn_cancel paused_window = true
  /\ btn_pause paused_window = false
  /\ btn_files paused_window = false
  /\ btn_output paused_window = false
  /\ btn_start paused_window = false
  /\ exists w, last (ctrls paused_window) = Some w
       /\ cancelled (ctrl w) = false
       /\ paused (ctrl w) = true.
Proof.
  destruct (ui_buttons_consistent paused_window paused_window_reachable)
    as (Hexcl & Hcan & Hrun).
  assert (Hresume : btn_resume paused_window = true)
    by (vm_compute; reflexivity).
  assert (Hcancel : btn_cancel paused_window = true).
  { apply Hcan. rewrite Hresume. apply orb_true_r. }
  destruct (Hrun Hcancel) as (Hf & Ho & Hs & w & Hlast & Hc & Hp).
  split; [exact Hresume|]. split; [exact Hcancel|].
  split.
  { rewrite Hresume, andb_true_r in Hexcl. exact Hexcl. }
  split; [exact Hf|]. split; [exact Ho|]. split; [exact Hs|].
  exists w. split; [exact Hlast|]. split; [exact Hc|].
  rewrite Hp. exact Hresume.
Defined.

Lemma still_held_refl (w : World) : still_held w w.
Proof. intros i t Hi Hold. by apply Hold. Qed.

Lemma ui_step_out_of_reach (ev : ui_event) (u u' : ImageConverter)
    (k : nat) (w : World) :
  ui_step ev u = Some u' ->
  ctrls u !! k = Some w ->
  out_of_reach u k ->
  exists w', ctrls u' !! k = Some w'
    /\ paused (ctrl w') = paused (ctrl w)
    /\ out_of_reach u' k
    /\ (paused (ctrl w) = true -> still_held w w').
Proof.
  intros Hstep Hk Hout.
  assert (Hsame : forall u1, ctrls u1 = ctrls u ->
            (btn_pause u1 = false /\ btn_resume u1 = false
             \/ (btn_pause u1 = btn_pause u /\ btn_resume u1 = btn_resume u)) ->
            exists w', ctrls u1 !! k = Some w'
              /\ paused (ctrl w') = paused (ctrl w)
              /\ out_of_reach u1 k
              /\ (paused (ctrl w) = true -> still_held w w')).
  { intros u1 Hc Hb. exists w. rewrite Hc. split_and!; try done.
    - unfold out_of_reach in *. rewrite Hc.
      destruct Hout as [?|[? ?]]; [by left|]. right.
      destruct Hb as [?|[-> ->]]; done.
    - intros _. apply still_held_refl. }
  assert (Hcall : forall a u1 l wl,
            ctrls u = l ++ [wl] ->
            ctrls u1 = l ++ [default wl (step a wl)] ->
            a = CallCancel ->
            btn_pause u1 = false /\ btn_resume u1 = false ->
            exists w', ctrls u1 !! k = Some w'
              /\ paused (ctrl w') = paused (ctrl w)
              /\ out_of_reach u1 k
              /\ (paused (ctrl w) = true -> still_held w w')).
  { intros a u1 l wl Hl Hl1 -> Hb. rewrite Hl in Hk. rewrite Hl1.
    apply lookup_app_Some in Hk as [Hk|[Hlen Hk]].
    - exists w. rewrite lookup_app_l by (by eapply lookup_lt_Some).
      split_and!; try done; [by right|].
      intros _. apply still_held_refl.
    - apply list_lookup_singleton_Some in Hk as [Hz <-].
      replace k with (length l + 0)%nat by lia.
      rewrite lookup_app_r by lia.
      replace (length l + 0 - length l)%nat with 0%nat by lia. cbn.
      eexists. split_and!; try done; [by right|].
      intros Hp. by apply (step_still_held CallCancel). }
  destruct ev as [picked|picked|now| | | |j|q wk km del|j i env];
    cbn -[clicked step] in Hstep.
  - destruct (btn_files u); [|done]. injection Hstep as <-.
    apply Hsame; [done|by right].
  - destruct (btn_output u); [|done]. injection Hstep as <-.
    apply Hsame; [done|by right].
  - destruct (btn_start u); [|done]. unfold start_slot in Hstep.
    destruct (ui_files u) as [fl|]; [|done].
    destruct (ui_output_dir u) as [dir|]; [|done]. cbn in Hstep.
    injection Hstep as <-. exists w. cbn.
    rewrite lookup_app_l by (by eapply lookup_lt_Some).
    split_and!; try done.
    + left. cbn. rewrite length_app. cbn.
      apply lookup_lt_Some in Hk. lia.
    + intros _. apply still_held_refl.
  - destruct (btn_pause u) eqn:Hb; [|done]. injection Hstep as <-.
    destruct Hout as [Hlt|[Hp _]]; [|congruence].
    rewrite (proj1 (slots_run_again u)). unfold pause_slot.
    destruct (last (ctrls u)) as [wl|] eqn:Hlast.
    + apply last_Some in Hlast as [l Hl]. exists w. cbn.
      rewrite Hl, on_ctrl_snoc. rewrite Hl in Hk, Hlt.
      rewrite length_app in Hlt. cbn in Hlt.
      rewrite lookup_app_l in Hk by lia. rewrite lookup_app_l by lia.
      split_and!; try done.
      * left. cbn. rewrite ?Hl, ?on_ctrl_snoc, length_app. cbn. lia.
      * intros _. apply still_held_refl.
    + apply Hsame; [done|by right].
  - destruct (btn_resume u) eqn:Hb; [|done]. injection Hstep as <-.
    destruct Hout as [Hlt|[_ Hr]]; [|congruence].
    rewrite (proj1 (proj2 (slots_run_again u))). unfold resume_slot.
    destruct (last (ctrls u)) as [wl|] eqn:Hlast.
    + apply last_Some in Hlast as [l Hl]. exists w. cbn.
      rewrite Hl, on_ctrl_snoc. rewrite Hl in Hk, Hlt.
      rewrite length_app in Hlt. cbn in Hlt.
      rewrite lookup_app_l in Hk by lia. rewrite lookup_app_l by lia.
      split_and!; try done.
      * left. cbn. rewrite ?Hl, ?on_ctrl_snoc, length_app. cbn. lia.
      * intros _. apply still_held_refl.
    + apply Hsame; [done|by right].
  - destruct (btn_cancel u) eqn:Hb; [|done]. injection Hstep as <-.
    rewrite (proj2 (proj2 (slots_run_again u))). unfold cancel_slot.
    destruct (last (ctrls u)) as [wl|] eqn:Hlast.
    + apply last_Some in Hlast as [l Hl].
      apply (Hcall CallCancel _ l wl Hl); try done.
      cbn. by rewrite Hl, on_ctrl_snoc.
    + apply Hsame; [done|by right].
  - destruct (ctrls u !! j) as [wj|]; [|done]. cbn in Hstep.
    destruct (finished_signals _); [done|]. injection Hstep as <-.
    apply Hsame; [done|by left].
  - injection Hstep as <-. apply Hsame; [done|by right].
  - destruct (ctrls u !! j) as [wj|] eqn:Hj; [|done]. cbn -[step] in Hstep.
    destruct (step (TaskStep i env) wj) as [wj'|] eqn:Hw; [|done].
    cbn in Hstep. injection Hstep as <-. cbn.
    assert (Hout' : out_of_reach
                      (with_ctrls u (<[j:=wj']> (ctrls u))) k).
    { unfold out_of_reach in *. cbn. by rewrite length_insert. }
    destruct (decide (j = k)) as [->|Hne].
    + rewrite Hk in Hj. injection Hj as <-. exists wj'.
      rewrite list_lookup_insert_eq by (by eapply lookup_lt_Some).
      destruct (step_keeps_job (TaskStep i env) w wj' I Hw)
        as (_ & _ & Hflags). destruct (Hflags I) as [_ Hp'].
      split_and!; try done.
      intros Hp. by apply (step_still_held (TaskStep i env)).
    + exists w. rewrite list_lookup_insert_ne by done.
      split_and!; try done. intros _. apply still_held_refl.
Qed.

(** X15.  [resume()] is only ever called on [self.ctrl], from the [Resume]
    button.  So a controller that the window has replaced by a later one,
    or whose job was cancelled or finished (which disables both [Pause]
    and [Resume]), keeps its [paused] flag for good: if it was paused at
    that moment, it stays paused whatever the user does afterwards, and
    its tasks that had not got past the wait of [run] never do. *)
Theorem paused_controller_out_of_reach (evs : list ui_event)
    (u u' : ImageConverter) (k : nat) (w : World) :
  ui_run evs u = Some u' ->
  ctrls u !! k = Some w ->
  out_of_reach u k ->
  exists w', ctrls u' !! k = Some w'
    /\ paused (ctrl w') = paused (ctrl w)
    /\ out_of_reach u' k
    /\ (paused (ctrl w) = true -> still_held w w').
Proof.
  revert u w. induction evs as [|ev evs IH]; intros u w Hrun Hk Hout;
    cbn in Hrun.
  - injection Hrun as <-. exists w. split_and!; try done.
    intros _. apply still_held_refl.
  - destruct (ui_step ev u) as [u1|] eqn:Hstep; [|done]. cbn in Hrun.
    destruct (ui_step_out_of_reach ev u u1 k w Hstep Hk Hout)
      as (w1 & Hk1 & Hp1 & Hout1 & Hheld1).
    destruct (IH u1 w1 Hrun Hk1 Hout1) as (w' & Hk' & Hp' & Hout' & Hheld').
    exists w'. split_and!; try done; [congruence|].
    intros Hp. eapply still_held_trans; [by apply Hheld1|].
    apply Hheld'. congruence.
Qed.

Lemma paused_controller_out_of_reach_witness :
  exists w', ctrls (default demo_window
                      (ui_run [ClickStart (secs 200); ClickPause; ClickResume;
                               WorkerMove 0 1 env_b]
                              demo_window)) !! 0%nat = Some w'
    /\ paused (ctrl w') = true.
Proof.
  destruct (paused_controller_out_of_reach
              [ClickStart (secs 200); ClickPause; ClickResume;
               WorkerMove 0 1 env_b]
              demo_window
              (default demo_window
                 (ui_run [ClickStart (secs 200); ClickPause; ClickResume;
                          WorkerMove 0 1 env_b] demo_window))
              0%nat
              (default four_w0 (ctrls demo_window !! 0%nat))
              ltac:(vm_compute; reflexivity)
              ltac:(vm_compute; reflexivity)
              ltac:(right; split; vm_compute; reflexivity))
    as (w' & Hk & Hp & _).
  exists w'. split; [exact Hk|]. rewrite Hp. vm_compute. reflexivity.
Defined.

(** ** The text of the ETA *)

Lemma two_digits_length (n : Z) :
  0 <= n < 60 -> String.length (two_digits n) = 2%nat.
Proof.
  intros Hn.
  assert (Hall : forallb (fun k : nat =>
                   Nat.eqb (String.length (two_digits (Z.of_nat k))) 2)
                   (seq 0 60) = true) by (vm_compute; reflexivity).
  rewrite forallb_forall in Hall.
  specialize (Hall (Z.to_nat n)).
  rewrite Z2Nat.id in Hall by lia.
  apply Nat.eqb_eq, Hall, in_seq. lia.
Qed.

(** X16.  For an ETA whose whole seconds [t] lie between 0 and
    [2^31 - 1], which [time.gmtime] accepts on every platform, the text
    emitted is a time of day: two digits of hours below 24, of minutes and
    of seconds below 60, with colons, eight characters in all.  It depends
    only on [t] modulo one day, so an ETA of a day or more shows without
    its days. *)
Theorem eta_text_shape (v : pynum) (t : Z) :
  time_t_of v = Ok t ->
  0 <= t <= portable_time_max ->
  exists h m s,
    h = (t mod 86400) / 3600 /\ 0 <= h < 24
    /\ m = (t mod 3600) / 60 /\ 0 <= m < 60
    /\ s = t mod 60 /\ 0 <= s < 60
    /\ format_eta v
       = Ok (two_digits h +:+ ":" +:+ two_digits m +:+ ":" +:+ two_digits s)
    /\ String.length
         (two_digits h +:+ ":" +:+ two_digits m +:+ ":" +:+ two_digits s)
       = 8%nat
    /\ format_eta (PyInt (t mod 86400)) = format_eta v.
Proof.
  intros Ht Hrange. unfold portable_time_max in Hrange.
  unfold format_eta, gmtime. rewrite Ht. cbn.
  pose proof (Z.mod_pos_bound t 86400 ltac:(lia)) as Hday.
  assert (Hm : (t mod 86400) mod 3600 = t mod 3600).
  { apply Z.mod_mod_divide. exists 24. lia. }
  assert (Hs : (t mod 86400) mod 60 = t mod 60).
  { apply Z.mod_mod_divide. exists 1440. lia. }
  assert (Hh : 0 <= (t mod 86400) / 3600 < 24).
  { split; [apply Z.div_pos; lia|apply Z.div_lt_upper_bound; lia]. }
  pose proof (Z.mod_pos_bound t 3600 ltac:(lia)) as Hm3600.
  assert (Hmin : 0 <= (t mod 3600) / 60 < 60).
  { split; [apply Z.div_pos; lia|apply Z.div_lt_upper_bound; lia]. }
  pose proof (Z.mod_pos_bound t 60 ltac:(lia)) as Hsec.
  exists ((t mod 86400) / 3600), ((t mod 3600) / 60), (t mod 60).
  unfold strftime_HMS. cbn [tm_hour tm_min tm_sec]. rewrite Hm, Hs.
  split_and!; try done; try lia.
  - rewrite !string_app_length, !two_digits_length by lia. reflexivity.
  - unfold time_t_of, time_t_min, time_t_max.
    destruct (Z.leb_spec (- 2 ^ 63) (t mod 86400)); [|lia].
    destruct (Z.leb_spec (t mod 86400) (2 ^ 63 - 1)); [|lia].
    cbn. rewrite Z.mod_mod by lia. by rewrite Hm, Hs.
Qed.

(** An ETA of 100000 s, one day and 13600 s: the text shows 03:46:40. *)
Lemma eta_text_shape_witness :
  format_eta (PyFloat (secs 100000)) = Ok "03:46:40"
  /\ format_eta (PyInt 13600) = Ok "03:46:40".
Proof.
  destruct (eta_text_shape (PyFloat (secs 100000)) 100000
              ltac:(vm_compute; reflexivity)
              ltac:(vm_compute; split; discriminate))
    as (h & m & s & -> & _ & -> & _ & -> & _ & Hfmt & _ & Hday).
  split.
  - rewrite Hfmt. vm_compute. reflexivity.
  - change (PyInt 13600) with (PyInt (100000 mod 86400)).
    rewrite Hday, Hfmt. vm_compute. reflexivity.
Defined.
